(** * PDB AI chat client: conversation state, persistence and request lifecycle

    A shallow embedding of [script.js].  The handlers installed by the
    [DOMContentLoaded] listener are transcribed as functions over an explicit
    record of the module-wide variables ([currentChatId], [chats],
    [abortController], [currentFile], ...), of [localStorage], of the part of
    the DOM the handlers touch and of the calls to [fetch] that are still
    awaiting their result.

    Conventions of the model.
    - A JavaScript string is a [string]; the character of code [n] stands for
      the UTF-16 code unit [n], so strings range over the code units 0..255.
    - A JavaScript number is an integer [Z] of magnitude at most 2^53, the
      range in which binary64 holds integers exactly; the two zeros are one.
      [JSON.parse] answers [PBeyond] on a text whose value lies outside
      these two ranges (a fraction, an exponent, a larger integer, an escape
      [\uXXXX] above [00FF]): the model makes no statement about such a text.
    - An object used as a dictionary ([chats]) is a [gmap]; an object that
      came out of [JSON.parse] keeps its properties as an association list.
    - [new Date()] and [Date.now()] read a clock that belongs to the
      environment: the state carries the readings still to come.
    - The text of a message and the name of its file are inserted in the
      page as markup.  What the HTML parser makes of them belongs to the
      browser: the state carries, for each message, the elements with an id
      that its markup holds.  Markup that runs a script is not modelled. *)

From Stdlib Require Import ZArith NArith Ascii String List Decimal DecimalString DecimalN.
From stdpp Require Import base option list gmap strings.

Local Open Scope Z_scope.

(** ** Strings *)

(** [ToString] of an integer-valued number below 10^21: its decimal digits,
    with a minus sign when negative. *)
Definition show_N (n : N) : string := NilEmpty.string_of_uint (N.to_uint n).

Definition show_Z (z : Z) : string :=
  if z <? 0 then String "-" (show_N (Z.abs_N z)) else show_N (Z.to_N z).

(** [Array.prototype.join] on an array of strings. *)
Fixpoint js_join (sep : string) (l : list string) : string :=
  match l with
  | [] => ""
  | [x] => x
  | x :: r => x +:+ sep +:+ js_join sep r
  end.

(** ** JSON values *)

Module JSON.

Local Unset Elimination Schemes.
Inductive json : Type :=
  | JNull
  | JBool (b : bool)
  | JNum (z : Z)
  | JStr (s : string)
  | JArr (l : list json)
  | JObj (l : list (string * json)).
Local Set Elimination Schemes.

Definition safe_integer : Z := 9007199254740992.

(** The values a JavaScript program can hold: numbers within the modelled
    range, and no object with two properties of one name. *)
Fixpoint json_wf (v : json) : Prop :=
  match v with
  | JNum z => - safe_integer ≤ z ≤ safe_integer
  | JArr l => (fix all (l : list json) : Prop :=
                 match l with [] => True | x :: r => json_wf x ∧ all r end) l
  | JObj l => NoDup (l.*1) ∧
              (fix all (l : list (string * json)) : Prop :=
                 match l with [] => True | kv :: r => json_wf kv.2 ∧ all r end) l
  | _ => True
  end.

(** *** JSON.stringify *)

Definition hex_digit (n : N) : ascii :=
  ascii_of_N (if (n <? 10)%N then 48 + n else 87 + n).

(** [QuoteJSONString], one code unit at a time. *)
Definition quote_char (c : ascii) : string :=
  if Ascii.eqb c "034" then String "\" (String "034" "")
  else if Ascii.eqb c "\" then "\\"
  else if Ascii.eqb c "008" then "\b"
  else if Ascii.eqb c "009" then "\t"
  else if Ascii.eqb c "010" then "\n"
  else if Ascii.eqb c "012" then "\f"
  else if Ascii.eqb c "013" then "\r"
  else if (N_of_ascii c <? 32)%N then
    "\u00" +:+ String (hex_digit (N_of_ascii c / 16))
                 (String (hex_digit (N_of_ascii c mod 16)) "")
  else String c "".

Fixpoint quote_chars (s : string) : string :=
  match s with
  | EmptyString => ""
  | String c r => quote_char c +:+ quote_chars r
  end.

Definition quote (s : string) : string :=
  String "034" (quote_chars s +:+ String "034" "").

Fixpoint stringify (v : json) : string :=
  match v with
  | JNull => "null"
  | JBool true => "true"
  | JBool false => "false"
  | JNum z => show_Z z
  | JStr s => quote s
  | JArr l =>
      "[" +:+ (fix elems (l : list json) : string :=
                 match l with
                 | [] => ""
                 | [x] => stringify x
                 | x :: r => stringify x +:+ "," +:+ elems r
                 end) l +:+ "]"
  | JObj l =>
      "{" +:+ (fix members (l : list (string * json)) : string :=
                 match l with
                 | [] => ""
                 | [kv] => quote kv.1 +:+ ":" +:+ stringify kv.2
                 | kv :: r => quote kv.1 +:+ ":" +:+ stringify kv.2 +:+ "," +:+ members r
                 end) l +:+ "}"
  end.

(** *** JSON.parse *)

Inductive pres (A : Type) : Type :=
  | POk (a : A)
  | PSyntax
  | PBeyond.
Arguments POk {A} a.
Arguments PSyntax {A}.
Arguments PBeyond {A}.

Definition pbind {A B} (m : pres A) (k : A → pres B) : pres B :=
  match m with
  | POk a => k a
  | PSyntax => PSyntax
  | PBeyond => PBeyond
  end.

Local Notation "'let*' x := m 'in' k" := (pbind m (λ x, k))
  (at level 10, x name, m at level 100, k at level 200, only parsing).

Definition is_ws (c : ascii) : bool :=
  Ascii.eqb c " " || Ascii.eqb c "009" || Ascii.eqb c "010" || Ascii.eqb c "013".

Fixpoint skip_ws (s : string) : string :=
  match s with
  | String c r => if is_ws c then skip_ws r else s
  | EmptyString => ""
  end.

Definition hex_val (c : ascii) : option N :=
  let n := N_of_ascii c in
  if (48 <=? n)%N && (n <=? 57)%N then Some (n - 48)%N
  else if (97 <=? n)%N && (n <=? 102)%N then Some (n - 87)%N
  else if (65 <=? n)%N && (n <=? 70)%N then Some (n - 55)%N
  else None.

Definition unescape (e : ascii) : option ascii :=
  if Ascii.eqb e "034" then Some "034"%char
  else if Ascii.eqb e "\" then Some "\"%char
  else if Ascii.eqb e "/" then Some "/"%char
  else if Ascii.eqb e "b" then Some "008"%char
  else if Ascii.eqb e "f" then Some "012"%char
  else if Ascii.eqb e "n" then Some "010"%char
  else if Ascii.eqb e "r" then Some "013"%char
  else if Ascii.eqb e "t" then Some "009"%char
  else None.

Definition pmap_fst {A B C} (f : A → B) (m : pres (A * C)) : pres (B * C) :=
  match m with
  | POk (a, r) => POk (f a, r)
  | PSyntax => PSyntax
  | PBeyond => PBeyond
  end.

(** The characters of a string literal, after its opening quote. *)
Fixpoint parse_chars (s : string) : pres (string * string) :=
  match s with
  | EmptyString => PSyntax
  | String c r =>
      if Ascii.eqb c "034" then POk ("", r)
      else if Ascii.eqb c "\" then
        match r with
        | EmptyString => PSyntax
        | String e r1 =>
            if Ascii.eqb e "u" then
              match r1 with
              | String h3 (String h2 (String h1 (String h0 r2))) =>
                  match hex_val h3, hex_val h2, hex_val h1, hex_val h0 with
                  | Some a, Some b, Some c1, Some d =>
                      if ((a =? 0) && (b =? 0))%N
                      then pmap_fst (String (ascii_of_N (c1 * 16 + d))) (parse_chars r2)
                      else PBeyond
                  | _, _, _, _ => PSyntax
                  end
              | _ => PSyntax
              end
            else
              match unescape e with
              | Some c' => pmap_fst (String c') (parse_chars r1)
              | None => PSyntax
              end
        end
      else if (N_of_ascii c <? 32)%N then PSyntax
      else pmap_fst (String c) (parse_chars r)
  end.

Definition digit_of_char (c : ascii) : option (uint → uint) :=
  if Ascii.eqb c "0" then Some D0 else if Ascii.eqb c "1" then Some D1
  else if Ascii.eqb c "2" then Some D2 else if Ascii.eqb c "3" then Some D3
  else if Ascii.eqb c "4" then Some D4 else if Ascii.eqb c "5" then Some D5
  else if Ascii.eqb c "6" then Some D6 else if Ascii.eqb c "7" then Some D7
  else if Ascii.eqb c "8" then Some D8 else if Ascii.eqb c "9" then Some D9
  else None.

Fixpoint lex_digits (s : string) : uint * string :=
  match s with
  | EmptyString => (Nil, "")
  | String c r =>
      match digit_of_char c with
      | Some d => let '(u, r') := lex_digits r in (d u, r')
      | None => (Nil, s)
      end
  end.

Definition starts_fraction (s : string) : bool :=
  match s with
  | String c _ => Ascii.eqb c "." || Ascii.eqb c "e" || Ascii.eqb c "E"
  | EmptyString => false
  end.

Definition take_sign (s : string) : bool * string :=
  match s with
  | String c r => if Ascii.eqb c "-" then (true, r) else (false, s)
  | EmptyString => (false, s)
  end.

(** A number token: an optional minus sign, then either the digit zero or a
    non-zero digit followed by digits.  A fraction or an exponent after it is
    beyond the model. *)
Definition parse_number (s : string) : pres (json * string) :=
  let '(neg, s1) := take_sign s in
  let '(d, r) := lex_digits s1 in
  match d with
  | Nil => PSyntax
  | D0 Nil =>
      if starts_fraction r then PBeyond else POk (JNum 0, r)
  | D0 _ => PSyntax
  | _ =>
      if starts_fraction r then PBeyond
      else
        let z := Z.of_N (N.of_uint d) in
        if z <=? safe_integer then POk (JNum (if neg then - z else z), r) else PBeyond
  end.

Fixpoint expect (w : string) (s : string) : option string :=
  match w with
  | EmptyString => Some s
  | String c w' =>
      match s with
      | String c' s' => if Ascii.eqb c c' then expect w' s' else None
      | EmptyString => None
      end
  end.

Definition next_is (c : ascii) (s : string) : option string :=
  match s with
  | String c' r => if Ascii.eqb c' c then Some r else None
  | EmptyString => None
  end.

(** Defining a property on an object under construction: a later property of
    the same name replaces the value of the earlier one. *)
Fixpoint obj_set (l : list (string * json)) (k : string) (v : json) : list (string * json) :=
  match l with
  | [] => [(k, v)]
  | (k', v') :: r => if String.eqb k' k then (k', v) :: r else (k', v') :: obj_set r k v
  end.

Definition obj_of_pairs (ps : list (string * json)) : list (string * json) :=
  foldl (λ acc kv, obj_set acc kv.1 kv.2) [] ps.

Fixpoint parse_value (fuel : nat) (s : string) : pres (json * string) :=
  match fuel with
  | O => PBeyond
  | S fuel =>
      match skip_ws s with
      | EmptyString => PSyntax
      | String c r =>
          if Ascii.eqb c "{" then
            match next_is "}" (skip_ws r) with
            | Some r' => POk (JObj [], r')
            | None => pmap_fst (λ ps, JObj (obj_of_pairs ps)) (parse_members fuel r)
            end
          else if Ascii.eqb c "[" then
            match next_is "]" (skip_ws r) with
            | Some r' => POk (JArr [], r')
            | None => pmap_fst JArr (parse_elements fuel r)
            end
          else if Ascii.eqb c "034" then pmap_fst JStr (parse_chars r)
          else if Ascii.eqb c "t" then
            match expect "rue" r with Some r' => POk (JBool true, r') | None => PSyntax end
          else if Ascii.eqb c "f" then
            match expect "alse" r with Some r' => POk (JBool false, r') | None => PSyntax end
          else if Ascii.eqb c "n" then
            match expect "ull" r with Some r' => POk (JNull, r') | None => PSyntax end
          else parse_number (String c r)
      end
  end
with parse_elements (fuel : nat) (s : string) : pres (list json * string) :=
  match fuel with
  | O => PBeyond
  | S fuel =>
      let* vr := parse_value fuel s in
      let r := skip_ws vr.2 in
      match next_is "," r with
      | Some r' => pmap_fst (cons vr.1) (parse_elements fuel r')
      | None =>
          match next_is "]" r with
          | Some r' => POk ([vr.1], r')
          | None => PSyntax
          end
      end
  end
with parse_members (fuel : nat) (s : string) : pres (list (string * json) * string) :=
  match fuel with
  | O => PBeyond
  | S fuel =>
      match next_is "034" (skip_ws s) with
      | None => PSyntax
      | Some r0 =>
          let* kr := parse_chars r0 in
          match next_is ":" (skip_ws kr.2) with
          | None => PSyntax
          | Some r1 =>
              let* vr := parse_value fuel r1 in
              let r := skip_ws vr.2 in
              match next_is "," r with
              | Some r' => pmap_fst (cons (kr.1, vr.1)) (parse_members fuel r')
              | None =>
                  match next_is "}" r with
                  | Some r' => POk ([(kr.1, vr.1)], r')
                  | None => PSyntax
                  end
              end
          end
      end
  end.

Definition parse (s : string) : pres json :=
  let* vr := parse_value (S (String.length s)) s in
  match skip_ws vr.2 with
  | EmptyString => POk vr.1
  | _ => PSyntax
  end.

End JSON.

Import JSON.


(** ** Values and records of the program *)

(** A value read from a property: [undefined], or a value that JSON can
    carry. *)
Inductive jsval : Type :=
  | VUndefined
  | VJson (j : json).

(** The descriptor [handleFileUpload] builds from the chosen file. *)
Record File : Type := mkFile {
  file_name : string;
  file_size : Z;
  file_type : string;
  file_url : string
}.

(** The [file] property of a message: missing from the object (the replies
    and the greeting), [null] or a descriptor (a message of the user). *)
Inductive FileProp : Type :=
  | FileAbsent
  | FileNull
  | FileDesc (f : File).

Record Message : Type := mkMessage {
  sender : string;
  text : jsval;
  file : FileProp;
  timestamp : string
}.

(** A conversation; [chat_id] is its property [id]. *)
Record Chat : Type := mkChat {
  chat_id : string;
  createdAt : string;
  updatedAt : string;
  messages : list Message
}.

Definition greeting_text : string :=
  "Hello! I'm PDB AI, your advanced assistant. How can I help you today?".

Definition apology_text : string :=
  "Sorry, I encountered an error. Please try again.".

(** *** Conversions of the language *)

(** [ToBoolean]. *)
Definition truthy (v : jsval) : bool :=
  match v with
  | VUndefined => false
  | VJson JNull => false
  | VJson (JBool b) => b
  | VJson (JNum z) => negb (z =? 0)
  | VJson (JStr s) => negb (String.eqb s "")
  | VJson (JArr _) => true
  | VJson (JObj _) => true
  end.

(** [ToString] of a value that JSON can carry; an array joins its elements
    with commas, [null] elements giving the empty string. *)
Fixpoint json_to_string (j : json) : string :=
  match j with
  | JNull => "null"
  | JBool true => "true"
  | JBool false => "false"
  | JNum z => show_Z z
  | JStr s => s
  | JArr l =>
      js_join "," ((fix each (l : list json) : list string :=
                      match l with
                      | [] => []
                      | JNull :: r => "" :: each r
                      | x :: r => json_to_string x :: each r
                      end) l)
  | JObj _ => "[object Object]"
  end.

Definition to_string (v : jsval) : string :=
  match v with
  | VUndefined => "undefined"
  | VJson j => json_to_string j
  end.

Definition is_string (v : jsval) : bool :=
  match v with
  | VJson (JStr _) => true
  | _ => false
  end.

(** White space and line terminators among the code units of the model. *)
Definition is_js_space (c : ascii) : bool :=
  let n := N_of_ascii c in
  ((9 <=? n) && (n <=? 13) || (n =? 32) || (n =? 160))%N.

Fixpoint trim_start (s : string) : string :=
  match s with
  | String c r => if is_js_space c then trim_start r else s
  | EmptyString => ""
  end.

Fixpoint trim_end (s : string) : string :=
  match s with
  | EmptyString => ""
  | String c r =>
      match trim_end r with
      | EmptyString => if is_js_space c then "" else String c ""
      | r' => String c r'
      end
  end.

(** [String.prototype.trim]. *)
Definition trim (s : string) : string := trim_end (trim_start s).

(** *** Reading properties *)

Fixpoint assoc (k : string) (l : list (string * json)) : jsval :=
  match l with
  | [] => VUndefined
  | (k', v) :: r => if String.eqb k' k then VJson v else assoc k r
  end.

(** [v.name] for a property name that is neither an index nor a property of
    a prototype: [None] stands for the [TypeError] of reading a property of
    [undefined] or [null]. *)
Definition get_field (v : jsval) (name : string) : option jsval :=
  match v with
  | VUndefined => None
  | VJson JNull => None
  | VJson (JObj l) => Some (assoc name l)
  | VJson (JArr l) =>
      Some (if String.eqb name "length" then VJson (JNum (Z.of_nat (length l))) else VUndefined)
  | VJson (JStr s) =>
      Some (if String.eqb name "length" then VJson (JNum (Z.of_nat (String.length s)))
            else VUndefined)
  | VJson _ => Some VUndefined
  end.

(** [v[0]]. *)
Definition get_first (v : jsval) : option jsval :=
  match v with
  | VUndefined => None
  | VJson JNull => None
  | VJson (JArr l) => Some (match l with x :: _ => VJson x | [] => VUndefined end)
  | VJson (JObj l) => Some (assoc "0" l)
  | VJson (JStr s) =>
      Some (match s with String c _ => VJson (JStr (String c "")) | EmptyString => VUndefined end)
  | VJson _ => Some VUndefined
  end.

(** [data.candidates[0].content.parts[0].text]. *)
Definition response_text (data : json) : option jsval :=
  c ← get_field (VJson data) "candidates";
  c0 ← get_first c;
  ct ← get_field c0 "content";
  p ← get_field ct "parts";
  p0 ← get_first p;
  get_field p0 "text".

(** *** What JSON.stringify sees of the records *)

Definition file_json (f : File) : json :=
  JObj [("name", JStr (file_name f)); ("size", JNum (file_size f));
        ("type", JStr (file_type f)); ("url", JStr (file_url f))].

(** A property whose value is [undefined] is left out. *)
Definition message_json (m : Message) : json :=
  JObj ([("sender", JStr (sender m))]
        ++ match text m with VUndefined => [] | VJson j => [("text", j)] end
        ++ match file m with
           | FileAbsent => []
           | FileNull => [("file", JNull)]
           | FileDesc f => [("file", file_json f)]
           end
        ++ [("timestamp", JStr (timestamp m))]).

Definition chat_json (c : Chat) : json :=
  JObj [("id", JStr (chat_id c)); ("createdAt", JStr (createdAt c));
        ("updatedAt", JStr (updatedAt c));
        ("messages", JArr (message_json <$> messages c))].

Definition chats_json (l : list (string * Chat)) : json :=
  JObj (prod_map id chat_json <$> l).

(** *** Reading the records back from a parsed value

    [chats] is used as a mapping of conversations of the shape that
    [saveAllChats] writes.  A stored value of another shape is not a
    conversation mapping: the model does not follow the program on it. *)

Definition take_prop (k : string) (l : list (string * json))
  : option json * list (string * json) :=
  match l with
  | (k', v) :: r => if String.eqb k' k then (Some v, r) else (None, l)
  | [] => (None, [])
  end.

Definition file_of_json (j : json) : option File :=
  match j with
  | JObj [(k1, JStr n); (k2, JNum z); (k3, JStr t); (k4, JStr u)] =>
      if String.eqb k1 "name" && String.eqb k2 "size" && String.eqb k3 "type"
         && String.eqb k4 "url"
      then Some (mkFile n z t u) else None
  | _ => None
  end.

Definition message_of_json (j : json) : option Message :=
  match j with
  | JObj l =>
      let '(s, l1) := take_prop "sender" l in
      let '(t, l2) := take_prop "text" l1 in
      let '(f, l3) := take_prop "file" l2 in
      let '(ts, l4) := take_prop "timestamp" l3 in
      match s, ts, l4 with
      | Some (JStr s), Some (JStr ts), [] =>
          fp ← match f with
               | None => Some FileAbsent
               | Some JNull => Some FileNull
               | Some fj => FileDesc <$> file_of_json fj
               end;
          Some (mkMessage s (match t with None => VUndefined | Some tj => VJson tj end) fp ts)
      | _, _, _ => None
      end
  | _ => None
  end.

Definition chat_of_json (j : json) : option Chat :=
  match j with
  | JObj [(k1, JStr i); (k2, JStr c); (k3, JStr u); (k4, JArr ms)] =>
      if String.eqb k1 "id" && String.eqb k2 "createdAt" && String.eqb k3 "updatedAt"
         && String.eqb k4 "messages"
      then mkChat i c u <$> mapM message_of_json ms else None
  | _ => None
  end.

Definition chats_of_json (j : json) : option (gmap string Chat) :=
  match j with
  | JObj l => list_to_map <$> mapM (λ kv, pair kv.1 <$> chat_of_json kv.2) l
  | _ => None
  end.

(** ** The state of the page *)

(** What can be thrown, or be the reason of a rejected promise. *)
Inductive exn : Type :=
  | Error (message : string)
  | TypeError
  | SyntaxError
  | NetworkError
  | AbortError.

(** A reading of the clock: the value of [Date.now()] and the text of
    [new Date().toISOString()] at that instant. *)
Record Tick : Type := mkTick { ms : Z; iso : string }.

(** An element that carries an id, with the elements that carry an id
    inside it, in document order.  Elements without an id are left out: what
    is inside them counts as being where they are. *)
Local Unset Elimination Schemes.
Inductive Element : Type :=
  | El (el_id : string) (inside : list Element).
Local Set Elimination Schemes.

(** The children of [chatContainer]: a rendered message, a typing indicator
    with its element id, or a rendered message from whose markup elements
    have been removed, with the elements carrying an id that are left in it.
    The text of a message is inserted as markup, so the elements inside a
    rendered message are what the HTML parser of the browser makes of it. *)
Inductive Node : Type :=
  | NMessage (m : Message)
  | NTyping (id : string)
  | NAltered (m : Message) (left_in : list Element).

(** A call to [fetch]: the body posted and the controller whose signal was
    passed.  Address, method and headers are constants of the program. *)
Record Request : Type := mkRequest { body : string; signal : nat }.

(** An invocation of [sendMessage] suspended at one of its two [await]s. *)
Inductive Phase : Type := AwaitFetch | AwaitBody.

Record Call : Type := mkCall {
  typingId : string;
  call_signal : nat;
  phase : Phase
}.

(** The variables of the listener, [localStorage], the page, the calls that
    are pending and the browser: its clock with the number of readings taken,
    and [markup], the elements carrying an id that its HTML parser finds in
    the markup of a rendered message. *)
Record State : Type := mkState {
  localStorage : gmap string string;
  currentChatId : string;
  chats : gmap string Chat;
  abortController : nat;
  currentFile : option File;
  isRecording : bool;
  promptInput : string;
  uploadActive : bool;
  chatContainer : list Node;
  aborted : gset nat;
  console : list exn;
  requests : list Request;
  calls : gmap nat Call;
  nextCall : nat;
  clock : nat → Tick;
  reads : nat;
  uncaught : list exn;
  markup : Message → list Element
}.

Definition set_localStorage (v : gmap string string) (s : State) : State :=
  {| localStorage := v; currentChatId := currentChatId s; chats := chats s; abortController
     := abortController s; currentFile := currentFile s; isRecording := isRecording s;
     promptInput := promptInput s; uploadActive := uploadActive s; chatContainer :=
     chatContainer s; aborted := aborted s; console := console s; requests := requests s;
     calls := calls s; nextCall := nextCall s; clock := clock s; reads := reads s; uncaught
     := uncaught s; markup := markup s |}.

Definition set_currentChatId (v : string) (s : State) : State :=
  {| localStorage := localStorage s; currentChatId := v; chats := chats s; abortController
     := abortController s; currentFile := currentFile s; isRecording := isRecording s;
     promptInput := promptInput s; uploadActive := uploadActive s; chatContainer :=
     chatContainer s; aborted := aborted s; console := console s; requests := requests s;
     calls := calls s; nextCall := nextCall s; clock := clock s; reads := reads s; uncaught
     := uncaught s; markup := markup s |}.

Definition set_chats (v : gmap string Chat) (s : State) : State :=
  {| localStorage := localStorage s; currentChatId := currentChatId s; chats := v;
     abortController := abortController s; currentFile := currentFile s; isRecording :=
     isRecording s; promptInput := promptInput s; uploadActive := uploadActive s;
     chatContainer := chatContainer s; aborted := aborted s; console := console s; requests
     := requests s; calls := calls s; nextCall := nextCall s; clock := clock s; reads :=
     reads s; uncaught := uncaught s; markup := markup s |}.

Definition set_abortController (v : nat) (s : State) : State :=
  {| localStorage := localStorage s; currentChatId := currentChatId s; chats := chats s;
     abortController := v; currentFile := currentFile s; isRecording := isRecording s;
     promptInput := promptInput s; uploadActive := uploadActive s; chatContainer :=
     chatContainer s; aborted := aborted s; console := console s; requests := requests s;
     calls := calls s; nextCall := nextCall s; clock := clock s; reads := reads s; uncaught
     := uncaught s; markup := markup s |}.

Definition set_currentFile (v : option File) (s : State) : State :=
  {| localStorage := localStorage s; currentChatId := currentChatId s; chats := chats s;
     abortController := abortController s; currentFile := v; isRecording := isRecording s;
     promptInput := promptInput s; uploadActive := uploadActive s; chatContainer :=
     chatContainer s; aborted := aborted s; console := console s; requests := requests s;
     calls := calls s; nextCall := nextCall s; clock := clock s; reads := reads s; uncaught
     := uncaught s; markup := markup s |}.

Definition set_isRecording (v : bool) (s : State) : State :=
  {| localStorage := localStorage s; currentChatId := currentChatId s; chats := chats s;
     abortController := abortController s; currentFile := currentFile s; isRecording := v;
     promptInput := promptInput s; uploadActive := uploadActive s; chatContainer :=
     chatContainer s; aborted := aborted s; console := console s; requests := requests s;
     calls := calls s; nextCall := nextCall s; clock := clock s; reads := reads s; uncaught
     := uncaught s; markup := markup s |}.

Definition set_promptInput (v : string) (s : State) : State :=
  {| localStorage := localStorage s; currentChatId := currentChatId s; chats := chats s;
     abortController := abortController s; currentFile := currentFile s; isRecording :=
     isRecording s; promptInput := v; uploadActive := uploadActive s; chatContainer :=
     chatContainer s; aborted := aborted s; console := console s; requests := requests s;
     calls := calls s; nextCall := nextCall s; clock := clock s; reads := reads s; uncaught
     := uncaught s; markup := markup s |}.

Definition set_uploadActive (v : bool) (s : State) : State :=
  {| localStorage := localStorage s; currentChatId := currentChatId s; chats := chats s;
     abortController := abortController s; currentFile := currentFile s; isRecording :=
     isRecording s; promptInput := promptInput s; uploadActive := v; chatContainer :=
     chatContainer s; aborted := aborted s; console := console s; requests := requests s;
     calls := calls s; nextCall := nextCall s; clock := clock s; reads := reads s; uncaught
     := uncaught s; markup := markup s |}.

Definition set_chatContainer (v : list Node) (s : State) : State :=
  {| localStorage := localStorage s; currentChatId := currentChatId s; chats := chats s;
     abortController := abortController s; currentFile := currentFile s; isRecording :=
     isRecording s; promptInput := promptInput s; uploadActive := uploadActive s;
     chatContainer := v; aborted := aborted s; console := console s; requests := requests s;
     calls := calls s; nextCall := nextCall s; clock := clock s; reads := reads s; uncaught
     := uncaught s; markup := markup s |}.

Definition set_aborted (v : gset nat) (s : State) : State :=
  {| localStorage := localStorage s; currentChatId := currentChatId s; chats := chats s;
     abortController := abortController s; currentFile := currentFile s; isRecording :=
     isRecording s; promptInput := promptInput s; uploadActive := uploadActive s;
     chatContainer := chatContainer s; aborted := v; console := console s; requests :=
     requests s; calls := calls s; nextCall := nextCall s; clock := clock s; reads := reads
     s; uncaught := uncaught s; markup := markup s |}.

Definition set_console (v : list exn) (s : State) : State :=
  {| localStorage := localStorage s; currentChatId := currentChatId s; chats := chats s;
     abortController := abortController s; currentFile := currentFile s; isRecording :=
     isRecording s; promptInput := promptInput s; uploadActive := uploadActive s;
     chatContainer := chatContainer s; aborted := aborted s; console := v; requests :=
     requests s; calls := calls s; nextCall := nextCall s; clock := clock s; reads := reads
     s; uncaught := uncaught s; markup := markup s |}.

Definition set_requests (v : list Request) (s : State) : State :=
  {| localStorage := localStorage s; currentChatId := currentChatId s; chats := chats s;
     abortController := abortController s; currentFile := currentFile s; isRecording :=
     isRecording s; promptInput := promptInput s; uploadActive := uploadActive s;
     chatContainer := chatContainer s; aborted := aborted s; console := console s; requests
     := v; calls := calls s; nextCall := nextCall s; clock := clock s; reads := reads s;
     uncaught := uncaught s; markup := markup s |}.

Definition set_calls (v : gmap nat Call) (s : State) : State :=
  {| localStorage := localStorage s; currentChatId := currentChatId s; chats := chats s;
     abortController := abortController s; currentFile := currentFile s; isRecording :=
     isRecording s; promptInput := promptInput s; uploadActive := uploadActive s;
     chatContainer := chatContainer s; aborted := aborted s; console := console s; requests
     := requests s; calls := v; nextCall := nextCall s; clock := clock s; reads := reads s;
     uncaught := uncaught s; markup := markup s |}.

Definition set_nextCall (v : nat) (s : State) : State :=
  {| localStorage := localStorage s; currentChatId := currentChatId s; chats := chats s;
     abortController := abortController s; currentFile := currentFile s; isRecording :=
     isRecording s; promptInput := promptInput s; uploadActive := uploadActive s;
     chatContainer := chatContainer s; aborted := aborted s; console := console s; requests
     := requests s; calls := calls s; nextCall := v; clock := clock s; reads := reads s;
     uncaught := uncaught s; markup := markup s |}.

Definition set_clock (v : nat → Tick) (s : State) : State :=
  {| localStorage := localStorage s; currentChatId := currentChatId s; chats := chats s;
     abortController := abortController s; currentFile := currentFile s; isRecording :=
     isRecording s; promptInput := promptInput s; uploadActive := uploadActive s;
     chatContainer := chatContainer s; aborted := aborted s; console := console s; requests
     := requests s; calls := calls s; nextCall := nextCall s; clock := v; reads := reads s;
     uncaught := uncaught s; markup := markup s |}.

Definition set_reads (v : nat) (s : State) : State :=
  {| localStorage := localStorage s; currentChatId := currentChatId s; chats := chats s;
     abortController := abortController s; currentFile := currentFile s; isRecording :=
     isRecording s; promptInput := promptInput s; uploadActive := uploadActive s;
     chatContainer := chatContainer s; aborted := aborted s; console := console s; requests
     := requests s; calls := calls s; nextCall := nextCall s; clock := clock s; reads := v;
     uncaught := uncaught s; markup := markup s |}.

Definition set_uncaught (v : list exn) (s : State) : State :=
  {| localStorage := localStorage s; currentChatId := currentChatId s; chats := chats s;
     abortController := abortController s; currentFile := currentFile s; isRecording :=
     isRecording s; promptInput := promptInput s; uploadActive := uploadActive s;
     chatContainer := chatContainer s; aborted := aborted s; console := console s; requests
     := requests s; calls := calls s; nextCall := nextCall s; clock := clock s; reads :=
     reads s; uncaught := v; markup := markup s |}.

(** The browser the page is opened in: the readings its clock will give and
    what its HTML parser finds in the markup of a message. *)
Record Browser : Type := mkBrowser {
  readings : nat → Tick;
  parser : Message → list Element
}.

(** *** Computations that read and write the state and may throw *)

Inductive Result (A : Type) : Type :=
  | Ok (a : A) (s : State)
  | Threw (e : exn) (s : State).
Arguments Ok {A} a s.
Arguments Threw {A} e s.

Definition M (A : Type) : Type := State → Result A.

Definition ret {A} (a : A) : M A := λ s, Ok a s.

Definition bind {A B} (m : M A) (k : A → M B) : M B :=
  λ s, match m s with
       | Ok a s' => k a s'
       | Threw e s' => Threw e s'
       end.

Definition throw {A} (e : exn) : M A := λ s, Threw e s.

(** [try { m } catch (err) { h err }]. *)
Definition try_catch {A} (m : M A) (h : exn → M A) : M A :=
  λ s, match m s with
       | Ok a s' => Ok a s'
       | Threw e s' => h e s'
       end.

Definition get {A} (f : State → A) : M A := λ s, Ok (f s) s.

Definition modify (f : State → State) : M unit := λ s, Ok tt (f s).

Notation "'let*' x := m 'in' k" := (bind m (λ x, k))
  (at level 10, x name, m at level 100, k at level 200, only parsing).

Notation "m ;; k" := (bind m (λ _, k))
  (at level 100, k at level 200, right associativity, only parsing).

(** ** The program

    Each definition below transcribes the function of [script.js] of the same
    name.  [sendMessage] is an [async] function: its three segments, separated
    by [await fetch(...)] and [await res.json()], are [sendMessage],
    [sendMessage_fetched] and [sendMessage_parsed]; between two of them any
    other handler may run. *)

Definition now : M Tick :=
  λ s, Ok (clock s (reads s)) (set_reads (S (reads s)) s).

Definition Date_now : M Z := let* t := now in ret (ms t).

Definition toISOString : M string := let* t := now in ret (iso t).

Definition getItem (k : string) : M (option string) :=
  get (λ s, localStorage s !! k).

Definition setItem (k v : string) : M unit :=
  modify (λ s, set_localStorage (<[k := v]> (localStorage s)) s).

Definition getCurrentChatId : M string :=
  let* id := getItem "currentChatId" in
  match id with
  | Some id' =>
      if String.eqb id' "" then
        let* t := Date_now in
        let id := "chat-" +:+ show_Z t in
        setItem "currentChatId" id ;; ret id
      else ret id'
  | None =>
      let* t := Date_now in
      let id := "chat-" +:+ show_Z t in
      setItem "currentChatId" id ;; ret id
  end.

(** [PSyntax] is the [SyntaxError] that [JSON.parse] throws. *)
Definition loadAllChats (ls : gmap string string) : pres json :=
  match ls !! "pdb-ai-chats" with
  | Some data => if String.eqb data "" then POk (JObj []) else parse data
  | None => POk (JObj [])
  end.

(** The conversations are listed in the order of the properties of [chats],
    which the finite map does not record: [map_to_list] stands for it. *)
Definition saveAllChats : M unit :=
  let* cs := get chats in
  setItem "pdb-ai-chats" (stringify (chats_json (map_to_list cs))) ;;
  let* cur := get currentChatId in
  setItem "currentChatId" cur.

(** [formatText] calls [text.replace], which only a string has. *)
Definition renderMessage (msg : Message) : M unit :=
  if truthy (text msg) && negb (is_string (text msg)) then throw TypeError
  else modify (λ s, set_chatContainer (chatContainer s ++ [NMessage msg]) s).

Fixpoint forEach {A} (f : A → M unit) (l : list A) : M unit :=
  match l with
  | [] => ret tt
  | x :: r => f x ;; forEach f r
  end.

Definition renderChat (id : string) : M unit :=
  modify (set_chatContainer []) ;;
  let* cs := get chats in
  forEach renderMessage (match cs !! id with Some c => messages c | None => [] end).

Definition greeting (ts : string) : Message :=
  mkMessage "ai" (VJson (JStr greeting_text)) FileAbsent ts.

Definition initializeChat : M unit :=
  let* cur := get currentChatId in
  let* cs := get chats in
  match cs !! cur with
  | Some _ => ret tt
  | None =>
      let* c := toISOString in
      let* u := toISOString in
      let* t := toISOString in
      modify (set_chats (<[cur := mkChat cur c u [greeting t]]> cs)) ;;
      saveAllChats
  end ;;
  renderChat cur.

Definition addMessage (msg : Message) : M unit :=
  let* cur := get currentChatId in
  let* cs := get chats in
  match cs !! cur with
  | None => throw TypeError
  | Some c =>
      let* u := toISOString in
      modify (set_chats
                (<[cur := mkChat (chat_id c) (createdAt c) u (messages c ++ [msg])]> cs)) ;;
      saveAllChats ;;
      renderMessage msg
  end.

Definition showTypingIndicator : M string :=
  let* t := Date_now in
  let id := "typing-" +:+ show_Z t in
  modify (λ s, set_chatContainer (chatContainer s ++ [NTyping id]) s) ;;
  ret id.

(** [document.getElementById(id)] is the first element with that id, in
    document order, when there is one; [el.remove()] takes it, and what is
    inside it, out of the page.  [take_element id els] is what is left of the
    elements [els]; [None] when none of them, nor any inside them, has the
    id. *)
Fixpoint take_inside (id : string) (e : Element) : option (list Element) :=
  match e with
  | El i kids =>
      if String.eqb i id then Some []
      else
        (λ kids', [El i kids'])
          <$> (fix take (l : list Element) : option (list Element) :=
                 match l with
                 | [] => None
                 | k :: r =>
                     match take_inside id k with
                     | Some ks => Some (ks ++ r)
                     | None => cons k <$> take r
                     end
                 end) kids
  end.

Fixpoint take_element (id : string) (els : list Element) : option (list Element) :=
  match els with
  | [] => None
  | e :: r =>
      match take_inside id e with
      | Some es => Some (es ++ r)
      | None => cons e <$> take_element id r
      end
  end.

(** The page without the first element that has the id [id]: a typing
    indicator, or an element inside a rendered message, whose other elements
    stay.  [els m] are the elements with an id inside the message [m] as it
    is rendered.  Outside [chatContainer] the document has no element with
    the id of a typing indicator. *)
Fixpoint remove_typing (els : Message → list Element) (id : string) (l : list Node)
  : list Node :=
  match l with
  | [] => []
  | NTyping id' :: r =>
      if String.eqb id' id then r else NTyping id' :: remove_typing els id r
  | NMessage m :: r =>
      match take_element id (els m) with
      | Some left_in => NAltered m left_in :: r
      | None => NMessage m :: remove_typing els id r
      end
  | NAltered m inside :: r =>
      match take_element id inside with
      | Some left_in => NAltered m left_in :: r
      | None => NAltered m inside :: remove_typing els id r
      end
  end.

Definition removeTypingIndicator (id : string) : M unit :=
  modify (λ s, set_chatContainer (remove_typing (markup s) id (chatContainer s)) s).

(** [abortController.abort(); abortController = new AbortController()]. *)
Definition renewAbortController : M unit :=
  modify (λ s, set_aborted ({[abortController s]} ∪ aborted s) s) ;;
  modify (λ s, set_abortController (S (abortController s)) s).

Definition LF : string := String "010" "".

Definition buildPrompt (msgs : list Message) : string :=
  js_join LF ((λ m, sender m +:+ ": " +:+ to_string (text m)) <$> msgs).

Definition request_json (prompt : string) : json :=
  JObj [("contents", JArr [JObj [("parts", JArr [JObj [("text", JStr prompt)]])]])].

(** The [catch] clause of [sendMessage]. *)
Definition sendMessage_catch (typingId : string) (err : exn) : M unit :=
  removeTypingIndicator typingId ;;
  modify (λ s, set_console (console s ++ [err]) s) ;;
  let* ts := toISOString in
  addMessage (mkMessage "ai" (VJson (JStr apology_text)) FileAbsent ts).

(** [getAIResponse] up to [await fetch(...)]: the prompt is built, the
    request is issued with the signal of the current controller and the
    invocation is suspended. *)
Definition getAIResponse (typingId : string) (msgs : list Message) : M unit :=
  let* sig := get abortController in
  modify (λ s, set_requests
                 (requests s ++ [mkRequest (stringify (request_json (buildPrompt msgs))) sig]) s) ;;
  modify (λ s, set_nextCall (S (nextCall s))
                 (set_calls (<[nextCall s := mkCall typingId sig AwaitFetch]> (calls s)) s)).

Definition sendMessage : M unit :=
  let* value := get promptInput in
  let text := trim value in
  let* cf := get currentFile in
  if String.eqb text "" && negb (bool_decide (is_Some cf)) then ret tt
  else
    renewAbortController ;;
    let* ts := toISOString in
    addMessage (mkMessage "user" (VJson (JStr text))
                          (match cf with Some f => FileDesc f | None => FileNull end) ts) ;;
    modify (set_promptInput "") ;;
    modify (set_currentFile None) ;;
    modify (set_uploadActive false) ;;
    let* typingId := showTypingIndicator in
    let* cur := get currentChatId in
    let* cs := get chats in
    match cs !! cur with
    | Some c => getAIResponse typingId (messages c)
    | None => sendMessage_catch typingId TypeError
    end.

Inductive Settled (A : Type) : Type :=
  | Fulfilled (a : A)
  | Rejected (e : exn).
Arguments Fulfilled {A} a.
Arguments Rejected {A} e.

(** What an awaited promise of [fetch] gives once its signal is aborted: the
    rejection with an [AbortError].  The model delivers it with the event
    that settles the call; the browser delivers it as soon as the handler
    that aborted the controller returns.  The traces of the page are thus
    the sequences of events in which the event settling an aborted call comes
    right after the handler that aborted it. *)
Definition with_abort {A} (c : Call) (r : Settled A) : M (Settled A) :=
  let* ab := get aborted in
  ret (if bool_decide (call_signal c ∈ ab) then Rejected AbortError else r).

(** [res.ok]. *)
Definition ok (status : Z) : bool := (200 <=? status) && (status <=? 299).

(** From [await fetch(...)] to [await res.json()]; [r] is the status of the
    response, or the reason of the rejection. *)
Definition sendMessage_fetched (k : nat) (r : Settled Z) : M unit :=
  let* cs := get calls in
  match cs !! k with
  | Some (mkCall typingId sig AwaitFetch) =>
      let* r := with_abort (mkCall typingId sig AwaitFetch) r in
      match r with
      | Rejected e =>
          modify (λ s, set_calls (delete k (calls s)) s) ;;
          sendMessage_catch typingId e
      | Fulfilled status =>
          if ok status then
            modify (λ s, set_calls (<[k := mkCall typingId sig AwaitBody]> (calls s)) s)
          else
            modify (λ s, set_calls (delete k (calls s)) s) ;;
            sendMessage_catch typingId (Error ("API failed: " +:+ show_Z status))
      end
  | _ => ret tt
  end.

(** From [await res.json()] to the end; [r] is the parsed body, or the
    reason of the rejection. *)
Definition sendMessage_parsed (k : nat) (r : Settled json) : M unit :=
  let* cs := get calls in
  match cs !! k with
  | Some (mkCall typingId sig AwaitBody) =>
      modify (λ s, set_calls (delete k (calls s)) s) ;;
      let* r := with_abort (mkCall typingId sig AwaitBody) r in
      match r with
      | Rejected e => sendMessage_catch typingId e
      | Fulfilled data =>
          try_catch
            (match response_text data with
             | None => throw TypeError
             | Some responseText =>
                 removeTypingIndicator typingId ;;
                 let* ts := toISOString in
                 addMessage (mkMessage "ai" responseText FileAbsent ts)
             end)
            (sendMessage_catch typingId)
      end
  | _ => ret tt
  end.

Definition handleFileUpload (f : option File) : M unit :=
  match f with
  | None => ret tt
  | Some f => modify (set_currentFile (Some f)) ;; modify (set_uploadActive true)
  end.

Definition stopRecording : M unit := modify (set_isRecording false).

Definition resetInput : M unit :=
  let* recording := get isRecording in
  (if recording then stopRecording else ret tt) ;;
  modify (set_promptInput "") ;;
  modify (set_currentFile None) ;;
  modify (set_uploadActive false) ;;
  renewAbortController.

Definition startNewChat : M unit :=
  let* t := Date_now in
  let id := "chat-" +:+ show_Z t in
  modify (set_currentChatId id) ;;
  let* c := toISOString in
  let* u := toISOString in
  let* ts := toISOString in
  modify (λ s, set_chats (<[id := mkChat id c u [greeting ts]]> (chats s)) s) ;;
  saveAllChats ;;
  renderChat id ;;
  resetInput.

(** *** The page as a transition system *)

Inductive Event : Type :=
  | Typed (value : string)
  | FileChosen (f : option File)
  | Recording (on : bool)
  | Submit
  | NewChat
  | FetchSettled (k : nat) (r : Settled Z)
  | BodySettled (k : nat) (r : Settled json).

Definition handler (e : Event) : M unit :=
  match e with
  | Typed value => modify (set_promptInput value)
  | FileChosen f => handleFileUpload f
  | Recording on => modify (set_isRecording on)
  | Submit => sendMessage
  | NewChat => startNewChat
  | FetchSettled k r => sendMessage_fetched k r
  | BodySettled k r => sendMessage_parsed k r
  end.

(** An exception that leaves a handler is reported and the page goes on. *)
Definition step (s : State) (e : Event) : State :=
  match handler e s with
  | Ok _ s' => s'
  | Threw err s' => set_uncaught (uncaught s' ++ [err]) s'
  end.

Definition run (s : State) (es : list Event) : State := foldl step s es.

(** *** Start-up: the body of the [DOMContentLoaded] listener *)

Inductive Boot : Type :=
  | Booted (s : State)
  | BootThrew (e : exn) (s : State)
  | BootBeyond.

Definition initial (ls : gmap string string) (clk : Browser) : State :=
  {| localStorage := ls; currentChatId := ""; chats := ∅; abortController := 0;
     currentFile := None; isRecording := false; promptInput := ""; uploadActive := false;
     chatContainer := []; aborted := ∅; console := []; requests := []; calls := ∅;
     nextCall := 0; clock := readings clk; reads := 0; uncaught := [];
     markup := parser clk |}.

(** Names that every object inherits: [chats[id]] for such an [id] is not a
    conversation even when [chats] has no property of that name. *)
Definition inherited_names : list string :=
  ["__proto__"; "constructor"; "hasOwnProperty"; "isPrototypeOf";
   "propertyIsEnumerable"; "toLocaleString"; "toString"; "valueOf";
   "__defineGetter__"; "__defineSetter__"; "__lookupGetter__"; "__lookupSetter__"].

Definition DOMContentLoaded (ls : gmap string string) (clk : Browser) : Boot :=
  match getCurrentChatId (initial ls clk) with
  | Threw e s => BootThrew e s
  | Ok id s =>
      let s := set_currentChatId id s in
      match loadAllChats (localStorage s) with
      | PSyntax => BootThrew SyntaxError s
      | PBeyond => BootBeyond
      | POk j =>
          match chats_of_json j with
          | None => BootBeyond
          | Some cs =>
              if bool_decide (id ∈ inherited_names) && bool_decide (cs !! id = None)
              then BootBeyond
              else
                match initializeChat (set_chats cs s) with
                | Ok _ s' => Booted s'
                | Threw e s' => BootThrew e s'
                end
          end
      end
  end.

(** ** Auxiliary definitions

    Measures, texts and predicates that the statements and proofs below use. *)

Definition size_elems (size : json → nat) (l : list json) : nat :=
  foldr (λ x acc, S (size x + acc)%nat) O l.

Definition size_members (size : json → nat) (l : list (string * json)) : nat :=
  foldr (λ kv acc, S (size kv.2 + acc)%nat) O l.

(** Fuel that [parse_value] needs to read back the text of a value. *)
Fixpoint json_size (v : json) : nat :=
  match v with
  | JArr l => S ((fix go (l : list json) : nat :=
                    match l with [] => O | x :: r => S (json_size x + go r) end) l)
  | JObj l => S ((fix go (l : list (string * json)) : nat :=
                    match l with [] => O | kv :: r => S (json_size kv.2 + go r) end) l)
  | _ => 1
  end.

Fixpoint elems_text (l : list json) : string :=
  match l with
  | [] => ""
  | [x] => stringify x
  | x :: r => stringify x +:+ "," +:+ elems_text r
  end.

Fixpoint members_text (l : list (string * json)) : string :=
  match l with
  | [] => ""
  | [kv] => quote kv.1 +:+ ":" +:+ stringify kv.2
  | kv :: r => quote kv.1 +:+ ":" +:+ stringify kv.2 +:+ "," +:+ members_text r
  end.

Definition delim (rest : string) : bool :=
  match rest with
  | EmptyString => true
  | String c _ => Ascii.eqb c "," || Ascii.eqb c "]" || Ascii.eqb c "}"
  end.

Definition value_start (c : ascii) : bool :=
  Ascii.eqb c "{" || Ascii.eqb c "[" || Ascii.eqb c "034" || Ascii.eqb c "t" ||
  Ascii.eqb c "f" || Ascii.eqb c "n" || Ascii.eqb c "-" ||
  match digit_of_char c with Some _ => true | None => false end.

Definition num_start (c : ascii) : bool :=
  Ascii.eqb c "-" || match digit_of_char c with Some _ => true | None => false end.

(** What the induction proves of a value: with enough fuel its text, followed
    by the end of the input or by a delimiter, reads back as the value. *)
Definition reads_back (v : json) : Prop :=
  ∀ n rest, (json_size v ≤ n)%nat → delim rest = true →
    parse_value n (stringify v +:+ rest) = POk (v, rest).

Definition chars (s : string) : list ascii := list_ascii_of_string s.

(** Empty or made of white space only. *)
Definition blank (s : string) : Prop := Forall (λ c, is_js_space c = true) (chars s).

(** [renderMessage] accepts a message whose text is a string or is falsy. *)
Definition renderable (m : Message) : bool :=
  negb (truthy (text m) && negb (is_string (text m))).

Definition apology (ts : string) : Message :=
  mkMessage "ai" (VJson (JStr apology_text)) FileAbsent ts.

(** The state [saveAllChats] leaves. *)
Definition saved (s : State) : State :=
  set_localStorage
    (<["currentChatId" := currentChatId s]>
       (<["pdb-ai-chats" := stringify (chats_json (map_to_list (chats s)))]> (localStorage s)))
    s.

(** The conversation [c] after [addMessage msg] at the clock reading [u]. *)
Definition extended (c : Chat) (u : string) (msg : Message) : Chat :=
  mkChat (chat_id c) (createdAt c) u (messages c ++ [msg]).

(** The state in which [addMessage msg] calls [renderMessage], when the
    current conversation is [c]. *)
Definition stored (msg : Message) (c : Chat) (s : State) : State :=
  saved (set_chats (<[currentChatId s := extended c (iso (clock s (reads s))) msg]> (chats s))
           (set_reads (S (reads s)) s)).

(** The state [addMessage msg] leaves when [msg] is renderable. *)
Definition pushed (msg : Message) (c : Chat) (s : State) : State :=
  let s' := stored msg c s in
  set_chatContainer (chatContainer s' ++ [NMessage msg]) s'.

(** The state the [catch] clause of [sendMessage] leaves. *)
Definition caught (typingId : string) (err : exn) (c : Chat) (s : State) : State :=
  pushed (apology (iso (clock s (reads s)))) c
    (set_reads (S (reads s))
       (set_console (console s ++ [err])
          (set_chatContainer (remove_typing (markup s) typingId (chatContainer s)) s))).

(** The message of the user that [sendMessage] builds in the state [s]. *)
Definition userMsg_of (s : State) : Message :=
  mkMessage "user" (VJson (JStr (trim (promptInput s))))
            (match currentFile s with Some f => FileDesc f | None => FileNull end)
            (iso (clock s (reads s))).

(** The state [sendMessage] leaves at [await fetch(...)], when the validation
    gate lets the submit through and the current conversation is [c]. *)
Definition submitted (c : Chat) (s : State) : State :=
  let s1 := set_reads (S (reads s))
              (set_abortController (S (abortController s))
                 (set_aborted ({[abortController s]} ∪ aborted s) s)) in
  let s2 := set_uploadActive false
              (set_currentFile None (set_promptInput "" (pushed (userMsg_of s) c s1))) in
  let typingId := "typing-" +:+ show_Z (ms (clock s2 (reads s2))) in
  let s3 := set_chatContainer (chatContainer s2 ++ [NTyping typingId])
              (set_reads (S (reads s2)) s2) in
  set_nextCall (S (nextCall s3))
    (set_calls (<[nextCall s3 := mkCall typingId (abortController s3) AwaitFetch]> (calls s3))
       (set_requests
          (requests s3
           ++ [mkRequest (stringify (request_json (buildPrompt (messages c ++ [userMsg_of s]))))
                         (abortController s3)])
          s3)).

(** The event [e] settles the promise that the call [k] awaits in the
    phase [ph]. *)
Definition settles (k : nat) (ph : Phase) (e : Event) : Prop :=
  match ph, e with
  | AwaitFetch, FetchSettled k' _ => k' = k
  | AwaitBody, BodySettled k' _ => k' = k
  | _, _ => False
  end.

(** The failure of the network call that the event reports, if any: the
    reason of a rejection (a transport error), or a status outside 200..299
    with the error [getAIResponse] throws for it. *)
Definition network_failure (e : Event) : option exn :=
  match e with
  | FetchSettled _ (Rejected x) => Some x
  | FetchSettled _ (Fulfilled status) =>
      if ok status then None else Some (Error ("API failed: " +:+ show_Z status))
  | BodySettled _ (Rejected x) => Some x
  | _ => None
  end.

(** The error the [catch] clause receives for a failure [x] of a call whose
    signal belongs to the controller [sig]. *)
Definition seen_error (s : State) (sig : nat) (x : exn) : exn :=
  if bool_decide (sig ∈ aborted s) then AbortError else x.

(** What the user can see of a state: the conversations, the page and what
    is stored. *)
Definition visible (s : State) : gmap string Chat * list Node * gmap string string :=
  (chats s, chatContainer s, localStorage s).

(** [s'] is [s] with exactly the message [m] appended to the current
    conversation, every other conversation being as it was. *)
Definition appends (s s' : State) (m : Message) : Prop :=
  currentChatId s' = currentChatId s ∧
  ∃ c u, chats s !! currentChatId s = Some c ∧
         chats s' = <[currentChatId s := extended c u m]> (chats s).

(** The prompt as the specification words it: one line [sender: text] per
    message, in order, a newline between two lines. *)
Definition prompt_line (m : Message) : string :=
  sender m +:+ ": " +:+ to_string (text m).

Fixpoint spec_prompt (msgs : list Message) : string :=
  match msgs with
  | [] => ""
  | [m] => prompt_line m
  | m :: r => prompt_line m +:+ String "010" (spec_prompt r)
  end.

(** The object that holds the reply, as the specification locates it in the
    body of the response: the first element of [parts], in [content], in the
    first element of [candidates]. *)
Definition reply_holder (data : json) : option (list (string * json)) :=
  match data with
  | JObj o =>
      match assoc "candidates" o with
      | VJson (JArr (JObj c0 :: _)) =>
          match assoc "content" c0 with
          | VJson (JObj ct) =>
              match assoc "parts" ct with
              | VJson (JArr (JObj p0 :: _)) => Some p0
              | _ => None
              end
          | _ => None
          end
      | _ => None
      end
  | _ => None
  end.

(** The reply at the path [candidates[0].content.parts[0].text], if the body
    has that path. *)
Definition body_text (data : json) : option json :=
  match reply_holder data with
  | Some p0 => match assoc "text" p0 with VJson t => Some t | VUndefined => None end
  | None => None
  end.

(** The state a computation ends in, whether it returns or throws. *)
Definition final {A} (r : Result A) : State :=
  match r with
  | Ok _ s => s
  | Threw _ s => s
  end.

(** The state [startNewChat] leaves. *)
Definition restarted (s : State) : State :=
  let id := "chat-" +:+ show_Z (ms (clock s (reads s))) in
  let c := mkChat id (iso (clock s (S (reads s)))) (iso (clock s (S (S (reads s)))))
                  [greeting (iso (clock s (S (S (S (reads s))))))] in
  let s1 := saved (set_chats (<[id := c]> (chats s))
                     (set_currentChatId id (set_reads (S (S (S (S (reads s))))) s))) in
  let s2 := set_chatContainer [NMessage (greeting (iso (clock s (S (S (S (reads s)))))))] s1 in
  set_abortController (S (abortController s))
    (set_aborted ({[abortController s]} ∪ aborted s)
       (set_uploadActive false
          (set_currentFile None (set_promptInput "" (set_isRecording false s2))))).

(** In every conversation of [s'] the messages of [s] are still there, in
    their places, possibly followed by new ones. *)
Definition extends (s s' : State) : Prop :=
  ∀ id c, chats s !! id = Some c →
    ∃ c', chats s' !! id = Some c' ∧ messages c `prefix_of` messages c'.

(** [R], relating the state before to the state after, holds across the
    computation [m] wherever it is run. *)
Definition keeps (R : State → State → Prop) {A} (m : M A) : Prop :=
  ∀ s, R s (final (m s)).

(** The current id names a conversation. *)
Definition has_current (s : State) : Prop := is_Some (chats s !! currentChatId s).

(** Every conversation has a message. *)
Definition never_empty (s : State) : Prop :=
  ∀ id c, chats s !! id = Some c → messages c ≠ [].

(** The values of the model inside a conversation mapping: the file sizes
    are numbers of the model and the texts are values JSON can carry. *)
Definition message_wf (m : Message) : Prop :=
  match text m with VUndefined => True | VJson j => json_wf j end ∧
  match file m with
  | FileDesc f => - safe_integer ≤ file_size f ≤ safe_integer
  | _ => True
  end.

Definition chat_wf (c : Chat) : Prop := Forall message_wf (messages c).

Definition chats_wf (cs : gmap string Chat) : Prop :=
  ∀ id c, cs !! id = Some c → chat_wf c.

(** *** Scenarios *)

(** A JSON text written with an apostrophe wherever the text has a double
    quote. *)
Fixpoint json_text (s : string) : string :=
  match s with
  | EmptyString => ""
  | String c r => String (if Ascii.eqb c "'" then "034"%char else c) (json_text r)
  end.

(** Readings one millisecond apart, from 2023-11-14T22:13:20.000Z on. *)
Definition ticks (n : nat) : Tick :=
  let k := (N.of_nat n mod 1000)%N in
  mkTick (1700000000000 + Z.of_nat n)
         ("2023-11-14T22:13:20."
          +:+ (if (k <? 10)%N then "00" else if (k <? 100)%N then "0" else "")
          +:+ show_N k +:+ "Z").

(** A browser whose clock gives readings one millisecond apart and in which
    no message holds an element with an id. *)
Definition ticking : Browser := mkBrowser ticks (λ _, []).

(** A browser whose clock gives every reading within one millisecond. *)
Definition frozen : Browser :=
  mkBrowser (λ _, mkTick 1700000000000 "2023-11-14T22:13:20.000Z") (λ _, []).

(** A text that is markup: an element whose id is the id that the typing
    indicator of the first question after the first launch gets. *)
Definition injected_text : string := "<i id=typing-1700000000006></i>".

(** What the HTML parser finds in a message whose text is [injected_text];
    the other texts of the scenarios hold no markup. *)
Definition injected_parser (m : Message) : list Element :=
  match text m with
  | VJson (JStr t) =>
      if String.eqb t injected_text then [El "typing-1700000000006" []] else []
  | _ => []
  end.

(** The browser [ticking] with that parser. *)
Definition injecting : Browser := mkBrowser ticks injected_parser.

Definition state_of (b : Boot) : State :=
  match b with
  | Booted s => s
  | BootThrew _ s => s
  | BootBeyond => initial ∅ frozen
  end.

(** First launch: nothing is stored. *)
Definition first_launch : State := state_of (DOMContentLoaded ∅ ticking).

(** The user has typed a question and submitted it; the request is pending. *)
Definition asked : State := run first_launch [Typed "What is 2+2?"; Submit].

(** The response has arrived with status 200; its body is awaited. *)
Definition responded : State := step asked (FetchSettled 0 (Fulfilled 200)).

(** A second question typed while the first request is still pending. *)
Definition typed_again : State := step asked (Typed "And 3+3?").

(** The second question submitted. *)
Definition asked_twice : State := step typed_again Submit.

Definition current_messages (s : State) : list Message :=
  match chats s !! currentChatId s with
  | Some c => messages c
  | None => []
  end.

Definition current_chat (s : State) : Chat :=
  default (mkChat "" "" "" []) (chats s !! currentChatId s).

(** The user has typed but not yet submitted. *)
Definition typed : State := step first_launch (Typed "What is 2+2?").

(** Only white space has been typed. *)
Definition typed_blank : State := step first_launch (Typed "   ").


(** The first question after the first launch is [injected_text]; its
    request is pending. *)
Definition asked_markup : State :=
  run (state_of (DOMContentLoaded ∅ injecting)) [Typed injected_text; Submit].

(** A stored text cut short, as a write interrupted half-way leaves it. *)
Definition truncated_store : gmap string string :=
  {[ "pdb-ai-chats" := json_text "{'chat-1700000000000':{'id':'chat-1700000000000','crea" ]}.

(** A body that has [candidates[0].content.parts[0]] but no [text] in it. *)
Definition bare_body : json :=
  JObj [("candidates", JArr [JObj [("content", JObj [("parts", JArr [JObj []])])]])].


(** ** The handlers in closed form

    The state each handler leaves, written out, for a state whose current
    conversation is [c]. *)

(** The state the [try] block of [sendMessage] leaves once the body gave the
    reply text [v]: the reply is appended; when [renderMessage] throws on it,
    the [catch] clause runs on the conversation that already holds it. *)
Definition replied (typingId : string) (v : jsval) (c : Chat) (s : State) : State :=
  let msg := mkMessage "ai" v FileAbsent (iso (clock s (reads s))) in
  let s1 := set_reads (S (reads s))
              (set_chatContainer (remove_typing (markup s) typingId (chatContainer s)) s) in
  if renderable msg then pushed msg c s1
  else caught typingId TypeError (extended c (iso (clock s1 (reads s1))) msg) (stored msg c s1).

Definition next (c : Chat) (s : State) (e : Event) : State :=
  match e with
  | Typed value => set_promptInput value s
  | FileChosen None => s
  | FileChosen (Some f) => set_uploadActive true (set_currentFile (Some f) s)
  | Recording on => set_isRecording on s
  | Submit =>
      if String.eqb (trim (promptInput s)) "" && negb (bool_decide (is_Some (currentFile s)))
      then s else submitted c s
  | NewChat => restarted s
  | FetchSettled k r =>
      match calls s !! k with
      | Some (mkCall typingId sig AwaitFetch) =>
          let s0 := set_calls (delete k (calls s)) s in
          if bool_decide (sig ∈ aborted s) then caught typingId AbortError c s0
          else
            match r with
            | Rejected x => caught typingId x c s0
            | Fulfilled status =>
                if ok status
                then set_calls (<[k := mkCall typingId sig AwaitBody]> (calls s)) s
                else caught typingId (Error ("API failed: " +:+ show_Z status)) c s0
            end
      | _ => s
      end
  | BodySettled k r =>
      match calls s !! k with
      | Some (mkCall typingId sig AwaitBody) =>
          let s0 := set_calls (delete k (calls s)) s in
          if bool_decide (sig ∈ aborted s) then caught typingId AbortError c s0
          else
            match r with
            | Rejected x => caught typingId x c s0
            | Fulfilled data =>
                match response_text data with
                | None => caught typingId TypeError c s0
                | Some v => replied typingId v c s0
                end
            end
      | _ => s
      end
  end.

(** ** Invariants of the page *)

(** What is stored is what [saveAllChats] writes for the present
    conversations and the present current id. *)
Definition persisted (s : State) : Prop :=
  localStorage s !! "pdb-ai-chats" = Some (stringify (chats_json (map_to_list (chats s))))
  ∧ localStorage s !! "currentChatId" = Some (currentChatId s).

(** The ids of the typing indicators on the page, in their order. *)
Definition indicators (l : list Node) : list string :=
  omap (λ n, match n with NTyping id => Some id | _ => None end) l.

(** The messages on the page, in their order, whether or not elements have
    been removed from their markup. *)
Definition shown_messages (l : list Node) : list Message :=
  omap (λ n, match n with
             | NMessage m => Some m
             | NAltered m _ => Some m
             | NTyping _ => None
             end) l.

(** The ids of the typing indicators of the calls that are pending. *)
Definition awaited (cs : gmap nat Call) : list string :=
  (λ kc, typingId kc.2) <$> map_to_list cs.

(** The call [k] is pending and its signal has not been aborted. *)
Definition live (s : State) (k : nat) : Prop :=
  ∃ c, calls s !! k = Some c ∧ call_signal c ∉ aborted s.

(** The messages [renderChat] puts on the page before [renderMessage]
    throws, if it does. *)
Fixpoint rendered (l : list Message) : list Message :=
  match l with
  | [] => []
  | m :: r => if renderable m then m :: rendered r else []
  end.

(** The ids of an element and of the elements inside it, in document
    order. *)
Fixpoint ids_inside (e : Element) : list string :=
  match e with
  | El i kids => i :: flat_map ids_inside kids
  end.

Definition ids_of (els : list Element) : list string := flat_map ids_inside els.

(** The ids that a node of the page and the elements inside it carry. *)
Definition node_ids (els : Message → list Element) (n : Node) : list string :=
  match n with
  | NTyping id => [id]
  | NMessage m => ids_of (els m)
  | NAltered _ left_in => ids_of left_in
  end.

(** No element of the nodes [l] carries the id [id]. *)
Definition free_of (els : Message → list Element) (id : string) (l : list Node) : Prop :=
  Forall (λ n, id ∉ node_ids els n) l.

(** No element has been removed from the markup of a message. *)
Definition unaltered (l : list Node) : Prop :=
  Forall (λ n, match n with NAltered _ _ => False | _ => True end) l.

(** No message holds an element whose id has the form of the id of a
    typing indicator. *)
Definition no_indicator_ids (els : Message → list Element) : Prop :=
  ∀ m id, id ∈ ids_of (els m) → String.prefix "typing-" id = false.

Record coherent (s : State) : Prop := {
  coherent_current : has_current s;
  coherent_fresh : ∀ k, (nextCall s ≤ k)%nat → calls s !! k = None;
  coherent_aborted : ∀ n, n ∈ aborted s ↔ (n < abortController s)%nat;
  coherent_signals : ∀ k c, calls s !! k = Some c → (call_signal c ≤ abortController s)%nat;
  coherent_latest : ∀ k k' c c',
    calls s !! k = Some c → calls s !! k' = Some c' →
    call_signal c = abortController s → call_signal c' = abortController s → k = k';
  coherent_indicators :
    (∀ k c, calls s !! k = Some c → String.prefix "typing-" (typingId c) = true)
    ∧ (no_indicator_ids (markup s) →
       unaltered (chatContainer s) ∧ indicators (chatContainer s) ⊆+ awaited (calls s));
  coherent_page :
    shown_messages (chatContainer s)
    = filter (λ m, renderable m = true) (current_messages s)
}.

(** No call has been issued and no controller has been aborted. *)
Definition idle (s : State) : Prop :=
  calls s = ∅ ∧ nextCall s = 0%nat ∧ aborted s = ∅ ∧ abortController s = 0%nat.

(** The state [initializeChat] leaves when the current id names no
    conversation. *)
Definition created (s : State) : State :=
  let g := greeting (iso (clock s (S (S (reads s))))) in
  let c := mkChat (currentChatId s) (iso (clock s (reads s))) (iso (clock s (S (reads s)))) [g] in
  set_chatContainer [NMessage g]
    (saved (set_chats (<[currentChatId s := c]> (chats s))
              (set_reads (S (S (S (reads s)))) s))).

(** The state in which [renderChat] ends on the messages [msgs]. *)
Definition opened (msgs : list Message) (s : State) : State :=
  set_chatContainer (NMessage <$> rendered msgs) s.

(** *** More scenarios *)

(** The body of a response whose reply is [t]. *)
Definition body_with (t : json) : json :=
  JObj [("candidates", JArr [JObj [("content", JObj [("parts", JArr [JObj [("text", t)]])])]])].

(** The first question has been answered. *)
Definition answered : State := step responded (BodySettled 0 (Fulfilled (body_with (JStr "4")))).


(** The first request has failed with the status 500. *)
Definition failed : State := step asked (FetchSettled 0 (Fulfilled 500)).

Definition is_submit (e : Event) : bool :=
  match e with Submit => true | _ => false end.

(** ** Formatting the text of a message

    [formatText] applies [String.prototype.replace] four times with a global
    regular expression.  The first three expressions have the shape of an
    opening literal, a lazy group and a closing literal. *)

(** What [.] does not match, among the code units of the model. *)
Definition is_line_terminator (c : ascii) : bool :=
  Ascii.eqb c "010" || Ascii.eqb c "013".

Fixpoint skip_chars (n : nat) (s : string) : string :=
  match n, s with
  | S n', String _ r => skip_chars n' r
  | _, _ => s
  end.

(** The lazy group followed by the literal [closing], matched at the start
    of [s]: the group takes one more character at a time ([any] character for
    [[\s\S]], a character other than a line terminator for [.]) until
    [closing] follows.  The result is what the group captures; [None] when
    there is no match. *)
Fixpoint lazy_until (any : bool) (closing : string) (s : string) {struct s} : option string :=
  if String.prefix closing s then Some ""
  else
    match s with
    | EmptyString => None
    | String c r =>
        if any || negb (is_line_terminator c)
        then String c <$> lazy_until any closing r
        else None
    end.

(** [s.replace(/opening(group)closing/g, before + '$1' + after)]: a match is
    tried at every position from the end of the last match on; [skip] counts
    the characters of [s] that still belong to the last match. *)
Fixpoint replace_spans (any : bool) (opening closing before after : string)
    (skip : nat) (s : string) : string :=
  match s with
  | EmptyString => ""
  | String c r =>
      match skip with
      | S n => replace_spans any opening closing before after n r
      | O =>
          if String.prefix opening s then
            match lazy_until any closing (skip_chars (String.length opening) s) with
            | Some captured =>
                before +:+ captured +:+ after
                +:+ replace_spans any opening closing before after
                      (String.length opening + String.length captured
                       + String.length closing - 1) r
            | None => String c (replace_spans any opening closing before after 0 r)
            end
          else String c (replace_spans any opening closing before after 0 r)
      end
  end.

(** [s.replace(/\n/g, '<br>')]. *)
Fixpoint replace_line_feeds (s : string) : string :=
  match s with
  | EmptyString => ""
  | String c r =>
      if Ascii.eqb c "010" then "<br>" +:+ replace_line_feeds r
      else String c (replace_line_feeds r)
  end.

Definition double_quote : string := String "034" "".

Definition code_block_start : string :=
  "<div class=" +:+ double_quote +:+ "code-block" +:+ double_quote +:+ ">".

Definition code_block_end : string :=
  "<button class=" +:+ double_quote +:+ "copy-btn" +:+ double_quote +:+ ">Copy</button></div>".

Definition formatText (text : string) : string :=
  replace_line_feeds
    (replace_spans true "```" "```" code_block_start code_block_end 0
       (replace_spans false "*" "*" "<em>" "</em>" 0
          (replace_spans false "**" "**" "<strong>" "</strong>" 0 text))).

(** No asterisk, no backtick and no line feed. *)
Definition plain (s : string) : Prop :=
  Forall (λ c, c ≠ "*"%char ∧ c ≠ "`"%char ∧ c ≠ "010"%char) (chars s).

(** ** Copying a code block *)

(** [s.replace(pattern, replacement)] for a pattern that is a string, not
    empty, and a replacement without [$]: the first occurrence is replaced. *)
Fixpoint replace_first (pattern replacement s : string) {struct s} : string :=
  if String.prefix pattern s then replacement +:+ skip_chars (String.length pattern) s
  else
    match s with
    | EmptyString => ""
    | String c r => String c (replace_first pattern replacement r)
    end.

(** What [handleCopyClick] writes to the clipboard, from the text content of
    the code block that holds the button. *)
Definition copied_text (textContent : string) : string :=
  trim (replace_first "Copy" "" textContent).

(** ** Values within the ranges of the model *)

(** The sizes of the files and the bodies of the responses that the
    environment supplies are values of the model. *)
Definition event_wf (e : Event) : Prop :=
  match e with
  | FileChosen (Some f) => - safe_integer ≤ file_size f ≤ safe_integer
  | BodySettled _ (Fulfilled data) => json_wf data
  | _ => True
  end.

Definition storable (s : State) : Prop :=
  chats_wf (chats s) ∧ currentChatId s ≠ ""
  ∧ match currentFile s with
    | Some f => - safe_integer ≤ file_size f ≤ safe_integer
    | None => True
    end.

Definition value_wf (v : jsval) : Prop :=
  match v with VUndefined => True | VJson j => json_wf j end.

(** ** The words of the specification *)

(** [undefined] or [null]: the values a property of which cannot be read. *)
Definition nullish (v : jsval) : Prop := v = VUndefined ∨ v = VJson JNull.

Definition is_nullish (v : jsval) : bool :=
  match v with
  | VUndefined | VJson JNull => true
  | _ => false
  end.

(** The value of [v.name] for a value that is neither [undefined] nor
    [null] and a name that no prototype has: the property of that name when
    [v] is an object that has it, [undefined] otherwise. *)
Definition property (v : jsval) (name : string) : jsval :=
  match v with
  | VJson (JObj l) => assoc name l
  | _ => VUndefined
  end.

(** The value of [v[0]] for a value that is neither [undefined] nor [null]:
    the first element of an array, the first character of a string, the
    property [0] of an object, [undefined] otherwise. *)
Definition first_item (v : jsval) : jsval :=
  match v with
  | VJson (JArr (x :: _)) => VJson x
  | VJson (JStr (String c _)) => VJson (JStr (String c ""))
  | VJson (JObj l) => assoc "0" l
  | _ => VUndefined
  end.

(** The values of which [data.candidates[0].content.parts[0].text] reads a
    property, in the order of the reads: [data], [candidates],
    [candidates[0]], [content], [parts] and [parts[0]]. *)
Definition values_read (data : json) : list jsval :=
  let v0 := VJson data in
  let v1 := property v0 "candidates" in
  let v2 := first_item v1 in
  let v3 := property v2 "content" in
  let v4 := property v3 "parts" in
  let v5 := first_item v4 in
  [v0; v1; v2; v3; v4; v5].

(** The value of the whole expression when no read throws. *)
Definition value_at_path (data : json) : jsval :=
  property (first_item (property (property (first_item
    (property (VJson data) "candidates")) "content") "parts")) "text".

(** What is stored is the text of the present conversations, written in
    some order, and the present current id. *)
Definition stored_in_step (s : State) : Prop :=
  (∃ l : list (string * Chat),
     NoDup (l.*1) ∧ list_to_map l = chats s
     ∧ localStorage s !! "pdb-ai-chats" = Some (stringify (chats_json l)))
  ∧ localStorage s !! "currentChatId" = Some (currentChatId s).

(** * Properties

    ** Strings and JSON texts *)

Lemma append_cons (c : ascii) (s t : string) : String c s +:+ t = String c (s +:+ t).
Proof. reflexivity. Qed.

Lemma append_nil_l (t : string) : "" +:+ t = t.
Proof. reflexivity. Qed.

Lemma append_nil_r (s : string) : s +:+ "" = s.
Proof. induction s as [|c s IH]; [done|]. by rewrite append_cons, IH. Qed.

Lemma append_assoc (s t u : string) : (s +:+ t) +:+ u = s +:+ (t +:+ u).
Proof. induction s as [|c s IH]; [done|]. by rewrite !append_cons, IH. Qed.

Lemma length_append (s t : string) :
  String.length (s +:+ t) = (String.length s + String.length t)%nat.
Proof. induction s as [|c s IH]; [done|]. rewrite append_cons. simpl. by rewrite IH. Qed.

(** Induction with the hypothesis available on every element of an array and
    on every property value of an object. *)
Lemma json_ind' (P : json → Prop)
  (Hnull : P JNull) (Hbool : ∀ b, P (JBool b)) (Hnum : ∀ z, P (JNum z))
  (Hstr : ∀ s, P (JStr s))
  (Harr : ∀ l, Forall P l → P (JArr l))
  (Hobj : ∀ l, Forall (λ kv, P kv.2) l → P (JObj l)) :
  ∀ v, P v.
Proof.
  fix go 1. intros [| b | z | s | l | l].
  - exact Hnull.
  - apply Hbool.
  - apply Hnum.
  - apply Hstr.
  - apply Harr. induction l as [|x l IH]; constructor; [apply go | exact IH].
  - apply Hobj. induction l as [|[k x] l IH]; constructor; [apply go | exact IH].
Qed.

Ltac ascii_cases c := destruct c as [[] [] [] [] [] [] [] []].

(** Push every append to the right, exposing the first characters of a text. *)
Ltac norm_append :=
  repeat (rewrite append_assoc || rewrite append_cons || rewrite append_nil_l).

Lemma stringify_arr l : stringify (JArr l) = "[" +:+ elems_text l +:+ "]".
Proof. reflexivity. Qed.

Lemma stringify_obj l : stringify (JObj l) = "{" +:+ members_text l +:+ "}".
Proof. reflexivity. Qed.

Lemma size_arr l : json_size (JArr l) = S (size_elems json_size l).
Proof. reflexivity. Qed.

Lemma size_obj l : json_size (JObj l) = S (size_members json_size l).
Proof. reflexivity. Qed.

Lemma json_wf_arr l : json_wf (JArr l) ↔ Forall json_wf l.
Proof.
  simpl. induction l as [|x r IH]; [by split; constructor|].
  rewrite Forall_cons, <- IH. done.
Qed.

Lemma json_wf_obj l : json_wf (JObj l) ↔ NoDup (l.*1) ∧ Forall (λ kv, json_wf kv.2) l.
Proof.
  simpl. apply and_iff_compat_l.
  induction l as [|x r IH]; [by split; constructor|].
  rewrite Forall_cons, <- IH. done.
Qed.

(** *** String literals *)

Lemma parse_chars_quote_char c t :
  parse_chars (quote_char c +:+ t) = pmap_fst (String c) (parse_chars t).
Proof. ascii_cases c; reflexivity. Qed.

Lemma parse_chars_quote s rest :
  parse_chars (quote_chars s +:+ String "034" rest) = POk (s, rest).
Proof.
  induction s as [|c s IH]; [done|].
  simpl. by rewrite append_assoc, parse_chars_quote_char, IH.
Qed.

(** *** Numbers *)

Lemma lex_digits_print d rest :
  match rest with String c _ => digit_of_char c = None | EmptyString => True end →
  lex_digits (NilEmpty.string_of_uint d +:+ rest) = (d, rest).
Proof.
  intros Hrest.
  induction d as [|d IH|d IH|d IH|d IH|d IH|d IH|d IH|d IH|d IH|d IH];
    try (simpl; by rewrite IH).
  simpl. rewrite append_nil_l. destruct rest as [|c r]; [done|].
  simpl. by rewrite Hrest.
Qed.

Lemma to_uint_pos_shape p :
  match Pos.to_uint p with Nil | D0 _ => False | _ => True end.
Proof.
  pose proof (DecimalPos.Unsigned.to_uint_nonnil p) as Hnil.
  pose proof (DecimalPos.Unsigned.to_uint_nonzero p) as Hzero.
  pose proof (DecimalN.Unsigned.to_of (Pos.to_uint p)) as Hnorm.
  change (N.of_uint (Pos.to_uint p)) with (Pos.of_uint (Pos.to_uint p)) in Hnorm.
  rewrite DecimalPos.Unsigned.of_to in Hnorm. simpl in Hnorm.
  destruct (Pos.to_uint p) as [|d| | | | | | | | |] eqn:E; try done.
  rewrite DecimalFacts.unorm_D0 in Hnorm.
  assert (Hd : d ≠ Nil) by (by intros ->).
  pose proof (DecimalFacts.nb_digits_unorm d Hd) as Hle.
  rewrite <- Hnorm in Hle. simpl in Hle. lia.
Qed.

Lemma delim_no_digit rest :
  delim rest = true →
  match rest with String c _ => digit_of_char c = None | EmptyString => True end.
Proof.
  destruct rest as [|c r]; [done|]. simpl. intros H.
  ascii_cases c; try discriminate H; reflexivity.
Qed.

Lemma delim_no_fraction rest : delim rest = true → starts_fraction rest = false.
Proof.
  destruct rest as [|c r]; [done|]. simpl. intros H.
  ascii_cases c; try discriminate H; reflexivity.
Qed.

Lemma take_sign_show_N (neg : bool) (n : N) t :
  take_sign ((if neg then "-" else "") +:+ show_N n +:+ t) = (neg, show_N n +:+ t).
Proof.
  destruct neg; [done|]. rewrite append_nil_l. unfold show_N.
  destruct n as [|p]; [done|]. simpl N.to_uint.
  pose proof (to_uint_pos_shape p) as Hshape.
  destruct (Pos.to_uint p); done.
Qed.

Lemma parse_number_show_N (neg : bool) (n : N) rest :
  (Z.of_N n ≤ safe_integer) → delim rest = true →
  (neg = true → n ≠ 0%N) →
  parse_number ((if neg then "-" else "") +:+ show_N n +:+ rest)
  = POk (JNum (if neg then - Z.of_N n else Z.of_N n), rest).
Proof.
  intros Hn Hrest Hneg. unfold parse_number.
  rewrite take_sign_show_N. unfold show_N.
  rewrite (lex_digits_print _ _ (delim_no_digit _ Hrest)).
  rewrite (delim_no_fraction _ Hrest).
  destruct n as [|p].
  - simpl. destruct neg; [by exfalso; apply Hneg|done].
  - simpl N.to_uint. pose proof (to_uint_pos_shape p) as Hshape.
    assert (Hof : N.of_uint (Pos.to_uint p) = N.pos p)
      by apply (DecimalN.Unsigned.of_to (N.pos p)).
    destruct (Pos.to_uint p) eqn:E; try done;
      rewrite Hof; (destruct (Z.leb_spec (Z.of_N (N.pos p)) safe_integer); [done|lia]).
Qed.

Lemma parse_number_show_Z z rest :
  - safe_integer ≤ z ≤ safe_integer → delim rest = true →
  parse_number (show_Z z +:+ rest) = POk (JNum z, rest).
Proof.
  intros Hz Hrest. unfold show_Z.
  destruct (Z.ltb_spec z 0) as [Hneg|Hpos].
  - pose proof (parse_number_show_N true (Z.abs_N z) rest) as H.
    rewrite N2Z.inj_abs_N, Z.abs_neq in H by lia.
    rewrite Z.opp_involutive in H. apply H; [lia|done|]. intros _. lia.
  - pose proof (parse_number_show_N false (Z.to_N z) rest) as H.
    rewrite Z2N.id in H by lia. rewrite append_nil_l in H. apply H; [lia|done|done].
Qed.

(** *** Values *)

Lemma show_N_head n : ∃ c s, show_N n = String c s ∧ is_Some (digit_of_char c).
Proof.
  unfold show_N. destruct n as [|p]; [by eexists _, _|].
  simpl N.to_uint. pose proof (to_uint_pos_shape p) as Hshape.
  destruct (Pos.to_uint p); try done; by eexists _, _.
Qed.

Lemma stringify_head v : ∃ c s, stringify v = String c s ∧ value_start c = true.
Proof.
  destruct v as [|[]|z|s|l|l]; try by eexists _, _.
  simpl. unfold show_Z. destruct (z <? 0); [by eexists _, _|].
  destruct (show_N_head (Z.to_N z)) as (c & s & -> & [d Hd]).
  exists c, s. split; [done|]. unfold value_start. rewrite Hd.
  by rewrite !orb_true_r.
Qed.

Lemma value_start_skip c t : value_start c = true → skip_ws (String c t) = String c t.
Proof. intros H. ascii_cases c; try discriminate H; reflexivity. Qed.

Lemma value_start_not_close c t q :
  value_start c = true → (q = "]" ∨ q = "}")%char → next_is q (String c t) = None.
Proof. intros H [-> | ->]; ascii_cases c; try discriminate H; reflexivity. Qed.

Lemma parse_value_number n c r :
  num_start c = true → parse_value (S n) (String c r) = parse_number (String c r).
Proof. intros H. ascii_cases c; try discriminate H; reflexivity. Qed.

Lemma show_Z_head z : ∃ c s, show_Z z = String c s ∧ num_start c = true.
Proof.
  unfold show_Z. destruct (z <? 0); [by eexists _, _|].
  destruct (show_N_head (Z.to_N z)) as (c & s & -> & [d Hd]).
  exists c, s. split; [done|]. unfold num_start. rewrite Hd. apply orb_true_r.
Qed.

Lemma parse_value_arr n t :
  parse_value (S n) (String "[" t) =
  match next_is "]" (skip_ws t) with
  | Some r' => POk (JArr [], r')
  | None => pmap_fst JArr (parse_elements n t)
  end.
Proof. reflexivity. Qed.

Lemma parse_value_obj n t :
  parse_value (S n) (String "{" t) =
  match next_is "}" (skip_ws t) with
  | Some r' => POk (JObj [], r')
  | None => pmap_fst (λ ps, JObj (obj_of_pairs ps)) (parse_members n t)
  end.
Proof. reflexivity. Qed.

Lemma parse_elements_S n s :
  parse_elements (S n) s =
  pbind (parse_value n s) (λ vr,
    let r := skip_ws vr.2 in
    match next_is "," r with
    | Some r' => pmap_fst (cons vr.1) (parse_elements n r')
    | None => match next_is "]" r with Some r' => POk ([vr.1], r') | None => PSyntax end
    end).
Proof. reflexivity. Qed.

Lemma parse_members_S n s :
  parse_members (S n) s =
  match next_is "034" (skip_ws s) with
  | None => PSyntax
  | Some r0 =>
      pbind (parse_chars r0) (λ kr,
        match next_is ":" (skip_ws kr.2) with
        | None => PSyntax
        | Some r1 =>
            pbind (parse_value n r1) (λ vr,
              let r := skip_ws vr.2 in
              match next_is "," r with
              | Some r' => pmap_fst (cons (kr.1, vr.1)) (parse_members n r')
              | None =>
                  match next_is "}" r with
                  | Some r' => POk ([(kr.1, vr.1)], r')
                  | None => PSyntax
                  end
              end)
        end)
  end.
Proof. reflexivity. Qed.

Lemma elems_text_head x r :
  ∃ c s, elems_text (x :: r) = String c s ∧ value_start c = true.
Proof.
  destruct (stringify_head x) as (c & s & E & Hc).
  destruct r as [|y r]; simpl; rewrite E; by eexists _, _.
Qed.

Lemma parse_elements_text l :
  Forall reads_back l → l ≠ [] →
  ∀ n rest, (size_elems json_size l ≤ n)%nat →
    parse_elements n (elems_text l +:+ String "]" rest) = POk (l, rest).
Proof.
  induction 1 as [|x l Hx Hl IH]; [done|]. intros _ n rest Hn.
  simpl in Hn. destruct n as [|n]; [lia|]. rewrite parse_elements_S.
  destruct l as [|y l].
  - simpl elems_text. rewrite (Hx n) by (done || lia). reflexivity.
  - change (elems_text (x :: y :: l)) with (stringify x +:+ "," +:+ elems_text (y :: l)).
    norm_append.
    rewrite (Hx n) by (done || lia). simpl.
    rewrite IH by (done || simpl in *; lia). reflexivity.
Qed.

Lemma obj_set_fresh l k v : k ∉ l.*1 → obj_set l k v = l ++ [(k, v)].
Proof.
  induction l as [|[k' v'] l IH]; [done|]. simpl. intros Hk.
  apply not_elem_of_cons in Hk as [Hne Hk].
  destruct (String.eqb_spec k' k) as [->|_]; [done|]. by rewrite IH.
Qed.

Lemma obj_of_pairs_nodup l : NoDup (l.*1) → obj_of_pairs l = l.
Proof.
  unfold obj_of_pairs. intros Hl.
  enough (H : ∀ acc, NoDup ((acc ++ l).*1) →
            foldl (λ acc kv, obj_set acc kv.1 kv.2) acc l = acc ++ l) by by apply (H []).
  clear Hl. induction l as [|[k v] l IH]; intros acc Hnd; simpl.
  - by rewrite app_nil_r.
  - rewrite obj_set_fresh.
    + rewrite IH; rewrite <- app_assoc; done.
    + rewrite fmap_app in Hnd. apply NoDup_app in Hnd as (_ & Hdisj & _).
      intros Hin. apply (Hdisj k Hin). simpl. left.
Qed.

Lemma members_text_head kv r : ∃ s, members_text (kv :: r) = String "034" s.
Proof. destruct r; by eexists. Qed.

Lemma parse_members_text l :
  Forall (λ kv, reads_back kv.2) l → l ≠ [] →
  ∀ n rest, (size_members json_size l ≤ n)%nat →
    parse_members n (members_text l +:+ String "}" rest) = POk (l, rest).
Proof.
  induction 1 as [|[k x] l Hx Hl IH]; [done|]. intros _ n rest Hn.
  simpl in Hn, Hx. destruct n as [|n]; [lia|]. rewrite parse_members_S.
  destruct l as [|y l].
  - simpl members_text. unfold quote.
    norm_append. simpl skip_ws. simpl next_is. cbv beta iota.
    rewrite parse_chars_quote. simpl.
    rewrite (Hx n) by (done || lia). reflexivity.
  - change (members_text ((k, x) :: y :: l))
      with (quote k +:+ ":" +:+ stringify x +:+ "," +:+ members_text (y :: l)).
    unfold quote.
    norm_append. simpl skip_ws. simpl next_is. cbv beta iota.
    rewrite parse_chars_quote. simpl.
    rewrite (Hx n) by (done || lia). simpl.
    rewrite IH by (done || simpl in *; lia). reflexivity.
Qed.

Lemma reads_back_wf v : json_wf v → reads_back v.
Proof.
  induction v as [|b|z|s|l IH|l IH] using json_ind'; intros Hwf n rest Hn Hrest;
    (destruct n as [|n]; [simpl in Hn; lia|]).
  - reflexivity.
  - destruct b; reflexivity.
  - simpl stringify. destruct (show_Z_head z) as (c & s & E & Hc).
    rewrite E, append_cons, (parse_value_number _ _ _ Hc), <- append_cons, <- E.
    by apply parse_number_show_Z.
  - simpl stringify. unfold quote. norm_append.
    change (parse_value (S n) ?t) with (pmap_fst JStr (parse_chars (quote_chars s +:+ String "034" rest))).
    by rewrite parse_chars_quote.
  - apply json_wf_arr in Hwf. rewrite size_arr in Hn.
    assert (Hall : Forall reads_back l).
    { clear Hn. induction IH as [|x l Hx _ IHl]; [constructor|].
      apply Forall_cons in Hwf as [??]. constructor; auto. }
    rewrite stringify_arr. norm_append. rewrite parse_value_arr.
    destruct l as [|x l]; [reflexivity|].
    destruct (elems_text_head x l) as (c & t & E & Hc). rewrite E.
    rewrite append_cons, (value_start_skip _ _ Hc), (value_start_not_close _ _ "]" Hc) by auto.
    rewrite <- append_cons, <- E.
    rewrite parse_elements_text by (done || lia). reflexivity.
  - apply json_wf_obj in Hwf as [Hnd Hwf]. rewrite size_obj in Hn.
    assert (Hall : Forall (λ kv, reads_back kv.2) l).
    { clear Hn Hnd. induction IH as [|x l Hx _ IHl]; [constructor|].
      apply Forall_cons in Hwf as [??]. constructor; auto. }
    rewrite stringify_obj. norm_append. rewrite parse_value_obj.
    destruct l as [|kv l]; [reflexivity|].
    destruct (members_text_head kv l) as (t & E). rewrite E.
    rewrite append_cons. simpl skip_ws. simpl next_is. cbv beta iota.
    rewrite <- append_cons, <- E.
    rewrite parse_members_text by (done || lia). simpl.
    by rewrite obj_of_pairs_nodup.
Qed.

Lemma show_Z_nonempty z : (1 ≤ String.length (show_Z z))%nat.
Proof. destruct (show_Z_head z) as (c & s & -> & _). simpl. lia. Qed.

Lemma size_le_length v : (json_size v ≤ String.length (stringify v))%nat.
Proof.
  induction v as [|b|z|s|l IH|l IH] using json_ind'.
  - simpl. lia.
  - destruct b; simpl; lia.
  - simpl. apply show_Z_nonempty.
  - simpl. lia.
  - rewrite size_arr, stringify_arr, !length_append. simpl String.length.
    enough (size_elems json_size l ≤ String.length (elems_text l) + 1)%nat by lia.
    induction IH as [|x l Hx Hl IHl]; [simpl; lia|].
    destruct l as [|y l]; [simpl in *; lia|].
    change (elems_text (x :: y :: l)) with (stringify x +:+ "," +:+ elems_text (y :: l)).
    rewrite !length_append. simpl in *. lia.
  - rewrite size_obj, stringify_obj, !length_append. simpl String.length.
    enough (size_members json_size l ≤ String.length (members_text l) + 1)%nat by lia.
    induction IH as [|[k x] l Hx Hl IHl]; [simpl; lia|].
    destruct l as [|y l].
    + simpl members_text. rewrite !length_append. simpl in *. lia.
    + change (members_text ((k, x) :: y :: l))
        with (quote k +:+ ":" +:+ stringify x +:+ "," +:+ members_text (y :: l)).
      rewrite !length_append. simpl in *. lia.
Qed.

(** [JSON.parse] undoes [JSON.stringify] on every value of the model. *)
Theorem parse_stringify v : json_wf v → parse (stringify v) = POk v.
Proof.
  intros Hwf. unfold parse.
  rewrite <- (append_nil_r (stringify v)) at 2.
  rewrite (reads_back_wf v Hwf) by (done || pose proof (size_le_length v); lia).
  reflexivity.
Qed.

Example parse_examples :
  parse "{" = PSyntax ∧ parse "" = PSyntax ∧ parse "nul" = PSyntax ∧
  parse " [1, -20,true , null ] " = POk (JArr [JNum 1; JNum (-20); JBool true; JNull]) ∧
  parse (json_text "{'a':{'b':[]},'a':'x\nyA'}")
    = POk (JObj [("a", JStr ("x" +:+ String "010" "yA"))]) ∧
  parse "[01]" = PSyntax ∧ parse "1.5" = PBeyond ∧ parse "[1,]" = PSyntax ∧
  stringify (JObj [("k", JArr [JStr (json_text "a'b"); JNum (-7); JBool false]); ("", JNull)])
    = json_text "{'k':['a\'b',-7,false],'':null}".
Proof. vm_compute. repeat split. Qed.

(** ** White space *)

Lemma trim_start_blank s : blank s → trim_start s = "".
Proof.
  unfold blank, chars. induction s as [|c s IH]; [done|]. simpl.
  intros H. apply Forall_cons in H as [-> H]. auto.
Qed.

Lemma trim_blank s : blank s → trim s = "".
Proof. intros H. unfold trim. by rewrite trim_start_blank. Qed.

Lemma trim_end_empty s : trim_end s = "" → blank s.
Proof.
  unfold blank, chars. induction s as [|c s IH]; [constructor|]. simpl.
  destruct (trim_end s) eqn:E; [|done].
  destruct (is_js_space c) eqn:Ec; [|done]. intros _. constructor; auto.
Qed.

Lemma trim_start_split s :
  ∃ p, s = p +:+ trim_start s ∧ blank p.
Proof.
  induction s as [|c s (p & E & Hp)]; [by exists ""; split; [|constructor]|].
  simpl. destruct (is_js_space c) eqn:Ec.
  - exists (String c p). split; [by rewrite append_cons, <- E|]. by constructor.
  - exists "". split; [done|constructor].
Qed.

Lemma blank_append p q : blank p → blank q → blank (p +:+ q).
Proof.
  unfold blank, chars. induction p as [|c p IH]; [done|]. rewrite append_cons. simpl.
  intros H Hq. apply Forall_cons in H as [Hc H]. constructor; auto.
Qed.

(** The text [trim] leaves is empty exactly when the input is blank. *)
Lemma trim_empty_iff s : trim s = "" ↔ blank s.
Proof.
  split; [|apply trim_blank]. unfold trim. intros H.
  destruct (trim_start_split s) as (p & E & Hp). rewrite E.
  apply blank_append; [done|]. by apply trim_end_empty.
Qed.

(** ** What the handlers leave *)

Arguments stringify : simpl never.
Arguments chats_json : simpl never.

Lemma state_ext (s1 s2 : State) :
  localStorage s1 = localStorage s2 → currentChatId s1 = currentChatId s2 →
  chats s1 = chats s2 → abortController s1 = abortController s2 →
  currentFile s1 = currentFile s2 → isRecording s1 = isRecording s2 →
  promptInput s1 = promptInput s2 → uploadActive s1 = uploadActive s2 →
  chatContainer s1 = chatContainer s2 → aborted s1 = aborted s2 →
  console s1 = console s2 → requests s1 = requests s2 → calls s1 = calls s2 →
  nextCall s1 = nextCall s2 → clock s1 = clock s2 → reads s1 = reads s2 →
  uncaught s1 = uncaught s2 → markup s1 = markup s2 → s1 = s2.
Proof. destruct s1, s2. simpl. intros. by subst. Qed.

(** Two results are equal when they end in states with the same fields. *)
Ltac same_state :=
  try apply (f_equal (Ok tt)); apply state_ext; simpl; reflexivity.

Lemma saveAllChats_eq s : saveAllChats s = Ok tt (saved s).
Proof. reflexivity. Qed.

Lemma addMessage_eq msg c s :
  chats s !! currentChatId s = Some c →
  addMessage msg s =
  if renderable msg then Ok tt (pushed msg c s) else Threw TypeError (stored msg c s).
Proof.
  intros Hc. unfold addMessage, bind, get. rewrite Hc.
  unfold renderable, renderMessage, toISOString, bind, now, ret, modify, throw.
  simpl. by destruct (truthy (text msg) && negb (is_string (text msg))).
Qed.

Lemma addMessage_none msg s :
  chats s !! currentChatId s = None → addMessage msg s = Threw TypeError s.
Proof. intros Hc. unfold addMessage, bind, get. by rewrite Hc. Qed.

Lemma sendMessage_catch_eq typingId err c s :
  chats s !! currentChatId s = Some c →
  sendMessage_catch typingId err s = Ok tt (caught typingId err c s).
Proof.
  intros Hc. unfold sendMessage_catch, removeTypingIndicator, toISOString, now, bind, modify, ret.
  simpl. rewrite (addMessage_eq _ c) by done. reflexivity.
Qed.

Lemma chats_caught typingId err c s :
  chats (caught typingId err c s)
  = <[currentChatId s :=
        extended c (iso (clock s (S (reads s)))) (apology (iso (clock s (reads s))))]> (chats s).
Proof. reflexivity. Qed.

Lemma renderable_string sn t f ts : renderable (mkMessage sn (VJson (JStr t)) f ts) = true.
Proof. unfold renderable. simpl. by rewrite andb_false_r. Qed.

Lemma gate_open s :
  trim (promptInput s) ≠ "" ∨ is_Some (currentFile s) →
  String.eqb (trim (promptInput s)) "" && negb (bool_decide (is_Some (currentFile s))) = false.
Proof.
  intros [Ht|Hf].
  - by destruct (String.eqb_spec (trim (promptInput s)) "").
  - rewrite (bool_decide_eq_true_2 _ Hf). apply andb_false_r.
Qed.

(** A submit that passes the validation gate, in a state whose current
    conversation is [c]. *)
Lemma sendMessage_eq s c :
  chats s !! currentChatId s = Some c →
  trim (promptInput s) ≠ "" ∨ is_Some (currentFile s) →
  sendMessage s = Ok tt (submitted c s).
Proof.
  intros Hc Hgo. unfold sendMessage, bind, get. rewrite (gate_open s Hgo).
  unfold renewAbortController, toISOString, now, bind, modify, ret. simpl.
  erewrite addMessage_eq by (simpl; exact Hc).
  rewrite renderable_string. simpl.
  rewrite lookup_insert_eq. unfold getAIResponse, bind, get, modify. same_state.
Qed.

Lemma step_failure s k typingId sig ph c e x :
  calls s !! k = Some (mkCall typingId sig ph) →
  settles k ph e →
  chats s !! currentChatId s = Some c →
  network_failure e = Some x →
  step s e = caught typingId (seen_error s sig x) c (set_calls (delete k (calls s)) s).
Proof.
  intros Hk He Hc Hx. unfold step, seen_error.
  destruct ph, e as [| | | | |k' r|k' r]; try done; simpl in He; subst k'; simpl.
  - unfold sendMessage_fetched, bind, get. rewrite Hk.
    unfold with_abort, bind, get, ret. simpl.
    destruct (bool_decide (sig ∈ aborted s)).
    + unfold modify. by rewrite (sendMessage_catch_eq _ _ c).
    + destruct r as [status|y]; simpl in Hx.
      * destruct (ok status); [done|]. injection Hx as <-. unfold modify.
        by rewrite (sendMessage_catch_eq _ _ c).
      * injection Hx as <-. unfold modify. by rewrite (sendMessage_catch_eq _ _ c).
  - unfold sendMessage_parsed, bind, get. rewrite Hk.
    unfold with_abort, bind, get, ret, modify. simpl.
    destruct r as [data|y]; [done|]. injection Hx as <-.
    destruct (bool_decide (sig ∈ aborted s)); by rewrite (sendMessage_catch_eq _ _ c).
Qed.

Lemma stale_result_applied s k typingId sig ph c e :
  calls s !! k = Some (mkCall typingId sig ph) →
  sig ∈ aborted s →
  settles k ph e →
  chats s !! currentChatId s = Some c →
  step s e = caught typingId AbortError c (set_calls (delete k (calls s)) s).
Proof.
  intros Hk Hsig He Hc. unfold step.
  destruct ph, e as [| | | | |k' r|k' r]; try done; simpl in He; subst k'; simpl.
  - unfold sendMessage_fetched, bind, get. rewrite Hk.
    unfold with_abort, bind, get, ret, modify. simpl.
    rewrite bool_decide_eq_true_2 by done. by rewrite (sendMessage_catch_eq _ _ c).
  - unfold sendMessage_parsed, bind, get. rewrite Hk.
    unfold with_abort, bind, get, ret, modify. simpl.
    rewrite bool_decide_eq_true_2 by done. by rewrite (sendMessage_catch_eq _ _ c).
Qed.

Lemma sendMessage_parsed_throw s k typingId sig c data :
  calls s !! k = Some (mkCall typingId sig AwaitBody) →
  sig ∉ aborted s →
  chats s !! currentChatId s = Some c →
  response_text data = None →
  step s (BodySettled k (Fulfilled data))
  = caught typingId TypeError c (set_calls (delete k (calls s)) s).
Proof.
  intros Hk Hsig Hc Hd. unfold step, handler, sendMessage_parsed, bind, get. rewrite Hk.
  unfold with_abort, bind, get, ret, modify. simpl.
  rewrite bool_decide_eq_false_2 by done. unfold try_catch. rewrite Hd.
  unfold throw. by rewrite (sendMessage_catch_eq _ _ c).
Qed.

Lemma sendMessage_parsed_reply s k typingId sig c data v :
  calls s !! k = Some (mkCall typingId sig AwaitBody) →
  sig ∉ aborted s →
  chats s !! currentChatId s = Some c →
  response_text data = Some v →
  renderable (mkMessage "ai" v FileAbsent (iso (clock s (reads s)))) = true →
  step s (BodySettled k (Fulfilled data))
  = pushed (mkMessage "ai" v FileAbsent (iso (clock s (reads s)))) c
      (set_reads (S (reads s))
         (set_chatContainer (remove_typing (markup s) typingId (chatContainer s))
            (set_calls (delete k (calls s)) s))).
Proof.
  intros Hk Hsig Hc Hd Hr. unfold step, handler, sendMessage_parsed, bind, get. rewrite Hk.
  unfold with_abort, bind, get, ret, modify. simpl.
  rewrite bool_decide_eq_false_2 by done. unfold try_catch. rewrite Hd.
  unfold removeTypingIndicator, toISOString, now, bind, modify, ret. simpl.
  rewrite (addMessage_eq _ c) by done. by rewrite Hr.
Qed.

Lemma appends_caught s typingId err c s0 :
  chats s !! currentChatId s = Some c →
  chats s0 = chats s → currentChatId s0 = currentChatId s →
  appends s (caught typingId err c s0) (apology (iso (clock s0 (reads s0)))).
Proof.
  intros Hc Hcs Hcur. split; [done|].
  exists c, (iso (clock s0 (S (reads s0)))). split; [done|].
  by rewrite chats_caught, Hcs, Hcur.
Qed.

Lemma startNewChat_eq s : startNewChat s = Ok tt (restarted s).
Proof.
  unfold startNewChat, Date_now, toISOString, now, bind, modify, ret. simpl.
  unfold renderChat, bind, modify, get. simpl. rewrite lookup_insert_eq. simpl.
  unfold renderMessage, modify. simpl.
  unfold resetInput, stopRecording, renewAbortController, bind, get, modify, ret. simpl.
  destruct (isRecording s) eqn:E;
    apply (f_equal (Ok tt)); apply state_ext; simpl; reflexivity || exact E.
Qed.

Lemma forEach_renderMessage_frame l s :
  let s' := final (forEach renderMessage l s) in
  chats s' = chats s ∧ localStorage s' = localStorage s ∧ currentChatId s' = currentChatId s.
Proof.
  revert s. induction l as [|m l IH]; intros s; [done|].
  simpl. unfold bind, renderMessage.
  destruct (truthy (text m) && negb (is_string (text m))); [done|].
  unfold modify. apply (IH (set_chatContainer _ s)).
Qed.

Lemma renderChat_frame id s :
  let s' := final (renderChat id s) in
  chats s' = chats s ∧ localStorage s' = localStorage s ∧ currentChatId s' = currentChatId s.
Proof.
  unfold renderChat, bind, modify, get.
  apply (forEach_renderMessage_frame _ (set_chatContainer [] s)).
Qed.

Lemma initializeChat_present s c :
  chats s !! currentChatId s = Some c →
  initializeChat s = renderChat (currentChatId s) s.
Proof. intros Hc. unfold initializeChat, bind, get. by rewrite Hc. Qed.

Lemma initializeChat_absent s :
  chats s !! currentChatId s = None →
  ∃ s', initializeChat s = Ok tt s'
    ∧ chats s' = <[currentChatId s :=
                     mkChat (currentChatId s) (iso (clock s (reads s)))
                            (iso (clock s (S (reads s))))
                            [greeting (iso (clock s (S (S (reads s)))))]]> (chats s)
    ∧ currentChatId s' = currentChatId s
    ∧ chatContainer s' = [NMessage (greeting (iso (clock s (S (S (reads s))))))].
Proof.
  intros Hc. unfold initializeChat, bind, get. rewrite Hc.
  unfold toISOString, now, bind, ret, modify. simpl.
  unfold renderChat, bind, modify, get. simpl. rewrite lookup_insert_eq. simpl.
  unfold renderMessage, modify, bind, ret. simpl.
  eexists. split; [reflexivity|]. by simpl.
Qed.

Lemma first_launch_boot clk :
  ∃ s, DOMContentLoaded ∅ clk = Booted s
    ∧ currentChatId s = "chat-" +:+ show_Z (ms (readings clk 0%nat))
    ∧ chats s = {[ currentChatId s :=
                     mkChat (currentChatId s) (iso (readings clk 1%nat)) (iso (readings clk 2%nat))
                            [greeting (iso (readings clk 3%nat))] ]}.
Proof.
  unfold DOMContentLoaded, getCurrentChatId, getItem, bind, get. simpl.
  rewrite lookup_empty. unfold Date_now, now, bind, ret, setItem, modify. simpl.
  unfold loadAllChats. simpl. rewrite lookup_insert_ne by done. rewrite lookup_empty. simpl.
  match goal with |- context [initializeChat ?s0] =>
    destruct (initializeChat_absent s0) as (s' & E & Hcs & Hcur & _); [apply lookup_empty|]
  end.
  rewrite E. exists s'. split; [done|]. simpl in Hcs, Hcur.
  rewrite Hcur, Hcs. split; [done|]. by rewrite insert_empty.
Qed.

Lemma getCurrentChatId_frame ls clk :
  ∃ id s, getCurrentChatId (initial ls clk) = Ok id s
    ∧ localStorage s !! "pdb-ai-chats" = ls !! "pdb-ai-chats"
    ∧ chats s = ∅ ∧ chatContainer s = [].
Proof.
  unfold getCurrentChatId, getItem, bind, get. simpl.
  destruct (ls !! "currentChatId") as [id|]; [destruct (String.eqb id "")|];
    unfold Date_now, now, bind, ret, setItem, modify; simpl; eexists _, _;
    (split; [reflexivity|]); simpl; by rewrite ?lookup_insert_ne.
Qed.

Lemma loadAllChats_stored ls data :
  ls !! "pdb-ai-chats" = Some data → data ≠ "" → loadAllChats ls = parse data.
Proof.
  intros Hd Hne. unfold loadAllChats. rewrite Hd. by destruct (String.eqb_spec data "").
Qed.

Lemma boot_on_malformed_data ls clk data :
  ls !! "pdb-ai-chats" = Some data → data ≠ "" → parse data = PSyntax →
  ∃ s, DOMContentLoaded ls clk = BootThrew SyntaxError s ∧ chats s = ∅ ∧ chatContainer s = [].
Proof.
  intros Hd Hne Hp. unfold DOMContentLoaded.
  destruct (getCurrentChatId_frame ls clk) as (id & s & -> & Hls & Hcs & Hdom).
  rewrite <- Hls in Hd. simpl. rewrite (loadAllChats_stored _ data Hd Hne), Hp.
  by eexists.
Qed.

(** A first question, as the scenarios below start. *)
Example scenario_asked :
  currentChatId asked = "chat-1700000000000"
  ∧ current_messages asked
    = [greeting "2023-11-14T22:13:20.003Z";
       mkMessage "user" (VJson (JStr "What is 2+2?")) FileNull "2023-11-14T22:13:20.004Z"]
  ∧ calls asked = {[ 0%nat := mkCall "typing-1700000000006" 1 AwaitFetch ]}
  ∧ chatContainer asked
    = [NMessage (greeting "2023-11-14T22:13:20.003Z");
       NMessage (mkMessage "user" (VJson (JStr "What is 2+2?")) FileNull
                           "2023-11-14T22:13:20.004Z");
       NTyping "typing-1700000000006"]
  ∧ localStorage asked !! "currentChatId" = Some "chat-1700000000000".
Proof. vm_compute. repeat split. Qed.

(** ** Relations that every handler preserves

    [R] relates the state before a computation to the state after it.  When
    [R] holds across every change that leaves [chats] alone and across the
    one change [addMessage] makes, it holds across every handler except
    [startNewChat]; when it also holds across the assignment [startNewChat]
    makes, it holds across every handler. *)

Section Preservation.

Variable R : State → State → Prop.

Hypothesis R_same : ∀ s s', chats s' = chats s → currentChatId s' = currentChatId s → R s s'.

Hypothesis R_trans : ∀ s1 s2 s3, R s1 s2 → R s2 s3 → R s1 s3.

Hypothesis R_push : ∀ s s' c u msg,
  chats s !! currentChatId s = Some c →
  chats s' = <[currentChatId s := extended c u msg]> (chats s) →
  currentChatId s' = currentChatId s →
  R s s'.

Abbreviation keeps := (keeps R).

Lemma keeps_ret {A} (a : A) : keeps (ret a).
Proof. intros s. by apply R_same. Qed.

Lemma keeps_throw {A} (e : exn) : keeps (@throw A e).
Proof. intros s. by apply R_same. Qed.

Lemma keeps_get {A} (f : State → A) : keeps (get f).
Proof. intros s. by apply R_same. Qed.

Lemma keeps_modify (f : State → State) :
  (∀ s, chats (f s) = chats s) → (∀ s, currentChatId (f s) = currentChatId s) →
  keeps (modify f).
Proof. intros Hf Hg s. apply R_same; [apply Hf|apply Hg]. Qed.

Lemma keeps_bind {A B} (m : M A) (k : A → M B) :
  keeps m → (∀ a, keeps (k a)) → keeps (bind m k).
Proof.
  intros Hm Hk s. unfold bind. specialize (Hm s).
  destruct (m s) as [a s1|e s1]; simpl in *; [|done].
  eapply R_trans; [exact Hm|apply Hk].
Qed.

Lemma keeps_try_catch {A} (m : M A) (h : exn → M A) :
  keeps m → (∀ e, keeps (h e)) → keeps (try_catch m h).
Proof.
  intros Hm Hh s. unfold try_catch. specialize (Hm s).
  destruct (m s) as [a s1|e s1]; simpl in *; [done|].
  eapply R_trans; [exact Hm|apply Hh].
Qed.

Lemma keeps_now : keeps now.
Proof. intros s. by apply R_same. Qed.

Lemma keeps_addMessage msg : keeps (addMessage msg).
Proof.
  intros s. destruct (chats s !! currentChatId s) as [c|] eqn:Hc.
  - rewrite (addMessage_eq _ c) by done.
    destruct (renderable msg); simpl; by eapply R_push.
  - rewrite addMessage_none by done. by apply R_same.
Qed.

Ltac keeps_step :=
  lazymatch goal with
  | |- keeps (ret _) => apply keeps_ret
  | |- keeps (throw _) => apply keeps_throw
  | |- keeps (get _) => apply keeps_get
  | |- keeps now => apply keeps_now
  | |- keeps (addMessage _) => apply keeps_addMessage
  | |- keeps (modify _) => apply keeps_modify; intros; reflexivity
  | |- keeps (bind _ _) => apply keeps_bind; [|intros ?]
  | |- keeps (try_catch _ _) => apply keeps_try_catch; [|intros ?]
  | |- keeps (match ?x with _ => _ end) => destruct x
  end.

Lemma keeps_sendMessage_catch typingId err : keeps (sendMessage_catch typingId err).
Proof.
  unfold sendMessage_catch, removeTypingIndicator, toISOString. repeat keeps_step.
Qed.

Ltac keeps_all :=
  repeat first
    [ lazymatch goal with
      | |- keeps (sendMessage_catch _ _) => apply keeps_sendMessage_catch
      end
    | keeps_step ].

Lemma keeps_sendMessage : keeps sendMessage.
Proof.
  unfold sendMessage, renewAbortController, toISOString, showTypingIndicator, Date_now,
    getAIResponse.
  keeps_all.
Qed.

Lemma keeps_sendMessage_fetched k r : keeps (sendMessage_fetched k r).
Proof.
  unfold sendMessage_fetched, with_abort.
  keeps_all.
Qed.

Lemma keeps_sendMessage_parsed k r : keeps (sendMessage_parsed k r).
Proof.
  unfold sendMessage_parsed, with_abort, removeTypingIndicator, toISOString.
  keeps_all.
Qed.

Lemma R_uncaught s s' v : R s s' → R s (set_uncaught v s').
Proof. intros H. eapply R_trans; [exact H|]. by apply R_same. Qed.

Lemma step_keeps s e : e ≠ NewChat → R s (step s e).
Proof.
  intros He. unfold step.
  assert (H : keeps (handler e)).
  { destruct e; simpl; try done.
    - repeat keeps_step.
    - unfold handleFileUpload. repeat keeps_step.
    - repeat keeps_step.
    - apply keeps_sendMessage.
    - apply keeps_sendMessage_fetched.
    - apply keeps_sendMessage_parsed. }
  specialize (H s). destruct (handler e s); simpl in H; [done|by apply R_uncaught].
Qed.

Lemma run_keeps es : ∀ s, NewChat ∉ es → R s (run s es).
Proof.
  induction es as [|e es IH]; intros s Hes; simpl.
  - by apply R_same.
  - apply not_elem_of_cons in Hes as [He Hes].
    eapply R_trans; [by apply step_keeps|by apply IH].
Qed.

End Preservation.

Lemma extends_refl s s' : chats s' = chats s → extends s s'.
Proof. intros E id c Hc. exists c. by rewrite E. Qed.

Lemma extends_trans s1 s2 s3 : extends s1 s2 → extends s2 s3 → extends s1 s3.
Proof.
  intros H12 H23 id c Hc.
  destruct (H12 id c Hc) as (c2 & Hc2 & Hp2).
  destruct (H23 id c2 Hc2) as (c3 & Hc3 & Hp3).
  exists c3. split; [done|]. by etrans.
Qed.

Lemma extends_push s s' c u msg :
  chats s !! currentChatId s = Some c →
  chats s' = <[currentChatId s := extended c u msg]> (chats s) →
  extends s s'.
Proof.
  intros Hc E id c0 Hc0. rewrite E.
  destruct (decide (id = currentChatId s)) as [->|Hne].
  - rewrite lookup_insert_eq. eexists. split; [done|].
    rewrite Hc in Hc0. injection Hc0 as <-. by apply prefix_app_r.
  - rewrite lookup_insert_ne by done. by exists c0.
Qed.

Lemma never_empty_push s s' c u msg :
  chats s' = <[currentChatId s := extended c u msg]> (chats s) →
  never_empty s → never_empty s'.
Proof.
  intros E Hs id c0. rewrite E.
  destruct (decide (id = currentChatId s)) as [->|Hne].
  - rewrite lookup_insert_eq. intros [= <-]. simpl. by destruct (messages c).
  - rewrite lookup_insert_ne by done. apply Hs.
Qed.

Lemma never_empty_same s s' : chats s' = chats s → never_empty s → never_empty s'.
Proof. intros E Hs id c. rewrite E. apply Hs. Qed.

Lemma has_current_step s e : has_current s → has_current (step s e).
Proof.
  assert (e = NewChat ∨ e ≠ NewChat) as [->|He] by (destruct e; (by left) || (by right)).
  - intros _. unfold step, handler, has_current. rewrite startNewChat_eq. simpl.
    rewrite lookup_insert_eq. by eexists.
  - revert s e He. apply (step_keeps (λ s s', has_current s → has_current s')).
    + intros s s' E1 E2. unfold has_current. by rewrite E1, E2.
    + auto.
    + intros s s' c u msg _ E1 E2 _. unfold has_current.
      rewrite E1, E2, lookup_insert_eq. by eexists.
Qed.

Lemma has_current_booted ls clk s : DOMContentLoaded ls clk = Booted s → has_current s.
Proof.
  unfold DOMContentLoaded.
  destruct (getCurrentChatId (initial ls clk)) as [id s0|]; [|done].
  destruct (loadAllChats _); [|done..].
  destruct (chats_of_json _) as [cs|]; [|done].
  destruct (_ && _); [done|].
  generalize (set_chats cs (set_currentChatId id s0)). intros s1.
  destruct (chats s1 !! currentChatId s1) as [c|] eqn:Hc.
  - rewrite (initializeChat_present s1 c Hc).
    pose proof (renderChat_frame (currentChatId s1) s1) as (F1 & _ & F2).
    destruct (renderChat _ s1) as [[] s2|]; [|done]. intros [= <-].
    unfold has_current. simpl in F1, F2. rewrite F1, F2, Hc. by eexists.
  - destruct (initializeChat_absent s1 Hc) as (s' & -> & Hcs & Hcur & _).
    intros [= <-]. unfold has_current. rewrite Hcs, Hcur, lookup_insert_eq. by eexists.
Qed.

Lemma has_current_run es : ∀ s, has_current s → has_current (run s es).
Proof.
  induction es as [|e es IH]; intros s Hs; [done|].
  simpl. apply IH. by apply has_current_step.
Qed.

(** ** Superseded calls *)

(** Two submits before the first request has completed, and then the
    outcome of the first request. *)
Example scenario_asked_twice (r : Settled Z) :
  calls asked_twice !! 0%nat = Some (mkCall "typing-1700000000006" 1 AwaitFetch)
  ∧ bool_decide (1%nat ∈ aborted asked_twice) = true
  ∧ abortController asked_twice = 2%nat
  ∧ current_messages asked_twice
    = [greeting "2023-11-14T22:13:20.003Z";
       mkMessage "user" (VJson (JStr "What is 2+2?")) FileNull "2023-11-14T22:13:20.004Z";
       mkMessage "user" (VJson (JStr "And 3+3?")) FileNull "2023-11-14T22:13:20.007Z"]
  ∧ current_messages (step asked_twice (FetchSettled 0 r))
    = current_messages asked_twice ++ [apology "2023-11-14T22:13:20.010Z"]
  ∧ console (step asked_twice (FetchSettled 0 r)) = [AbortError]
  ∧ chatContainer (step asked_twice (FetchSettled 0 r))
    = remove_typing (markup asked_twice) "typing-1700000000006" (chatContainer asked_twice)
      ++ [NMessage (apology "2023-11-14T22:13:20.010Z")].
Proof. vm_compute. repeat split. Qed.

(** C1 fails on the code.  While the call [k] of the latest submit is
    pending, the user submits again; this aborts the controller of the call
    [k].  Whatever then settles the promise the call [k] awaits, a response
    or an error, the [catch] clause of its [sendMessage] runs on the
    [AbortError]: the apology is appended to the current conversation, after
    the second message of the user, the typing indicator of the call [k] is
    removed and the call is no longer pending. *)
Theorem C1_stale_result_is_applied (s : State) (k : nat) (typingId : string) (ph : Phase)
    (c : Chat) (e : Event) :
  calls s !! k = Some (mkCall typingId (abortController s) ph) →
  k ≠ nextCall s →
  chats s !! currentChatId s = Some c →
  trim (promptInput s) ≠ "" ∨ is_Some (currentFile s) →
  settles k ph e →
  let s1 := step s Submit in
  let s2 := step s1 e in
  abortController s ∈ aborted s1
  ∧ abortController s1 ≠ abortController s
  ∧ calls s1 !! k = Some (mkCall typingId (abortController s) ph)
  ∧ ∃ ts, appends s1 s2 (apology ts)
          ∧ current_messages s2 = messages c ++ [userMsg_of s; apology ts]
          ∧ calls s2 = delete k (calls s1)
          ∧ chatContainer s2
            = remove_typing (markup s1) typingId (chatContainer s1) ++ [NMessage (apology ts)]
          ∧ console s2 = console s1 ++ [AbortError].
Proof.
  intros Hk Hne Hc Hgo He s1 s2.
  assert (E1 : s1 = submitted c s).
  { unfold s1, step, handler. rewrite (sendMessage_eq s c Hc Hgo). reflexivity. }
  assert (Hab : abortController s ∈ aborted s1) by (rewrite E1; simpl; by apply elem_of_union_l, elem_of_singleton).
  assert (Hk1 : calls s1 !! k = Some (mkCall typingId (abortController s) ph))
    by (rewrite E1; simpl; by rewrite lookup_insert_ne).
  assert (Hc1 : chats s1 !! currentChatId s1
                = Some (extended c (iso (clock s (S (reads s)))) (userMsg_of s)))
    by (rewrite E1; simpl; apply lookup_insert_eq).
  split; [done|]. split; [rewrite E1; simpl; lia|]. split; [done|].
  exists (iso (clock s1 (reads s1))).
  unfold s2. rewrite (stale_result_applied _ _ _ _ _ _ _ Hk1 Hab He Hc1).
  split; [by apply (appends_caught s1 _ _ _ (set_calls _ s1))|].
  split; [|by split].
  unfold current_messages. rewrite chats_caught. simpl.
  rewrite lookup_insert_eq. simpl. by rewrite <- app_assoc.
Qed.

(** The first question is pending when the second is submitted; the first
    request is then answered with the status 200. *)
Lemma C1_witness :
  ∃ ts, appends (step typed_again Submit)
          (step (step typed_again Submit) (FetchSettled 0 (Fulfilled 200))) (apology ts).
Proof.
  destruct (C1_stale_result_is_applied typed_again 0 "typing-1700000000006" AwaitFetch
              (current_chat typed_again) (FetchSettled 0 (Fulfilled 200)))
    as (_ & _ & _ & ts & H & _).
  - vm_compute. reflexivity.
  - vm_compute. discriminate.
  - vm_compute. reflexivity.
  - left. vm_compute. discriminate.
  - reflexivity.
  - exists ts. exact H.
Defined.

(** ** Appending messages *)

(** C2. Across every sequence of events in which no new conversation is
    started (typing, attaching, submits and the results of their network
    calls), every conversation keeps the messages it had, in their places:
    messages are only ever added at the end.  A submit that passes the
    validation gate makes the current conversation one message longer, the
    new last message being the user's. *)
Theorem C2_messages_append_only :
  (∀ s es, NewChat ∉ es → extends s (run s es))
  ∧ (∀ s c,
       chats s !! currentChatId s = Some c →
       trim (promptInput s) ≠ "" ∨ is_Some (currentFile s) →
       ∃ c', chats (step s Submit) !! currentChatId s = Some c'
             ∧ messages c' = messages c ++ [userMsg_of s]
             ∧ length (messages c') = S (length (messages c))).
Proof.
  split.
  - intros s es Hes. revert s Hes. apply run_keeps.
    + intros s s' E _. by apply extends_refl.
    + apply extends_trans.
    + intros s s' c u msg Hc E _. by eapply extends_push.
  - intros s c Hc Hgo. unfold step, handler. rewrite (sendMessage_eq s c Hc Hgo).
    eexists. split; [simpl; apply lookup_insert_eq|]. simpl.
    split; [done|]. rewrite length_app. simpl. lia.
Qed.

(** The second part, for the question typed after the first launch. *)
Lemma C2_witness :
  ∃ c', chats (step typed Submit) !! currentChatId typed = Some c'
        ∧ messages c' = messages (current_chat typed) ++ [userMsg_of typed]
        ∧ length (messages c') = S (length (messages (current_chat typed))).
Proof.
  apply (proj2 C2_messages_append_only typed (current_chat typed)).
  - vm_compute. reflexivity.
  - left. vm_compute. discriminate.
Defined.

(** ** Removing the element that has an id *)

Lemma take_inside_eq id i kids :
  take_inside id (El i kids)
  = if String.eqb i id then Some []
    else (λ kids', [El i kids']) <$> take_element id kids.
Proof.
  cbn [take_inside]. destruct (String.eqb i id); [done|]. f_equal.
  induction kids as [|k r IH]; [done|]. cbn [take_element]. by rewrite IH.
Qed.

Lemma take_element_cons id e r :
  take_element id (e :: r)
  = match take_inside id e with
    | Some es => Some (es ++ r)
    | None => cons e <$> take_element id r
    end.
Proof. reflexivity. Qed.

Lemma take_elements_None id els :
  Forall (λ e, take_inside id e = None ↔ id ∉ ids_inside e) els →
  take_element id els = None ↔ id ∉ ids_of els.
Proof.
  unfold ids_of. induction 1 as [|e r He Hr IH].
  - split; [intros _; apply not_elem_of_nil|done].
  - rewrite take_element_cons. cbn [flat_map]. rewrite not_elem_of_app, <- He, <- IH.
    destruct (take_inside id e); [by split; [|intros [? _]]|].
    rewrite fmap_None. by split; [|intros [_ ?]].
Qed.

(** An element is found exactly when it or an element inside it has the
    id. *)
Lemma take_inside_None id : ∀ e, take_inside id e = None ↔ id ∉ ids_inside e.
Proof.
  fix IH 1. intros [i kids]. rewrite take_inside_eq. cbn [ids_inside].
  rewrite not_elem_of_cons.
  assert (Hk : take_element id kids = None ↔ id ∉ flat_map ids_inside kids).
  { apply take_elements_None. induction kids as [|k r IHr]; constructor; [apply IH|exact IHr]. }
  destruct (String.eqb_spec i id) as [->|Hne].
  - by split; [|intros [? _]].
  - rewrite fmap_None, Hk. split; [by split; [congruence|]|by intros [_ ?]].
Qed.

Lemma take_element_None id els : take_element id els = None ↔ id ∉ ids_of els.
Proof. apply take_elements_None, Forall_forall. intros e _. apply take_inside_None. Qed.

Lemma take_element_Some id els : id ∈ ids_of els → is_Some (take_element id els).
Proof.
  intros Hin. destruct (take_element id els) eqn:E; [by eexists|].
  by apply take_element_None in E.
Qed.

(** A node none of whose elements has the id stays where it is. *)
Lemma remove_typing_skip els id n r :
  id ∉ node_ids els n → remove_typing els id (n :: r) = n :: remove_typing els id r.
Proof.
  destruct n as [m|id'|m k]; cbn [remove_typing node_ids].
  - intros H%take_element_None. by rewrite H.
  - intros H. destruct (String.eqb_spec id' id) as [->|]; [|done].
    exfalso. apply H. by left.
  - intros H%take_element_None. by rewrite H.
Qed.

Lemma remove_typing_app els id l1 l2 :
  free_of els id l1 → remove_typing els id (l1 ++ l2) = l1 ++ remove_typing els id l2.
Proof.
  induction 1 as [|n r Hn Hr IH]; [done|].
  change ((n :: r) ++ l2) with (n :: (r ++ l2)).
  by rewrite (remove_typing_skip els id n _ Hn), IH.
Qed.

Lemma remove_typing_free els id l : free_of els id l → remove_typing els id l = l.
Proof.
  intros H. rewrite <- (app_nil_r l) at 1. rewrite (remove_typing_app els id l [] H).
  apply app_nil_r.
Qed.

(** The indicator is removed when no element before it has its id. *)
Lemma remove_typing_indicator els id l1 l2 :
  free_of els id l1 → remove_typing els id (l1 ++ NTyping id :: l2) = l1 ++ l2.
Proof.
  intros H. rewrite (remove_typing_app els id l1 _ H). cbn [remove_typing].
  by rewrite String.eqb_refl.
Qed.

(** When a message before the indicator holds an element with the id, that
    element is removed and the indicator stays. *)
Lemma remove_typing_in_message els id l1 m l2 :
  free_of els id l1 → id ∈ ids_of (els m) →
  ∃ left_in, take_element id (els m) = Some left_in
             ∧ remove_typing els id (l1 ++ NMessage m :: l2) = l1 ++ NAltered m left_in :: l2.
Proof.
  intros H [k Hk]%take_element_Some. exists k. split; [done|].
  rewrite (remove_typing_app els id l1 _ H). cbn [remove_typing]. by rewrite Hk.
Qed.

(** ** Failures of the network call *)

Lemma chatContainer_caught typingId err c s :
  chatContainer (caught typingId err c s)
  = remove_typing (markup s) typingId (chatContainer s)
    ++ [NMessage (apology (iso (clock s (reads s))))].
Proof. reflexivity. Qed.

(** C3 fails on the code where it says that the pending state is cleared.
    The question asked is markup that holds an element with the id the
    typing indicator then gets; its request fails with the status 500.  The
    call is no longer pending and the apology is appended, but
    [removeTypingIndicator] has removed the element inside the question, and
    the typing indicator is still on the page. *)
Lemma C3_counterexample :
  let s' := step asked_markup (FetchSettled 0 (Fulfilled 500)) in
  calls asked_markup !! 0%nat = Some (mkCall "typing-1700000000006" 1 AwaitFetch)
  ∧ network_failure (FetchSettled 0 (Fulfilled 500)) = Some (Error "API failed: 500")
  ∧ calls s' = ∅
  ∧ chatContainer s'
    = [NMessage (greeting "2023-11-14T22:13:20.003Z");
       NAltered (mkMessage "user" (VJson (JStr "<i id=typing-1700000000006></i>")) FileNull
                   "2023-11-14T22:13:20.004Z") [];
       NTyping "typing-1700000000006";
       NMessage (apology "2023-11-14T22:13:20.007Z")].
Proof. vm_compute. repeat split. Qed.

(** C3, as far as the code has it. When the network call of a submit fails
    with a transport error or with a status outside 200..299, exactly one
    message is appended to the current conversation: the assistant's
    apology, whose text is fixed.  The call is no longer pending, and the
    first element of the page that has the id of its typing indicator is
    removed: the indicator itself when no element before it has that id; an
    element inside a message shown before it otherwise, and then the
    indicator stays on the page.  The error goes to the console only: what
    the user can see afterwards is the same whatever the failure was, and for
    the status 500 the console holds the text "API failed: 500" while the
    message shown holds the apology. *)
Theorem C3_failure_appends_one_apology (s : State) (k : nat) (typingId : string)
    (sig : nat) (ph : Phase) (c : Chat) (e : Event) (x : exn) :
  calls s !! k = Some (mkCall typingId sig ph) →
  settles k ph e →
  chats s !! currentChatId s = Some c →
  network_failure e = Some x →
  let s' := step s e in
  ∃ ts,
    appends s s' (apology ts)
    ∧ apology ts
      = mkMessage "ai" (VJson (JStr "Sorry, I encountered an error. Please try again."))
                  FileAbsent ts
    ∧ calls s' = delete k (calls s)
    ∧ chatContainer s'
      = remove_typing (markup s) typingId (chatContainer s) ++ [NMessage (apology ts)]
    ∧ (∀ l1 l2,
         chatContainer s = l1 ++ NTyping typingId :: l2 → free_of (markup s) typingId l1 →
         chatContainer s' = l1 ++ l2 ++ [NMessage (apology ts)])
    ∧ (∀ l1 m l2,
         chatContainer s = l1 ++ NMessage m :: l2 → free_of (markup s) typingId l1 →
         typingId ∈ ids_of (markup s m) →
         ∃ left_in,
           chatContainer s' = l1 ++ NAltered m left_in :: l2 ++ [NMessage (apology ts)]
           ∧ indicators (chatContainer s') = indicators (chatContainer s))
    ∧ console s' = console s ++ [seen_error s sig x]
    ∧ uncaught s' = uncaught s
    ∧ (∀ e' x', settles k ph e' → network_failure e' = Some x' →
         visible (step s e') = visible s')
    ∧ (sig ∉ aborted s → e = FetchSettled k (Fulfilled 500) →
       seen_error s sig x = Error "API failed: 500"
       ∧ text (apology ts) ≠ VJson (JStr "API failed: 500")).
Proof.
  intros Hk He Hc Hx s'.
  exists (iso (clock s (reads s))).
  assert (Es : s' = caught typingId (seen_error s sig x) c (set_calls (delete k (calls s)) s))
    by apply (step_failure _ _ _ _ _ _ _ _ Hk He Hc Hx).
  assert (Ep : chatContainer s'
               = remove_typing (markup s) typingId (chatContainer s)
                 ++ [NMessage (apology (iso (clock s (reads s))))])
    by (by rewrite Es).
  split; [rewrite Es; by apply (appends_caught s _ _ c (set_calls _ s))|].
  split; [reflexivity|]. split; [by rewrite Es|]. split; [exact Ep|].
  split; [|split; [|split; [by rewrite Es|split; [by rewrite Es|split]]]].
  - intros l1 l2 Hp Hf. rewrite Ep, Hp, (remove_typing_indicator _ _ _ _ Hf).
    by rewrite <- app_assoc.
  - intros l1 m l2 Hp Hf Hin.
    destruct (remove_typing_in_message _ _ l1 m l2 Hf Hin) as (left_in & _ & E).
    exists left_in. rewrite Ep, Hp, E. split; [by rewrite <- app_assoc|].
    unfold indicators. rewrite !omap_app. cbn [omap]. by rewrite app_nil_r.
  - intros e' x' He' Hx'. by rewrite (step_failure _ _ _ _ _ _ _ _ Hk He' Hc Hx'), Es.
  - intros Hsig ->. unfold seen_error. rewrite bool_decide_eq_false_2 by done.
    simpl in Hx. injection Hx as <-. split; [reflexivity|discriminate].
Qed.

(** The status 500 in answer to the first question. *)
Lemma C3_witness :
  let s' := step asked (FetchSettled 0 (Fulfilled 500)) in
  ∃ ts, appends asked s' (apology ts)
        ∧ chatContainer s'
          = [NMessage (greeting "2023-11-14T22:13:20.003Z");
             NMessage (mkMessage "user" (VJson (JStr "What is 2+2?")) FileNull
                         "2023-11-14T22:13:20.004Z")]
            ++ [] ++ [NMessage (apology ts)].
Proof.
  destruct (C3_failure_appends_one_apology asked 0 "typing-1700000000006" 1 AwaitFetch
              (current_chat asked) (FetchSettled 0 (Fulfilled 500)) (Error "API failed: 500"))
    as (ts & H & _ & _ & _ & Hp & _).
  - vm_compute. reflexivity.
  - reflexivity.
  - vm_compute. reflexivity.
  - reflexivity.
  - exists ts. split; [exact H|]. apply Hp.
    + vm_compute. reflexivity.
    + repeat (apply Forall_cons; split); [| |by apply Forall_nil];
        apply not_elem_of_nil.
Defined.

(** ** The prompt *)

Lemma buildPrompt_spec msgs : buildPrompt msgs = spec_prompt msgs.
Proof.
  unfold buildPrompt. induction msgs as [|m [|m' r] IH]; [done..|].
  change (spec_prompt (m :: m' :: r))
    with (prompt_line m +:+ String "010" (spec_prompt (m' :: r))).
  by rewrite <- IH.
Qed.



(** ** The validation gate *)

(** C5. A submit whose text is empty or white space only, with no file
    attached, is a no-op: the state after the handler is the state before it,
    so no message is appended, [localStorage] is not written and no request
    is issued. *)
Theorem C5_blank_submit_is_noop (s : State) :
  blank (promptInput s) → currentFile s = None →
  step s Submit = s
  ∧ chats (step s Submit) = chats s
  ∧ localStorage (step s Submit) = localStorage s
  ∧ requests (step s Submit) = requests s.
Proof.
  intros Hblank Hfile.
  assert (E : step s Submit = s).
  { unfold step, handler, sendMessage, bind, get. simpl.
    rewrite (trim_blank _ Hblank), Hfile. reflexivity. }
  by rewrite E.
Qed.

(** Three spaces typed after the first launch. *)
Lemma C5_witness : step typed_blank Submit = typed_blank.
Proof.
  apply (C5_blank_submit_is_noop typed_blank); [vm_compute; repeat constructor|reflexivity].
Defined.

(** ** Creating conversations *)

(** C6. Every handler keeps every conversation non-empty.  A conversation
    is created with exactly one message, the assistant's greeting: by
    [initializeChat] when the current id has no conversation (as on first
    launch, where it is the only conversation), and by [startNewChat].
    [initializeChat] leaves an existing conversation, and what is stored, as
    they are, so running it a second time changes no conversation. *)
Theorem C6_conversations_never_empty :
  (∀ s e, never_empty s → never_empty (step s e))
  ∧ (∀ s, chats s !! currentChatId s = None →
       ∃ s' c u t, initializeChat s = Ok tt s'
         ∧ chats s' = <[currentChatId s := mkChat (currentChatId s) c u [greeting t]]> (chats s))
  ∧ (∀ s, ∃ c t, chats (step s NewChat) !! currentChatId (step s NewChat) = Some c
               ∧ messages c = [greeting t])
  ∧ (∀ t, sender (greeting t) = "ai" ∧ text (greeting t) = VJson (JStr greeting_text))
  ∧ (∀ s c, chats s !! currentChatId s = Some c →
       chats (final (initializeChat s)) = chats s
       ∧ localStorage (final (initializeChat s)) = localStorage s)
  ∧ (∀ s, chats (final (initializeChat (final (initializeChat s))))
          = chats (final (initializeChat s)))
  ∧ (∀ clk, ∃ s c u t, DOMContentLoaded ∅ clk = Booted s
       ∧ chats s = {[ currentChatId s := mkChat (currentChatId s) c u [greeting t] ]}).
Proof.
  assert (Hpresent : ∀ s c, chats s !! currentChatId s = Some c →
            chats (final (initializeChat s)) = chats s
            ∧ localStorage (final (initializeChat s)) = localStorage s
            ∧ currentChatId (final (initializeChat s)) = currentChatId s).
  { intros s c Hc. rewrite (initializeChat_present s c Hc). apply renderChat_frame. }
  split; [|split; [|split; [|split; [|split; [|split]]]]].
  - intros s e.
    assert (e = NewChat ∨ e ≠ NewChat) as [->|He] by (destruct e; (by left) || (by right)).
    + unfold step, handler. rewrite startNewChat_eq. intros Hs id c. simpl.
      destruct (decide (id = "chat-" +:+ show_Z (ms (clock s (reads s))))) as [->|Hne].
      * rewrite lookup_insert_eq. by intros [= <-].
      * rewrite lookup_insert_ne by done. apply Hs.
    + revert s e He. apply (step_keeps (λ s s', never_empty s → never_empty s')).
      * intros s s' E _. by apply never_empty_same.
      * auto.
      * intros s s' c u msg _ E _. by eapply never_empty_push.
  - intros s Hc. destruct (initializeChat_absent s Hc) as (s' & E & Hcs & _).
    by eexists s', _, _, _.
  - intros s. unfold step, handler. rewrite startNewChat_eq. simpl.
    rewrite lookup_insert_eq. by eexists _, _.
  - done.
  - intros s c Hc. destruct (Hpresent s c Hc) as (? & ? & ?). done.
  - intros s. destruct (chats s !! currentChatId s) as [c|] eqn:Hc.
    + destruct (Hpresent s c Hc) as (E1 & _ & E2).
      assert (Hc' : chats (final (initializeChat s)) !! currentChatId (final (initializeChat s))
                    = Some c) by by rewrite E1, E2.
      by destruct (Hpresent _ c Hc') as (? & _).
    + destruct (initializeChat_absent s Hc) as (s' & E & Hcs & Hcur & _). rewrite E. simpl.
      assert (Hc' : chats s' !! currentChatId s' = Some
                (mkChat (currentChatId s) (iso (clock s (reads s)))
                        (iso (clock s (S (reads s))))
                        [greeting (iso (clock s (S (S (reads s)))))]))
        by by rewrite Hcs, Hcur, lookup_insert_eq.
      by destruct (Hpresent _ _ Hc') as (? & _).
  - intros clk. destruct (first_launch_boot clk) as (s & E & _ & Hcs).
    by eexists s, _, _, _.
Qed.

(** [initializeChat] run again after the first launch. *)
Lemma C6_witness :
  chats (final (initializeChat first_launch)) = chats first_launch
  ∧ localStorage (final (initializeChat first_launch)) = localStorage first_launch.
Proof.
  apply (proj1 (proj2 (proj2 (proj2 (proj2 C6_conversations_never_empty))))
           first_launch (current_chat first_launch)).
  vm_compute. reflexivity.
Defined.

(** ** Identifiers of conversations *)







(** ** Loading what is stored *)

(** C8 as stated fails: on a stored text that is not JSON, here one cut
    short, [JSON.parse] throws a [SyntaxError]; nothing catches it and the
    start-up stops there. *)
Lemma C8_counterexample :
  loadAllChats truncated_store = PSyntax
  ∧ ∃ s, DOMContentLoaded truncated_store ticking = BootThrew SyntaxError s.
Proof.
  split; [vm_compute; reflexivity|].
  destruct (boot_on_malformed_data truncated_store ticking
              (json_text "{'chat-1700000000000':{'id':'chat-1700000000000','crea"))
    as (s & E & _); [reflexivity|discriminate|vm_compute; reflexivity|].
  by exists s.
Qed.

(** C8, amended. [loadAllChats] gives the empty mapping when nothing, or
    the empty text, is stored, and otherwise whatever [JSON.parse] makes of
    the stored text.  When that text is not JSON, the [SyntaxError] leaves
    the [DOMContentLoaded] listener uncaught: no conversation has been
    loaded or created and nothing has been rendered. *)
Theorem C8_load_on_malformed_data (ls : gmap string string) :
  (ls !! "pdb-ai-chats" = None ∨ ls !! "pdb-ai-chats" = Some "" →
   loadAllChats ls = POk (JObj []) ∧ chats_of_json (JObj []) = Some ∅)
  ∧ (∀ data, ls !! "pdb-ai-chats" = Some data → data ≠ "" → loadAllChats ls = parse data)
  ∧ (∀ data clk, ls !! "pdb-ai-chats" = Some data → data ≠ "" → parse data = PSyntax →
       ∃ s, DOMContentLoaded ls clk = BootThrew SyntaxError s
            ∧ chats s = ∅ ∧ chatContainer s = []).
Proof.
  split; [|split].
  - unfold loadAllChats. by intros [-> | ->].
  - apply loadAllChats_stored.
  - intros data clk. apply boot_on_malformed_data.
Qed.

(** The third part, on the stored text cut short. *)
Lemma C8_witness :
  ∃ s, DOMContentLoaded truncated_store ticking = BootThrew SyntaxError s
       ∧ chats s = ∅ ∧ chatContainer s = [].
Proof.
  apply (proj2 (proj2 (C8_load_on_malformed_data truncated_store))
           (json_text "{'chat-1700000000000':{'id':'chat-1700000000000','crea")).
  - reflexivity.
  - discriminate.
  - vm_compute. reflexivity.
Defined.

(** ** Saving and loading the conversations *)

Lemma file_of_json_file_json f : file_of_json (file_json f) = Some f.
Proof. by destruct f. Qed.

Lemma message_of_json_message_json m : message_of_json (message_json m) = Some m.
Proof. destruct m as [s [|j] [| |[n z t u]] ts]; reflexivity. Qed.

Lemma chat_of_json_chat_json c : chat_of_json (chat_json c) = Some c.
Proof.
  destruct c as [i cr up ms]. unfold chat_json, chat_of_json. simpl.
  rewrite (mapM_fmap_Some _ _ ms message_of_json_message_json). reflexivity.
Qed.

Lemma chats_of_json_chats_json l : chats_of_json (chats_json l) = Some (list_to_map l).
Proof.
  unfold chats_json, chats_of_json.
  assert (E : mapM (λ kv : string * json, pair kv.1 <$> chat_of_json kv.2)
                (prod_map id chat_json <$> l) = Some l).
  { apply mapM_fmap_Some. intros [k c].
    change (pair k <$> chat_of_json (chat_json c) = Some (k, c)).
    by rewrite chat_of_json_chat_json. }
  by rewrite E.
Qed.

Ltac each_property := repeat (apply Forall_cons; split); try apply Forall_nil; simpl.

Lemma nodup_strings (l : list string) : bool_decide (NoDup l) = true → NoDup l.
Proof. apply bool_decide_eq_true_1. Qed.

Lemma json_wf_file f :
  - safe_integer ≤ file_size f ≤ safe_integer → json_wf (file_json f).
Proof. intros H. apply json_wf_obj. split; [by apply nodup_strings|]. each_property; done. Qed.

Lemma json_wf_message m : message_wf m → json_wf (message_json m).
Proof.
  destruct m as [s t f ts]. intros [Ht Hf]. simpl in Ht, Hf.
  destruct t, f; unfold message_json; cbn [text file sender timestamp app];
    apply json_wf_obj; (split; [by apply nodup_strings|]);
    each_property; try done; by apply json_wf_file.
Qed.

Lemma json_wf_chat c : chat_wf c → json_wf (chat_json c).
Proof.
  unfold chat_wf, chat_json. intros H. apply json_wf_obj.
  split; [by apply nodup_strings|]. each_property; try done.
  apply json_wf_arr. induction H as [|m ms Hm _ IH]; constructor; [by apply json_wf_message|done].
Qed.

Lemma json_wf_chats (l : list (string * Chat)) :
  NoDup (l.*1) → Forall (λ kc, chat_wf kc.2) l → json_wf (chats_json l).
Proof.
  intros Hnd Hwf. unfold chats_json. apply json_wf_obj. split.
  - assert ((prod_map id chat_json <$> l).*1 = l.*1) as ->; [|done].
    clear. induction l as [|[k c] l IH]; [done|]. simpl. f_equal. exact IH.
  - clear Hnd. induction Hwf as [|[k c] r Hc _ IH]; [by apply Forall_nil|].
    apply Forall_cons. split; [by apply json_wf_chat|done].
Qed.

Lemma stringify_nonempty v : stringify v ≠ "".
Proof. destruct (stringify_head v) as (c & s & -> & _). discriminate. Qed.

(** Whatever the order in which the conversations are written, the stored
    text reads back as the mapping. *)
Lemma load_stored_chats (l : list (string * Chat)) (ls : gmap string string) :
  NoDup (l.*1) → Forall (λ kc, chat_wf kc.2) l →
  ls !! "pdb-ai-chats" = Some (stringify (chats_json l)) →
  loadAllChats ls = POk (chats_json l)
  ∧ chats_of_json (chats_json l) = Some (list_to_map l).
Proof.
  intros Hnd Hwf Hls. split; [|apply chats_of_json_chats_json].
  rewrite (loadAllChats_stored _ _ Hls) by apply stringify_nonempty.
  apply parse_stringify. by apply json_wf_chats.
Qed.

Lemma map_to_list_wf (cs : gmap string Chat) :
  chats_wf cs → Forall (λ kc, chat_wf kc.2) (map_to_list cs).
Proof.
  intros H. apply Forall_forall. intros [k c] Hin.
  apply elem_of_map_to_list in Hin. by apply (H k).
Qed.

Lemma load_saved s :
  chats_wf (chats s) →
  loadAllChats (localStorage (saved s)) = POk (chats_json (map_to_list (chats s)))
  ∧ chats_of_json (chats_json (map_to_list (chats s))) = Some (chats s).
Proof.
  intros Hwf.
  destruct (load_stored_chats (map_to_list (chats s)) (localStorage (saved s))) as [E1 E2].
  - apply NoDup_fst_map_to_list.
  - by apply map_to_list_wf.
  - simpl. rewrite lookup_insert_ne by done. apply lookup_insert_eq.
  - by rewrite list_to_map_to_list in E2.
Qed.

(** C9. What [saveAllChats] stores, [loadAllChats] reads back as the same
    mapping: the same ids, and for every id the same conversation, with its
    timestamps and its messages in their order and with their contents.
    This holds for whatever order the conversations are written in, and the
    next start-up on what was stored has the same conversations and the same
    current conversation. *)
Theorem C9_save_then_load :
  (∀ s, chats_wf (chats s) →
     ∃ j, loadAllChats (localStorage (final (saveAllChats s))) = POk j
          ∧ chats_of_json j = Some (chats s))
  ∧ (∀ (cs : gmap string Chat) (l : list (string * Chat)) (ls : gmap string string),
       chats_wf cs → NoDup (l.*1) → list_to_map l = cs →
       ls !! "pdb-ai-chats" = Some (stringify (chats_json l)) →
       ∃ j, loadAllChats ls = POk j ∧ chats_of_json j = Some cs)
  ∧ (∀ s clk,
       chats_wf (chats s) → currentChatId s ≠ "" → is_Some (chats s !! currentChatId s) →
       let s' := state_of (DOMContentLoaded (localStorage (final (saveAllChats s))) clk) in
       chats s' = chats s ∧ currentChatId s' = currentChatId s).
Proof.
  split; [|split].
  - intros s Hwf. rewrite saveAllChats_eq. simpl final.
    destruct (load_saved s Hwf) as [E1 E2]. by eexists.
  - intros cs l ls Hwf Hnd <- Hls.
    destruct (load_stored_chats l ls) as [E1 E2]; [done| |done|by eexists].
    apply Forall_forall. intros [k c] Hin. apply (Hwf k). simpl.
    by apply elem_of_list_to_map_1.
  - intros s clk Hwf Hcur [c Hc]. rewrite saveAllChats_eq. simpl final.
    destruct (load_saved s Hwf) as [E1 E2].
    unfold DOMContentLoaded, getCurrentChatId, getItem, bind, get.
    simpl. rewrite lookup_insert_eq.
    destruct (String.eqb_spec (currentChatId s) "") as [|_]; [done|].
    unfold ret. simpl.
    change (<["currentChatId":=currentChatId s]>
              (<["pdb-ai-chats":=stringify (chats_json (map_to_list (chats s)))]>
                 (localStorage s)))
      with (localStorage (saved s)).
    rewrite E1, E2, Hc. rewrite (bool_decide_eq_false_2 (Some c = None)) by done.
    rewrite andb_false_r.
    match goal with |- context [initializeChat ?s0] =>
      pose proof (initializeChat_present s0 c Hc) as Ei;
      pose proof (renderChat_frame (currentChatId s) s0) as (F1 & _ & F2)
    end.
    rewrite Ei. simpl in F1, F2 |- *.
    match goal with |- context [renderChat ?i ?s0] => destruct (renderChat i s0) end;
      simpl in *; done.
Qed.

(** The conversation of the first question, saved and loaded. *)
Lemma C9_witness :
  ∃ j, loadAllChats (localStorage (final (saveAllChats asked))) = POk j
       ∧ chats_of_json j = Some (chats asked).
Proof.
  apply (proj1 C9_save_then_load asked).
  assert (E : chats asked = {[ "chat-1700000000000" := current_chat asked ]})
    by (vm_compute; reflexivity).
  intros id c Hc. rewrite E in Hc. apply lookup_singleton_Some in Hc as [_ <-].
  unfold chat_wf.
  let ms := eval vm_compute in (messages (current_chat asked)) in
  replace (messages (current_chat asked)) with ms by (vm_compute; reflexivity).
  repeat constructor.
Defined.

(** ** The body of the response *)

Lemma response_text_holder data p0 :
  reply_holder data = Some p0 → response_text data = Some (assoc "text" p0).
Proof.
  unfold reply_holder, response_text. destruct data as [| | | | |o]; try done. simpl.
  destruct (assoc "candidates" o) as [|[| | | |[|[| | | | |c0] ?]|]]; try done. simpl.
  destruct (assoc "content" c0) as [|[| | | | |ct]]; try done. simpl.
  destruct (assoc "parts" ct) as [|[| | | |[|[| | | | |p] ?]|]]; try done. simpl.
  by intros [= ->].
Qed.

Lemma nullish_is_nullish v : nullish v ↔ is_nullish v = true.
Proof.
  unfold nullish. split; [by intros [-> | ->]|].
  destruct v as [|[]]; try done; [by left|by right].
Qed.

(** Reading a property throws for [undefined] and [null] and for nothing
    else. *)
Lemma get_field_property v name :
  String.eqb name "length" = false →
  get_field v name = if is_nullish v then None else Some (property v name).
Proof. intros Hn. destruct v as [|[]]; try done; simpl; by rewrite Hn. Qed.

Lemma get_first_item v :
  get_first v = if is_nullish v then None else Some (first_item v).
Proof. destruct v as [|[| | |[]|[]|]]; done. Qed.

Lemma response_text_reads data :
  response_text data
  = if existsb is_nullish (values_read data) then None else Some (value_at_path data).
Proof.
  unfold response_text, values_read, value_at_path. cbn [existsb].
  rewrite (get_field_property _ "candidates") by done.
  destruct (is_nullish (VJson data)); [done|]. cbn [mbind option_bind orb].
  rewrite get_first_item.
  destruct (is_nullish (property (VJson data) "candidates")); [done|].
  cbn [mbind option_bind orb].
  rewrite (get_field_property _ "content") by done.
  destruct (is_nullish (first_item _)); [done|]. cbn [mbind option_bind orb].
  rewrite (get_field_property _ "parts") by done.
  destruct (is_nullish (property _ "content")); [done|]. cbn [mbind option_bind orb].
  rewrite get_first_item.
  destruct (is_nullish (property _ "parts")); [done|]. cbn [mbind option_bind orb].
  rewrite (get_field_property _ "text") by done.
  by destruct (is_nullish (first_item _)).
Qed.

Lemma existsb_nullish l : existsb is_nullish l = true ↔ Exists nullish l.
Proof.
  induction l as [|v l IH]; simpl.
  - rewrite Exists_nil. by split.
  - by rewrite Exists_cons, orb_true_iff, IH, nullish_is_nullish.
Qed.

Lemma response_text_throws data :
  response_text data = None ↔ Exists nullish (values_read data).
Proof.
  rewrite response_text_reads, <- existsb_nullish.
  by destruct (existsb is_nullish (values_read data)).
Qed.

Lemma response_text_returns data :
  ¬ Exists nullish (values_read data) → response_text data = Some (value_at_path data).
Proof.
  rewrite response_text_reads, <- existsb_nullish.
  by destruct (existsb is_nullish (values_read data)).
Qed.

(** C10 as stated fails: when the body has [candidates[0].content.parts[0]]
    but that object has no [text], nothing throws; the reply appended has
    the text [undefined] and nothing is logged. *)
Lemma C10_counterexample :
  parse (json_text "{'candidates':[{'content':{'parts':[{}]}}]}") = POk bare_body
  ∧ body_text bare_body = None
  ∧ current_messages (step responded (BodySettled 0 (Fulfilled bare_body)))
    = current_messages responded
      ++ [mkMessage "ai" VUndefined FileAbsent "2023-11-14T22:13:20.007Z"]
  ∧ console (step responded (BodySettled 0 (Fulfilled bare_body))) = [].
Proof. vm_compute. repeat split. Qed.

(** C10, amended. For a response with a success status whose body was
    parsed: reading [data.candidates[0].content.parts[0].text] throws exactly
    when one of the values it reads a property of, which are [data],
    [candidates], [candidates[0]], [content], [parts] and [parts[0]], is
    [undefined] or [null] (as when [candidates] is missing or empty); the
    error is then caught and exactly one message, the apology, is appended.
    Otherwise nothing throws, whatever the kinds of the values: when
    [parts[0]] is an object without [text], or a string or a number, the
    reply appended has the text [undefined]. *)
Theorem C10_body_without_reply (s : State) (k : nat) (typingId : string) (sig : nat)
    (c : Chat) (data : json) :
  calls s !! k = Some (mkCall typingId sig AwaitBody) →
  sig ∉ aborted s →
  chats s !! currentChatId s = Some c →
  let s' := step s (BodySettled k (Fulfilled data)) in
  let throws := Exists nullish (values_read data) in
  (response_text data = None ↔ throws)
  ∧ (¬ throws → response_text data = Some (value_at_path data))
  ∧ (throws →
     ∃ ts, appends s s' (apology ts)
           ∧ console s' = console s ++ [TypeError]
           ∧ calls s' = delete k (calls s)
           ∧ chatContainer s'
             = remove_typing (markup s) typingId (chatContainer s) ++ [NMessage (apology ts)])
  ∧ (¬ throws → value_at_path data = VUndefined →
     ∃ ts, appends s s' (mkMessage "ai" VUndefined FileAbsent ts)
           ∧ console s' = console s
           ∧ calls s' = delete k (calls s)
           ∧ chatContainer s'
             = remove_typing (markup s) typingId (chatContainer s)
               ++ [NMessage (mkMessage "ai" VUndefined FileAbsent ts)])
  ∧ (∀ o, data = JObj o → assoc "candidates" o = VUndefined → throws)
  ∧ (∀ p0, reply_holder data = Some p0 → ¬ throws ∧ value_at_path data = assoc "text" p0)
  ∧ (∀ t, body_text data = Some t → response_text data = Some (VJson t))
  ∧ response_text (JObj [("candidates", JArr [])]) = None
  ∧ response_text (JObj [("candidates", JArr [JNull])]) = None
  ∧ response_text (JNum 5) = None
  ∧ response_text (body_with (JStr "4")) = Some (VJson (JStr "4"))
  ∧ response_text
      (JObj [("candidates", JArr [JObj [("content", JObj [("parts", JArr [JObj []])])]])])
    = Some VUndefined
  ∧ response_text
      (JObj [("candidates", JArr [JObj [("content", JObj [("parts", JArr [JStr "hello"])])]])])
    = Some VUndefined
  ∧ response_text
      (JObj [("candidates", JArr [JObj [("content", JObj [("parts", JArr [JNum 7])])]])])
    = Some VUndefined
  ∧ response_text
      (JObj [("candidates", JArr [JObj [("content", JObj [("parts", JStr "hello")])]])])
    = Some VUndefined.
Proof.
  intros Hk Hsig Hc s' throws.
  split; [apply response_text_throws|]. split; [apply response_text_returns|].
  split; [|split; [|split; [|split; [|split; [|by repeat split]]]]].
  - intros Hd%response_text_throws. exists (iso (clock s (reads s))).
    unfold s'. rewrite (sendMessage_parsed_throw _ _ _ _ c _ Hk Hsig Hc Hd).
    split; [by apply (appends_caught s _ _ c (set_calls _ s))|]. by repeat split.
  - intros Hd%response_text_returns Hv. rewrite Hv in Hd.
    exists (iso (clock s (reads s))).
    unfold s'. rewrite (sendMessage_parsed_reply _ _ _ _ c _ _ Hk Hsig Hc Hd eq_refl).
    split; [|by repeat split]. split; [done|].
    by exists c, (iso (clock s (S (reads s)))).
  - intros o -> Ho. apply response_text_throws. unfold response_text. simpl. by rewrite Ho.
  - intros p0 Hp. pose proof (response_text_holder _ _ Hp) as E.
    assert (Hn : ¬ throws).
    { intros H%response_text_throws. by rewrite H in E. }
    split; [done|]. rewrite (response_text_returns _ Hn) in E. by injection E.
  - intros t. unfold body_text.
    destruct (reply_holder data) as [p0|] eqn:Hp; [|done].
    rewrite (response_text_holder _ _ Hp). by destruct (assoc "text" p0); intros [= ->].
Qed.

(** The body [{}], which has no [candidates]. *)
Lemma C10_witness :
  ∃ ts, appends responded (step responded (BodySettled 0 (Fulfilled (JObj [])))) (apology ts).
Proof.
  destruct (C10_body_without_reply responded 0 "typing-1700000000006" 1
              (current_chat responded) (JObj [])) as (_ & _ & H & _).
  - vm_compute. reflexivity.
  - apply (bool_decide_eq_false_1 (1%nat ∈ aborted responded)). vm_compute. reflexivity.
  - vm_compute. reflexivity.
  - destruct H as (ts & Happ & _); [|by exists ts].
    apply existsb_nullish. reflexivity.
Defined.

(** ** The handlers in closed form *)

Lemma step_next s e c : chats s !! currentChatId s = Some c → step s e = next c s e.
Proof.
  intros Hc. destruct e as [v|[f|]|on| | |k r|k r]; try reflexivity.
  - unfold step, handler, next.
    destruct (String.eqb (trim (promptInput s)) ""
              && negb (bool_decide (is_Some (currentFile s)))) eqn:G.
    + unfold sendMessage, bind, get. by rewrite G.
    + rewrite (sendMessage_eq s c Hc); [done|].
      apply andb_false_iff in G as [G|G].
      * left. by destruct (String.eqb_spec (trim (promptInput s)) "").
      * right. apply negb_false_iff, bool_decide_eq_true_1 in G. done.
  - unfold step, handler, next. by rewrite startNewChat_eq.
  - unfold step, handler, next, sendMessage_fetched, bind, get.
    destruct (calls s !! k) as [[t sig [|]]|] eqn:Hk; try reflexivity.
    unfold with_abort, bind, get, ret. simpl.
    destruct (bool_decide (sig ∈ aborted s)).
    + unfold modify. by rewrite (sendMessage_catch_eq _ _ c).
    + destruct r as [status|x].
      * destruct (ok status); [reflexivity|].
        unfold modify. by rewrite (sendMessage_catch_eq _ _ c).
      * unfold modify. by rewrite (sendMessage_catch_eq _ _ c).
  - unfold step, handler, next, sendMessage_parsed, bind, get.
    destruct (calls s !! k) as [[t sig [|]]|] eqn:Hk; try reflexivity.
    unfold with_abort, bind, get, ret, modify. simpl.
    destruct (bool_decide (sig ∈ aborted s)).
    + by rewrite (sendMessage_catch_eq _ _ c).
    + destruct r as [data|x]; [|by rewrite (sendMessage_catch_eq _ _ c)].
      unfold try_catch. destruct (response_text data) as [v|].
      * unfold removeTypingIndicator, toISOString, now, bind, modify, ret. simpl.
        rewrite (addMessage_eq _ c) by done. unfold replied.
        destruct (renderable _); [reflexivity|].
        erewrite sendMessage_catch_eq; [reflexivity|]. simpl. apply lookup_insert_eq.
      * unfold throw. by rewrite (sendMessage_catch_eq _ _ c).
Qed.

(** ** What is on the page *)

Lemma indicators_app l1 l2 : indicators (l1 ++ l2) = indicators l1 ++ indicators l2.
Proof. apply omap_app. Qed.

Lemma shown_messages_app l1 l2 :
  shown_messages (l1 ++ l2) = shown_messages l1 ++ shown_messages l2.
Proof. apply omap_app. Qed.

Lemma shown_messages_remove_typing els id l :
  shown_messages (remove_typing els id l) = shown_messages l.
Proof.
  induction l as [|[m|id'|m k] l IH]; [done| | |]; cbn [remove_typing].
  - destruct (take_element id (els m)); [done|]. simpl. by rewrite IH.
  - destruct (String.eqb id' id); [done|]. simpl. exact IH.
  - destruct (take_element id k); [done|]. simpl. by rewrite IH.
Qed.

Lemma indicators_message l m : indicators (l ++ [NMessage m]) = indicators l.
Proof. rewrite indicators_app. apply app_nil_r. Qed.

Lemma unaltered_message l m : unaltered l → unaltered (l ++ [NMessage m]).
Proof. intros H. apply Forall_app. split; [done|]. by repeat constructor. Qed.

Lemma prefix_typing x : String.prefix "typing-" ("typing-" +:+ x) = true.
Proof. simpl. by destruct x. Qed.

Lemma no_indicator_ids_free els id :
  no_indicator_ids els → String.prefix "typing-" id = true → ∀ m, id ∉ ids_of (els m).
Proof. intros H Hp m Hin. by rewrite (H m id Hin) in Hp. Qed.

(** On a page in which no message holds an element with the id [id] and
    from which no element of a message has been removed, removing [id] takes
    one indicator [id] away when there is one. *)
Lemma indicators_remove_typing els id l :
  unaltered l → (∀ m, id ∉ ids_of (els m)) →
  unaltered (remove_typing els id l)
  ∧ (((id ∈ indicators l) ∧ (indicators l ≡ₚ id :: indicators (remove_typing els id l)))
     ∨ ((id ∉ indicators l) ∧ remove_typing els id l = l)).
Proof.
  intros Hu Hm. induction Hu as [|n l Hn Hl [IHu IH]].
  - split; [constructor|]. right. split; [apply not_elem_of_nil|done].
  - destruct n as [m|id'|m k]; [| |done].
    + rewrite remove_typing_skip by apply Hm. split; [by constructor|].
      simpl. destruct IH as [[Hin Hp]|[Hni E]]; [by left|right]. split; [done|by rewrite E].
    + cbn [remove_typing]. destruct (String.eqb_spec id' id) as [->|Hne].
      * split; [done|]. left. split; [apply elem_of_cons; by left|done].
      * split; [by constructor|]. simpl. destruct IH as [[Hin Hp]|[Hni E]].
        -- left. split; [apply elem_of_cons; by right|].
           rewrite Hp. apply Permutation_swap.
        -- right. split; [|by rewrite E].
           intros [?|?]%elem_of_cons; [by subst|done].
Qed.

Lemma awaited_delete cs k c :
  cs !! k = Some c → awaited cs ≡ₚ typingId c :: awaited (delete k cs).
Proof.
  intros Hk. unfold awaited. by rewrite <- (map_to_list_delete cs k c Hk).
Qed.

Lemma awaited_insert_fresh cs k c :
  cs !! k = None → awaited (<[k := c]> cs) ≡ₚ typingId c :: awaited cs.
Proof. intros Hk. unfold awaited. by rewrite (map_to_list_insert cs k c Hk). Qed.

Lemma awaited_insert_same cs k c c' :
  cs !! k = Some c → typingId c' = typingId c → awaited (<[k := c']> cs) ≡ₚ awaited cs.
Proof.
  intros Hk E. rewrite <- (insert_delete_eq cs k c').
  rewrite awaited_insert_fresh by apply lookup_delete_eq.
  rewrite E. symmetry. by apply awaited_delete.
Qed.

(** The indicators stay among those of the pending calls when a call ends
    and its indicator is removed. *)
Lemma indicators_call_ended els l cs k c :
  unaltered l → (∀ m, typingId c ∉ ids_of (els m)) →
  cs !! k = Some c → indicators l ⊆+ awaited cs →
  unaltered (remove_typing els (typingId c) l)
  ∧ indicators (remove_typing els (typingId c) l) ⊆+ awaited (delete k cs).
Proof.
  intros Hu Hm Hk Hsub. rewrite (awaited_delete cs k c Hk) in Hsub.
  destruct (indicators_remove_typing els (typingId c) l Hu Hm) as [Hu' [[_ Hp]|[Hni E]]];
    (split; [done|]).
  - rewrite Hp in Hsub. by apply (submseteq_app_inv_l _ _ [typingId c]).
  - rewrite E. apply submseteq_cons_r in Hsub as [?|(l' & Hp & _)]; [done|].
    exfalso. apply Hni. rewrite Hp. apply elem_of_cons. by left.
Qed.

Lemma indicators_remove_typing_sub els id l :
  unaltered l → (∀ m, id ∉ ids_of (els m)) →
  unaltered (remove_typing els id l)
  ∧ indicators (remove_typing els id l) ⊆+ indicators l.
Proof.
  intros Hu Hm.
  destruct (indicators_remove_typing els id l Hu Hm) as [Hu' [[_ Hp]|[_ E]]];
    (split; [done|]); [|by rewrite E].
  rewrite Hp. by apply submseteq_cons.
Qed.

(** The page and the pending calls once the call [k] has ended, its
    indicator has been removed and a message has been added. *)
Lemma page_call_ended els l cs k c m :
  no_indicator_ids els →
  (∀ k' c', cs !! k' = Some c' → String.prefix "typing-" (typingId c') = true) →
  cs !! k = Some c →
  unaltered l ∧ indicators l ⊆+ awaited cs →
  unaltered (remove_typing els (typingId c) l ++ [NMessage m])
  ∧ indicators (remove_typing els (typingId c) l ++ [NMessage m]) ⊆+ awaited (delete k cs).
Proof.
  intros Hno Hpre Hk [Hu Hsub].
  destruct (indicators_call_ended els l cs k c Hu) as [Hu' Hsub']; [|done..|].
  { apply (no_indicator_ids_free els _ Hno). by apply (Hpre k). }
  split; [by apply unaltered_message|by rewrite indicators_message].
Qed.

Lemma prefixes_delete (cs : gmap nat Call) k :
  (∀ k' c', cs !! k' = Some c' → String.prefix "typing-" (typingId c') = true) →
  ∀ k' c', delete k cs !! k' = Some c' → String.prefix "typing-" (typingId c') = true.
Proof. intros H k' c' [_ Hk']%lookup_delete_Some. by apply (H k'). Qed.

Lemma current_messages_eq s c :
  chats s !! currentChatId s = Some c → current_messages s = messages c.
Proof. intros Hc. unfold current_messages. by rewrite Hc. Qed.

(** ** Pending calls, indicators and the page: what every handler keeps *)

Lemma coherent_call_ended s k t sig ph c err :
  coherent s → calls s !! k = Some (mkCall t sig ph) →
  chats s !! currentChatId s = Some c →
  coherent (caught t err c (set_calls (delete k (calls s)) s)).
Proof.
  intros [H1 H2 H3 H4 H5 H6 H7] Hk Hc. split; simpl.
  - unfold has_current. simpl. rewrite lookup_insert_eq. by eexists.
  - intros k' Hk'. destruct (decide (k' = k)) as [->|Hne];
      [apply lookup_delete_eq|rewrite lookup_delete_ne by done; by apply H2].
  - done.
  - intros k' c' Hk'. apply lookup_delete_Some in Hk' as [_ Hk']. by eapply H4.
  - intros k1 k2 c1 c2 [_ Hk1]%lookup_delete_Some [_ Hk2]%lookup_delete_Some. by eapply H5.
  - destruct H6 as [H6 H6']. split; [by apply prefixes_delete|]. intros Hno.
    apply (page_call_ended _ _ _ k (mkCall t sig ph) _ Hno H6 Hk (H6' Hno)).
  - rewrite shown_messages_app, shown_messages_remove_typing, H7. simpl.
    unfold current_messages at 2. simpl. rewrite lookup_insert_eq. simpl.
    rewrite filter_app. rewrite (current_messages_eq s c Hc). f_equal.
Qed.

Lemma coherent_replied s k t sig c v :
  coherent s → calls s !! k = Some (mkCall t sig AwaitBody) →
  chats s !! currentChatId s = Some c →
  coherent (replied t v c (set_calls (delete k (calls s)) s)).
Proof.
  intros [H1 H2 H3 H4 H5 H6 H7] Hk Hc. unfold replied.
  destruct (renderable _) eqn:Hr; split; simpl.
  1, 8: unfold has_current; simpl; rewrite ?insert_insert_eq, lookup_insert_eq; by eexists.
  1, 7: intros k' Hk'; destruct (decide (k' = k)) as [->|Hne];
      [apply lookup_delete_eq|rewrite lookup_delete_ne by done; by apply H2].
  1, 6: done.
  1, 5: intros k' c' Hk'; apply lookup_delete_Some in Hk' as [_ Hk']; by eapply H4.
  1, 4: intros k1 k2 c1 c2 [_ Hk1]%lookup_delete_Some [_ Hk2]%lookup_delete_Some; by eapply H5.
  - destruct H6 as [H6 H6']. split; [by apply prefixes_delete|]. intros Hno.
    apply (page_call_ended _ _ _ k (mkCall t sig AwaitBody) _ Hno H6 Hk (H6' Hno)).
  - rewrite shown_messages_app, shown_messages_remove_typing, H7. simpl.
    unfold current_messages at 2. simpl. rewrite lookup_insert_eq. simpl.
    rewrite filter_app, (current_messages_eq s c Hc). f_equal.
    rewrite filter_cons_True by done. done.
  - destruct H6 as [H6 H6']. split; [by apply prefixes_delete|]. intros Hno.
    assert (Hfree : ∀ m, t ∉ ids_of (markup s m)).
    { apply (no_indicator_ids_free _ _ Hno). apply (H6 k _ Hk). }
    destruct (H6' Hno) as [Hu Hsub].
    destruct (indicators_call_ended (markup s) _ _ k (mkCall t sig AwaitBody) Hu Hfree Hk Hsub)
      as [Hu1 Hsub1].
    destruct (indicators_remove_typing_sub (markup s) t _ Hu1 Hfree) as [Hu2 Hsub2].
    split; [by apply unaltered_message|]. rewrite indicators_message. by etrans.
  - rewrite shown_messages_app, !shown_messages_remove_typing, H7. simpl.
    unfold current_messages at 2. simpl. rewrite lookup_insert_eq. simpl.
    rewrite <- app_assoc, filter_app, (current_messages_eq s c Hc). f_equal.
    simpl in Hr. simpl. rewrite filter_cons_False by (by rewrite Hr). done.
Qed.

Lemma coherent_submitted s c :
  coherent s → chats s !! currentChatId s = Some c → coherent (submitted c s).
Proof.
  intros [H1 H2 H3 H4 H5 H6 H7] Hc. split; simpl.
  - unfold has_current. simpl. rewrite lookup_insert_eq. by eexists.
  - intros k Hk. rewrite lookup_insert_ne by lia. apply H2. lia.
  - intros n. rewrite elem_of_union, elem_of_singleton, H3. lia.
  - intros k c0 [[_ <-]|[_ Hk]]%lookup_insert_Some; simpl; [lia|].
    specialize (H4 _ _ Hk). lia.
  - intros k k' c0 c' [[<- <-]|[_ Hk]]%lookup_insert_Some
      [[<- <-]|[_ Hk']]%lookup_insert_Some; simpl; intros E1 E2; try done.
    + specialize (H4 _ _ Hk'). lia.
    + specialize (H4 _ _ Hk). lia.
    + specialize (H4 _ _ Hk). lia.
  - destruct H6 as [H6 H6']. split.
    + intros k c0 [[_ <-]|[_ Hk]]%lookup_insert_Some; [apply prefix_typing|by apply (H6 k)].
    + intros Hno. destruct (H6' Hno) as [Hu Hsub]. split.
      * apply Forall_app. split; [by apply unaltered_message|]. by repeat constructor.
      * rewrite !indicators_app. simpl. rewrite app_nil_r.
        rewrite awaited_insert_fresh by (apply H2; lia). simpl.
        rewrite <- Permutation_cons_append. by apply submseteq_skip.
  - rewrite !shown_messages_app, H7. simpl. rewrite app_nil_r.
    unfold current_messages at 2. simpl. rewrite lookup_insert_eq. simpl.
    rewrite filter_app, (current_messages_eq s c Hc). f_equal.
    rewrite filter_cons_True by apply renderable_string. done.
Qed.

Lemma coherent_restarted s : coherent s → coherent (restarted s).
Proof.
  intros [H1 H2 H3 H4 H5 H6 H7]. split; simpl.
  - unfold has_current. simpl. rewrite lookup_insert_eq. by eexists.
  - done.
  - intros n. rewrite elem_of_union, elem_of_singleton, H3. lia.
  - intros k c Hk. specialize (H4 _ _ Hk). lia.
  - intros k k' c c' Hk _ E _. specialize (H4 _ _ Hk). lia.
  - split; [apply H6|]. intros _. split; [by repeat constructor|apply submseteq_nil_l].
  - unfold current_messages. simpl. rewrite lookup_insert_eq. done.
Qed.

Lemma coherent_next s e c :
  chats s !! currentChatId s = Some c → coherent s → coherent (next c s e).
Proof.
  intros Hc H. destruct e as [v|[f|]|on| | |k r|k r]; simpl.
  - by destruct H.
  - by destruct H.
  - done.
  - by destruct H.
  - destruct (_ && _); [done|]. by apply coherent_submitted.
  - by apply coherent_restarted.
  - destruct (calls s !! k) as [[t sig [|]]|] eqn:Hk; try done.
    destruct (bool_decide _); [by eapply coherent_call_ended|].
    destruct r as [status|x]; [|by eapply coherent_call_ended].
    destruct (ok status); [|by eapply coherent_call_ended].
    destruct H as [H1 H2 H3 H4 H5 H6 H7]. split; simpl; try done.
    + intros k' Hk'. destruct (decide (k' = k)) as [->|Hne].
      * by rewrite (H2 k Hk') in Hk.
      * rewrite lookup_insert_ne by done. by apply H2.
    + intros k' c' [[_ <-]|[_ Hk']]%lookup_insert_Some; [by apply (H4 _ _ Hk)|by eapply H4].
    + intros k1 k2 c1 c2 [[<- <-]|[? Hk1]]%lookup_insert_Some
        [[<- <-]|[? Hk2]]%lookup_insert_Some; simpl; intros E1 E2; try done.
      * by apply (H5 _ _ _ _ Hk Hk2).
      * by apply (H5 _ _ _ _ Hk1 Hk).
      * by apply (H5 _ _ _ _ Hk1 Hk2).
    + destruct H6 as [H6 H6']. split.
      * intros k' c' [[_ <-]|[_ Hk']]%lookup_insert_Some; [apply (H6 k _ Hk)|by apply (H6 k')].
      * intros Hno. destruct (H6' Hno) as [Hu Hsub]. split; [done|].
        by rewrite (awaited_insert_same _ _ _ _ Hk).
  - destruct (calls s !! k) as [[t sig [|]]|] eqn:Hk; try done.
    destruct (bool_decide _); [by eapply coherent_call_ended|].
    destruct r as [data|x]; [|by eapply coherent_call_ended].
    destruct (response_text data) as [v|]; [|by eapply coherent_call_ended].
    by eapply coherent_replied.
Qed.

Lemma coherent_step s e : coherent s → coherent (step s e).
Proof.
  intros H. destruct (coherent_current s H) as [c Hc].
  rewrite (step_next s e c Hc). by apply coherent_next.
Qed.

Lemma coherent_run es : ∀ s, coherent s → coherent (run s es).
Proof.
  induction es as [|e es IH]; intros s H; [done|].
  simpl. apply IH. by apply coherent_step.
Qed.

(** ** Start-up in closed form *)

Lemma rendered_all l : forallb renderable l = true → rendered l = l.
Proof.
  induction l as [|m l IH]; [done|]. simpl.
  intros [-> Hl]%andb_true_iff. by rewrite IH.
Qed.

Lemma renderMessage_eq m s :
  renderMessage m s
  = if renderable m then Ok tt (set_chatContainer (chatContainer s ++ [NMessage m]) s)
    else Threw TypeError s.
Proof.
  unfold renderMessage, renderable.
  by destruct (truthy (text m) && negb (is_string (text m))).
Qed.

Lemma forEach_renderMessage_eq l s :
  forEach renderMessage l s
  = (if forallb renderable l then Ok tt else Threw TypeError)
      (set_chatContainer (chatContainer s ++ (NMessage <$> rendered l)) s).
Proof.
  revert s. induction l as [|m l IH]; intros s.
  - simpl. unfold ret. apply (f_equal (Ok tt)). apply state_ext; simpl; try reflexivity.
    by rewrite app_nil_r.
  - cbn [forEach forallb rendered]. unfold bind. rewrite renderMessage_eq.
    destruct (renderable m); cbn [andb].
    + rewrite IH.
      destruct (forallb renderable l);
        [apply (f_equal (Ok tt))|apply (f_equal (Threw TypeError))];
        apply state_ext; simpl; try reflexivity; by rewrite <- app_assoc.
    + apply (f_equal (Threw TypeError)). apply state_ext; simpl; try reflexivity.
      by rewrite app_nil_r.
Qed.

Lemma renderChat_eq id s :
  let msgs := match chats s !! id with Some c => messages c | None => [] end in
  renderChat id s
  = (if forallb renderable msgs then Ok tt else Threw TypeError) (opened msgs s).
Proof.
  unfold renderChat, bind, modify, get. simpl. rewrite forEach_renderMessage_eq. simpl.
  destruct (forallb renderable _);
    [apply (f_equal (Ok tt))|apply (f_equal (Threw TypeError))];
    apply state_ext; simpl; reflexivity.
Qed.

Lemma initializeChat_absent_eq s :
  chats s !! currentChatId s = None → initializeChat s = Ok tt (created s).
Proof.
  intros Hc. unfold initializeChat, bind, get. rewrite Hc.
  unfold toISOString, now, bind, ret, modify. simpl.
  unfold renderChat, bind, modify, get. simpl. rewrite lookup_insert_eq. simpl.
  unfold renderMessage, modify, bind, ret. simpl. same_state.
Qed.

Lemma getCurrentChatId_stored s id :
  localStorage s !! "currentChatId" = Some id → id ≠ "" → getCurrentChatId s = Ok id s.
Proof.
  intros Hid Hne. unfold getCurrentChatId, getItem, bind, get. rewrite Hid.
  by destruct (String.eqb_spec id "").
Qed.

Lemma getCurrentChatId_generated s :
  localStorage s !! "currentChatId" = None ∨ localStorage s !! "currentChatId" = Some "" →
  let id := "chat-" +:+ show_Z (ms (clock s (reads s))) in
  getCurrentChatId s
  = Ok id (set_localStorage (<["currentChatId" := id]> (localStorage s))
             (set_reads (S (reads s)) s)).
Proof.
  intros H. unfold getCurrentChatId, getItem, bind, get. by destruct H as [-> | ->].
Qed.

Lemma getCurrentChatId_idle s :
  idle s → ∃ id s', getCurrentChatId s = Ok id s' ∧ idle s' ∧ markup s' = markup s.
Proof.
  intros H. destruct (localStorage s !! "currentChatId") as [id|] eqn:Hid.
  - destruct (String.eqb_spec id "") as [->|Hne].
    + rewrite getCurrentChatId_generated by by right. by eexists _, _.
    + rewrite (getCurrentChatId_stored s id) by done. by eexists _, _.
  - rewrite getCurrentChatId_generated by by left. by eexists _, _.
Qed.

Lemma shown_messages_fmap l : shown_messages (NMessage <$> l) = l.
Proof. induction l as [|m l IH]; [done|]. simpl. f_equal. exact IH. Qed.

Lemma filter_renderable_all l :
  forallb renderable l = true → filter (λ m, renderable m = true) l = l.
Proof.
  induction l as [|m l IH]; [done|]. simpl. intros [Hm Hl]%andb_true_iff.
  rewrite filter_cons_True by done. by rewrite IH.
Qed.

Lemma coherent_idle s c :
  idle s → chats s !! currentChatId s = Some c →
  forallb renderable (messages c) = true → chatContainer s = NMessage <$> messages c →
  coherent s.
Proof.
  intros (Hcalls & Hnext & Hab & Hac) Hc Hr Hdom. split.
  - by eexists.
  - intros k _. by rewrite Hcalls.
  - intros n. rewrite Hab, Hac. split; [by intros ?%not_elem_of_empty|lia].
  - intros k c'. by rewrite Hcalls.
  - intros k k' c1 c2. by rewrite Hcalls.
  - split; [intros k c'; by rewrite Hcalls|]. intros _. rewrite Hdom. split.
    + apply Forall_fmap, Forall_forall. by intros m _.
    + assert (indicators (NMessage <$> messages c) = []) as ->; [|apply submseteq_nil_l].
      clear. induction (messages c) as [|m l IH]; [done|exact IH].
  - by rewrite Hdom, (current_messages_eq s c Hc), shown_messages_fmap, filter_renderable_all.
Qed.

(** A start-up that runs to its end leaves no call pending and the
    messages of the current conversation, all of them, on the page. *)
Lemma booted_shape ls clk s :
  DOMContentLoaded ls clk = Booted s →
  idle s ∧ markup s = parser clk
  ∧ ∃ c, chats s !! currentChatId s = Some c
         ∧ forallb renderable (messages c) = true
         ∧ chatContainer s = NMessage <$> messages c.
Proof.
  unfold DOMContentLoaded.
  destruct (getCurrentChatId_idle (initial ls clk)) as (id & s0 & -> & Hidle & Hm); [done|].
  destruct (loadAllChats _); [|done..].
  destruct (chats_of_json _) as [cs|]; [|done].
  destruct (_ && _); [done|].
  remember (set_chats cs (set_currentChatId id s0)) as s1 eqn:E1.
  assert (Hidle1 : idle s1) by (by subst s1).
  assert (Hm1 : markup s1 = parser clk) by (by subst s1).
  clear E1 Hidle Hm. destruct (chats s1 !! currentChatId s1) as [c|] eqn:Hc.
  - rewrite (initializeChat_present s1 c Hc), renderChat_eq. simpl. rewrite Hc.
    destruct (forallb renderable (messages c)) eqn:Hr; [|done].
    intros [= <-]. split; [done|]. split; [done|]. exists c. unfold opened. simpl.
    by rewrite (rendered_all _ Hr).
  - rewrite (initializeChat_absent_eq s1 Hc). intros [= <-]. split; [done|].
    split; [done|]. eexists. simpl. rewrite lookup_insert_eq. done.
Qed.

Lemma booted_coherent ls clk s : DOMContentLoaded ls clk = Booted s → coherent s.
Proof.
  intros (Hidle & _ & c & Hc & Hr & Hdom)%booted_shape. by eapply coherent_idle.
Qed.



(** ** What is stored *)

Ltac just_saved := split; simpl; [rewrite lookup_insert_ne by done|]; apply lookup_insert_eq.

Lemma persisted_saved s : persisted (saved s).
Proof. just_saved. Qed.

Lemma persisted_same s s' :
  chats s' = chats s → currentChatId s' = currentChatId s → localStorage s' = localStorage s →
  persisted s → persisted s'.
Proof. unfold persisted. by intros -> -> ->. Qed.

Lemma persisted_caught t err c s : persisted (caught t err c s).
Proof. just_saved. Qed.

Lemma persisted_pushed msg c s : persisted (pushed msg c s).
Proof. just_saved. Qed.

Lemma persisted_next s e c :
  persisted (next c s e)
  ∨ (chats (next c s e) = chats s ∧ currentChatId (next c s e) = currentChatId s
     ∧ localStorage (next c s e) = localStorage s).
Proof.
  destruct e as [v|[f|]|on| | |k r|k r]; simpl; try by right.
  - destruct (_ && _); [by right|left]. just_saved.
  - left. just_saved.
  - destruct (calls s !! k) as [[t sig [|]]|]; try by right.
    destruct (bool_decide _); [left; apply persisted_caught|].
    destruct r as [status|x]; [|left; apply persisted_caught].
    destruct (ok status); [by right|left; apply persisted_caught].
  - destruct (calls s !! k) as [[t sig [|]]|]; try by right.
    destruct (bool_decide _); [left; apply persisted_caught|].
    destruct r as [data|x]; [|left; apply persisted_caught].
    destruct (response_text data) as [v|]; [|left; apply persisted_caught].
    left. unfold replied. destruct (renderable _);
      [apply persisted_pushed|apply persisted_caught].
Qed.

Lemma persisted_step s e : has_current s → persisted s → persisted (step s e).
Proof.
  intros [c Hc] Hs. rewrite (step_next s e c Hc).
  destruct (persisted_next s e c) as [H|(E1 & E2 & E3)]; [done|].
  by apply (persisted_same s).
Qed.

Lemma persisted_stored_in_step s : persisted s → stored_in_step s.
Proof.
  intros [H1 H2]. split; [|done]. exists (map_to_list (chats s)).
  split; [apply NoDup_fst_map_to_list|]. split; [apply list_to_map_to_list|done].
Qed.

Lemma first_launch_persisted clk s : DOMContentLoaded ∅ clk = Booted s → persisted s.
Proof.
  unfold DOMContentLoaded. rewrite getCurrentChatId_generated by (by left).
  unfold loadAllChats. simpl. rewrite lookup_insert_ne by done. rewrite lookup_empty. simpl.
  rewrite initializeChat_absent_eq by apply lookup_empty.
  intros [= <-]. just_saved.
Qed.

(** Start-up on what a state has stored, when the stored text is that of
    its conversations. *)
Lemma boot_on_persisted s clk c :
  persisted s → chats_wf (chats s) → currentChatId s ≠ "" →
  chats s !! currentChatId s = Some c →
  DOMContentLoaded (localStorage s) clk
  = (if forallb renderable (messages c) then Booted else BootThrew TypeError)
      (opened (messages c)
         (set_chats (chats s)
            (set_currentChatId (currentChatId s) (initial (localStorage s) clk)))).
Proof.
  intros [Hst Hid] Hwf Hne Hc. unfold DOMContentLoaded.
  rewrite (getCurrentChatId_stored _ (currentChatId s)) by done.
  destruct (load_stored_chats (map_to_list (chats s)) (localStorage s)) as [E1 E2];
    [apply NoDup_fst_map_to_list|by apply map_to_list_wf|done|].
  rewrite list_to_map_to_list in E2. simpl. rewrite E1, E2, Hc.
  rewrite (bool_decide_eq_false_2 (Some c = None)) by done. rewrite andb_false_r.
  erewrite initializeChat_present by (simpl; exact Hc).
  rewrite renderChat_eq. simpl. rewrite Hc.
  by destruct (forallb renderable (messages c)).
Qed.

(** ** Scenarios *)

Lemma first_launch_booted : DOMContentLoaded ∅ ticking = Booted first_launch.
Proof.
  unfold first_launch. destruct (first_launch_boot ticking) as (s & -> & _). reflexivity.
Qed.

Lemma first_launch_coherent : coherent first_launch.
Proof. apply (booted_coherent ∅ ticking). apply first_launch_booted. Qed.

Lemma chats_wf_singleton id c : chat_wf c → chats_wf {[ id := c ]}.
Proof. intros Hc id' c' [_ <-]%lookup_singleton_Some. exact Hc. Qed.

(** The conversations of a scenario: one conversation, whose messages are
    computed and checked one by one. *)
Ltac one_chat_wf s id :=
  let E := fresh in
  assert (E : chats s = {[ id := current_chat s ]}) by (vm_compute; reflexivity);
  rewrite E; apply chats_wf_singleton; unfold chat_wf;
  let ms := eval vm_compute in (messages (current_chat s)) in
  replace (messages (current_chat s)) with ms by (vm_compute; reflexivity);
  repeat first [ apply Forall_nil | apply Forall_cons; split | split | exact I
               | (unfold safe_integer; lia) ].

(** ** The current conversation *)

Lemma generated_not_inherited x : "chat-" +:+ x ∉ inherited_names.
Proof.
  unfold inherited_names. intros H.
  repeat (apply elem_of_cons in H as [H|H]; [discriminate|]).
  by apply elem_of_nil in H.
Qed.

Lemma getCurrentChatId_initial ls clk :
  (∀ id, ls !! "currentChatId" = Some id → id ∉ inherited_names) →
  ∃ id s, getCurrentChatId (initial ls clk) = Ok id s ∧ (id ∉ inherited_names)
          ∧ localStorage s !! "pdb-ai-chats" = ls !! "pdb-ai-chats".
Proof.
  intros Hid. destruct (ls !! "currentChatId") as [id|] eqn:E.
  - destruct (String.eqb_spec id "") as [->|Hne].
    + rewrite getCurrentChatId_generated by (by right). eexists _, _.
      split; [reflexivity|]. split; [apply generated_not_inherited|].
      simpl. by rewrite lookup_insert_ne.
    + rewrite (getCurrentChatId_stored _ id) by done. eexists _, _.
      split; [reflexivity|]. split; [by apply Hid|done].
  - rewrite getCurrentChatId_generated by (by left). eexists _, _.
    split; [reflexivity|]. split; [apply generated_not_inherited|].
    simpl. by rewrite lookup_insert_ne.
Qed.

(** Start-up on a store whose text of the conversations is absent or is what
    [saveAllChats] writes for some conversations, in whatever order, and
    whose current id is none of the names that every object inherits: the
    listener stops with the [TypeError] of a message of the current
    conversation that cannot be rendered, or it runs to its end, and from
    then on the current id names a conversation whatever the events are, so
    that the handlers never find [chats[currentChatId]] missing.  The
    start-ups on a store of another kind are left out: for the stored id
    [constructor] and no conversation of that name, [chats[currentChatId]]
    is an inherited member, no conversation is created and the first submit
    throws. *)
Theorem current_conversation_exists ls clk :
  ((ls !! "pdb-ai-chats" = None)
   ∨ (∃ l : list (string * Chat),
        NoDup (l.*1) ∧ Forall (λ kc, chat_wf kc.2) l
        ∧ ls !! "pdb-ai-chats" = Some (stringify (chats_json l)))) →
  (∀ id, ls !! "currentChatId" = Some id → id ∉ inherited_names) →
  (∃ s, DOMContentLoaded ls clk = Booted s ∧ ∀ es, has_current (run s es))
  ∨ (∃ s c, DOMContentLoaded ls clk = BootThrew TypeError s
            ∧ chats s !! currentChatId s = Some c
            ∧ forallb renderable (messages c) = false).
Proof.
  intros Hstore Hid. unfold DOMContentLoaded.
  destruct (getCurrentChatId_initial ls clk Hid) as (id & s0 & -> & Hni & Hls).
  assert (Hload : ∃ cs, loadAllChats (localStorage (set_currentChatId id s0))
                        = POk (chats_json cs)
                        ∧ chats_of_json (chats_json cs) = Some (list_to_map cs)).
  { destruct Hstore as [Hnone|(l & Hnd & Hwf & Hsome)].
    - exists []. unfold loadAllChats. simpl. by rewrite Hls, Hnone.
    - exists l. apply load_stored_chats; [done..|]. simpl. by rewrite Hls. }
  destruct Hload as (l & -> & ->).
  rewrite (bool_decide_eq_false_2 (id ∈ inherited_names)) by done. rewrite andb_false_l.
  generalize (set_chats (list_to_map l) (set_currentChatId id s0)). intros s1.
  destruct (chats s1 !! currentChatId s1) as [c|] eqn:Hc.
  - rewrite (initializeChat_present s1 c Hc), renderChat_eq. simpl. rewrite Hc.
    destruct (forallb renderable (messages c)) eqn:Hr.
    + left. eexists. split; [reflexivity|]. intros es. apply has_current_run.
      unfold has_current. simpl. rewrite Hc. by eexists.
    + right. exists (opened (messages c) s1), c. by repeat split.
  - rewrite (initializeChat_absent_eq s1 Hc). left. eexists. split; [reflexivity|].
    intros es. apply has_current_run. unfold has_current. simpl.
    rewrite lookup_insert_eq. by eexists.
Qed.

(** Start-up on what is stored once the first question has been asked. *)
Lemma current_conversation_exists_witness :
  (∃ s, DOMContentLoaded (localStorage asked) ticking = Booted s
        ∧ ∀ es, has_current (run s es))
  ∨ (∃ s c, DOMContentLoaded (localStorage asked) ticking = BootThrew TypeError s
            ∧ chats s !! currentChatId s = Some c
            ∧ forallb renderable (messages c) = false).
Proof.
  apply (current_conversation_exists (localStorage asked) ticking).
  - right. exists (map_to_list (chats asked)).
    split; [apply NoDup_fst_map_to_list|]. split; [|vm_compute; reflexivity].
    apply map_to_list_wf. one_chat_wf asked "chat-1700000000000".
  - intros id.
    replace (localStorage asked !! "currentChatId") with (Some "chat-1700000000000")
      by (vm_compute; reflexivity).
    intros [= <-]. apply (generated_not_inherited "1700000000000").
Defined.

(** ** Pending calls *)

(** After start-up and whatever events, at most one pending call has a
    signal that is not aborted, and that signal is the one of the current
    controller: the outcome of every other pending call is an [AbortError]. *)
Theorem one_live_call ls clk s es k :
  DOMContentLoaded ls clk = Booted s → live (run s es) k →
  (∃ c, calls (run s es) !! k = Some c ∧ call_signal c = abortController (run s es))
  ∧ (∀ k', live (run s es) k' → k' = k).
Proof.
  intros Hb Hk. apply booted_coherent in Hb. apply (coherent_run es) in Hb.
  destruct Hb as [_ _ H3 H4 H5 _ _].
  assert (Hlive : ∀ k c, calls (run s es) !! k = Some c →
            call_signal c ∉ aborted (run s es) → call_signal c = abortController (run s es)).
  { intros k0 c Hc Hsig. specialize (H4 _ _ Hc). rewrite H3 in Hsig. lia. }
  destruct Hk as (c & Hc & Hsig). split; [exists c; split; [done|by eapply Hlive]|].
  intros k' (c' & Hc' & Hsig'). eapply H5; eauto.
Qed.

(** The second of two questions asked in a row. *)
Lemma one_live_call_witness :
  let s := run first_launch [Typed "What is 2+2?"; Submit; Typed "And 3+3?"; Submit] in
  (∃ c, calls s !! 1%nat = Some c ∧ call_signal c = abortController s)
  ∧ (∀ k', live s k' → k' = 1%nat).
Proof.
  apply (one_live_call ∅ ticking first_launch
           [Typed "What is 2+2?"; Submit; Typed "And 3+3?"; Submit] 1 first_launch_booted).
  exists (mkCall "typing-1700000000009" 2 AwaitFetch). split; [vm_compute; reflexivity|].
  apply (bool_decide_eq_false_1
           (2%nat ∈ aborted (run first_launch [Typed "What is 2+2?"; Submit;
                                                Typed "And 3+3?"; Submit]))).
  vm_compute. reflexivity.
Defined.



(** After start-up and whatever events, the messages on the page are those
    of the current conversation, in their order, less the messages whose
    text [renderMessage] cannot format. *)
Theorem page_shows_conversation ls clk s es :
  DOMContentLoaded ls clk = Booted s →
  shown_messages (chatContainer (run s es))
  = filter (λ m, renderable m = true) (current_messages (run s es)).
Proof.
  intros Hb. apply booted_coherent in Hb. apply (coherent_run es) in Hb. by destruct Hb.
Qed.

(** A question answered by a number: the page does not show the answer. *)
Lemma page_shows_conversation_witness :
  let s := run first_launch [Typed "What is 2+2?"; Submit; FetchSettled 0 (Fulfilled 200);
                             BodySettled 0 (Fulfilled (body_with (JNum 4)))] in
  shown_messages (chatContainer s) = filter (λ m, renderable m = true) (current_messages s).
Proof.
  apply (page_shows_conversation ∅ ticking first_launch
           [Typed "What is 2+2?"; Submit; FetchSettled 0 (Fulfilled 200);
            BodySettled 0 (Fulfilled (body_with (JNum 4)))] first_launch_booted).
Defined.

(** ** What is stored and what the next start-up finds *)

Lemma persisted_run s es : has_current s → persisted s → persisted (run s es).
Proof.
  revert s. induction es as [|e es IH]; intros s Hc Hs; [done|].
  simpl. apply IH; [by apply has_current_step|by apply persisted_step].
Qed.

Lemma stored_in_step_same s s' :
  chats s' = chats s → currentChatId s' = currentChatId s → localStorage s' = localStorage s →
  stored_in_step s → stored_in_step s'.
Proof. unfold stored_in_step. by intros -> -> ->. Qed.

Lemma stored_in_step_step s e : has_current s → stored_in_step s → stored_in_step (step s e).
Proof.
  intros [c Hc] Hs. rewrite (step_next s e c Hc).
  destruct (persisted_next s e c) as [H|(E1 & E2 & E3)];
    [by apply persisted_stored_in_step|by apply (stored_in_step_same s)].
Qed.

Lemma stored_in_step_run es : ∀ s, has_current s → stored_in_step s → stored_in_step (run s es).
Proof.
  induction es as [|e es IH]; intros s Hc Hs; [done|].
  simpl. apply IH; [by apply has_current_step|by apply stored_in_step_step].
Qed.

(** Whatever events follow, what is stored stays in step with the page: the
    stored text of the conversations is the text of the present
    conversations, one after the other in some order, and the stored current
    id is the present one.  Every handler either leaves the conversations,
    the current id and what is stored as they are, or saves before it
    returns. *)
Theorem conversations_are_persisted s es :
  has_current s →
  (stored_in_step s → stored_in_step (run s es))
  ∧ (∀ e, stored_in_step (step s e)
          ∨ (chats (step s e) = chats s ∧ currentChatId (step s e) = currentChatId s
             ∧ localStorage (step s e) = localStorage s)).
Proof.
  intros Hs. split; [by apply stored_in_step_run|].
  intros e. destruct Hs as [c Hc]. rewrite (step_next s e c Hc).
  destruct (persisted_next s e c) as [H|H]; [left; by apply persisted_stored_in_step|by right].
Qed.

(** From the first launch through a question and the failure of its
    request. *)
Lemma conversations_are_persisted_witness :
  stored_in_step (run first_launch [Typed "What is 2+2?"; Submit; FetchSettled 0 (Fulfilled 500)]).
Proof.
  apply (conversations_are_persisted first_launch).
  - apply (has_current_booted ∅ ticking). apply first_launch_booted.
  - apply persisted_stored_in_step, (first_launch_persisted ticking), first_launch_booted.
Defined.



(** ** Replies that are not texts *)





(** ** A question and its answer *)





(** ** Starting a new conversation while a call is pending *)

(** After [startNewChat], the outcome of a call that was pending, whatever
    it is, is an [AbortError] whose apology is appended to the new
    conversation, which then holds the greeting and the apology; the
    conversation in which the question was asked stays as it was, without a
    reply. *)
Theorem new_chat_receives_stale_apology s k typingId sig ph e :
  coherent s → calls s !! k = Some (mkCall typingId sig ph) → settles k ph e →
  let s1 := step s NewChat in
  let s2 := step s1 e in
  ∃ cr u g ts,
    chats s2
    = <[currentChatId s1 := mkChat (currentChatId s1) cr u [greeting g; apology ts]]> (chats s1)
    ∧ currentChatId s2 = currentChatId s1
    ∧ console s2 = console s ++ [AbortError]
    ∧ calls s2 = delete k (calls s)
    ∧ (∀ id c, id ≠ currentChatId s1 → chats s !! id = Some c → chats s2 !! id = Some c).
Proof.
  intros Hs Hk He s1 s2.
  assert (E1 : s1 = restarted s) by (unfold s1, step, handler; by rewrite startNewChat_eq).
  assert (Hsig : sig ∈ aborted s1).
  { rewrite E1. simpl. rewrite elem_of_union, elem_of_singleton.
    pose proof (coherent_signals s Hs k _ Hk) as Hle. simpl in Hle.
    destruct (decide (sig = abortController s)) as [->|Hne]; [by left|right].
    apply (coherent_aborted s Hs). lia. }
  assert (Hk1 : calls s1 !! k = Some (mkCall typingId sig ph)) by (by rewrite E1).
  assert (Hc1 : chats s1 !! currentChatId s1
                = Some (mkChat (currentChatId s1) (iso (clock s (S (reads s))))
                          (iso (clock s (S (S (reads s)))))
                          [greeting (iso (clock s (S (S (S (reads s))))))]))
    by (rewrite E1; simpl; apply lookup_insert_eq).
  unfold s2. rewrite (stale_result_applied s1 k typingId sig ph _ e Hk1 Hsig He Hc1).
  eexists _, _, _, _. split; [|split; [done|split; [|split]]].
  - rewrite chats_caught. unfold extended. simpl. reflexivity.
  - rewrite E1. reflexivity.
  - rewrite E1. reflexivity.
  - intros id c Hne Hid. rewrite chats_caught.
    rewrite lookup_insert_ne by (simpl; congruence).
    rewrite E1 in Hne |- *. simpl in Hne |- *. by rewrite lookup_insert_ne by congruence.
Qed.

(** A new conversation started while the first question is pending; the
    request then fails with the status 500. *)
Lemma new_chat_receives_stale_apology_witness :
  let s1 := step asked NewChat in
  let s2 := step s1 (FetchSettled 0 (Fulfilled 500)) in
  ∃ cr u g ts,
    chats s2
    = <[currentChatId s1 := mkChat (currentChatId s1) cr u [greeting g; apology ts]]> (chats s1)
    ∧ currentChatId s2 = currentChatId s1
    ∧ console s2 = console asked ++ [AbortError]
    ∧ calls s2 = delete 0%nat (calls asked)
    ∧ (∀ id c, id ≠ currentChatId s1 → chats asked !! id = Some c → chats s2 !! id = Some c).
Proof.
  apply (new_chat_receives_stale_apology asked 0 "typing-1700000000006" 1 AwaitFetch
           (FetchSettled 0 (Fulfilled 500))).
  - apply (coherent_run [Typed "What is 2+2?"; Submit] first_launch first_launch_coherent).
  - vm_compute. reflexivity.
  - reflexivity.
Defined.

(** ** Attaching a file *)



(** ** The id of the current conversation *)

(** [getCurrentChatId] never gives the empty id; the id it gives is stored,
    so that a second call gives the same id and changes nothing.  A stored id
    that is not empty is given back with no change of the state; when none is
    stored, or the empty one, the id is generated from the clock. *)
Theorem getCurrentChatId_settles (s : State) :
  ∃ id s', getCurrentChatId s = Ok id s'
    ∧ id ≠ ""
    ∧ localStorage s' !! "currentChatId" = Some id
    ∧ getCurrentChatId s' = Ok id s'
    ∧ (∀ id0, localStorage s !! "currentChatId" = Some id0 → id0 ≠ "" → id = id0 ∧ s' = s)
    ∧ (localStorage s !! "currentChatId" = None ∨ localStorage s !! "currentChatId" = Some "" →
       id = "chat-" +:+ show_Z (ms (clock s (reads s))) ∧ reads s' = S (reads s)).
Proof.
  destruct (localStorage s !! "currentChatId") as [id|] eqn:Hid.
  - destruct (String.eqb_spec id "") as [->|Hne].
    + rewrite getCurrentChatId_generated by by right.
      eexists _, _. split; [reflexivity|]. split; [done|].
      split; [simpl; apply lookup_insert_eq|].
      split; [apply getCurrentChatId_stored; [simpl; apply lookup_insert_eq|done]|].
      split; [by intros id0 [= <-]|done].
    + rewrite (getCurrentChatId_stored s id Hid Hne).
      eexists _, _. split; [reflexivity|]. split; [done|]. split; [done|].
      split; [by apply getCurrentChatId_stored|].
      split; [by intros id0 [= <-]|]. by intros [?| [= ->]].
  - rewrite getCurrentChatId_generated by by left.
    eexists _, _. split; [reflexivity|]. split; [done|].
    split; [simpl; apply lookup_insert_eq|].
    split; [apply getCurrentChatId_stored; [simpl; apply lookup_insert_eq|done]|].
    split; [done|done].
Qed.

(** ** What no handler does *)

(** No handler removes a conversation.  Only [startNewChat] adds one or
    changes the [id] or the [createdAt] of one (the latter when the id it
    generates is already there). *)
Theorem conversations_are_kept :
  (∀ s es id, is_Some (chats s !! id) → is_Some (chats (run s es) !! id))
  ∧ (∀ s es id c, NewChat ∉ es → chats s !! id = Some c →
       ∃ c', chats (run s es) !! id = Some c'
             ∧ chat_id c' = chat_id c ∧ createdAt c' = createdAt c)
  ∧ (∀ s es id, NewChat ∉ es → is_Some (chats (run s es) !! id) → is_Some (chats s !! id)).
Proof.
  split; [|split].
  - intros s es. revert s. induction es as [|e es IH]; intros s id Hid; [done|].
    simpl. apply IH.
    assert (e = NewChat ∨ e ≠ NewChat) as [->|He] by (destruct e; (by left) || (by right)).
    + unfold step, handler. rewrite startNewChat_eq. simpl.
      destruct (decide (id = "chat-" +:+ show_Z (ms (clock s (reads s))))) as [->|Hne];
        [rewrite lookup_insert_eq; by eexists|by rewrite lookup_insert_ne].
    + revert id Hid.
      apply (step_keeps (λ s s', ∀ id, is_Some (chats s !! id) → is_Some (chats s' !! id)));
        [| |
         |done].
      * intros s0 s' E _ id. by rewrite E.
      * auto.
      * intros s0 s' c u msg Hc E _ id Hid. rewrite E.
        destruct (decide (id = currentChatId s0)) as [->|Hne];
          [rewrite lookup_insert_eq; by eexists|by rewrite lookup_insert_ne].
  - intros s es id c Hes. revert id c.
    apply (run_keeps (λ s s', ∀ id c, chats s !! id = Some c →
             ∃ c', chats s' !! id = Some c'
                   ∧ chat_id c' = chat_id c ∧ createdAt c' = createdAt c)); [| | |done].
    + intros s0 s' E _ id c Hc. exists c. by rewrite E.
    + intros s1 s2 s3 H12 H23 id c Hc.
      destruct (H12 id c Hc) as (c2 & Hc2 & E1 & E2).
      destruct (H23 id c2 Hc2) as (c3 & Hc3 & E3 & E4).
      exists c3. split; [done|]. split; congruence.
    + intros s0 s' c u msg Hc E _ id c0 Hc0. rewrite E.
      destruct (decide (id = currentChatId s0)) as [->|Hne].
      * rewrite lookup_insert_eq. eexists. split; [done|].
        rewrite Hc in Hc0. by injection Hc0 as <-.
      * rewrite lookup_insert_ne by done. by exists c0.
  - intros s es id Hes.
    apply (run_keeps (λ s s', is_Some (chats s' !! id) → is_Some (chats s !! id)));
      [| | |done].
    + intros s0 s' E _. by rewrite E.
    + auto.
    + intros s0 s' c u msg Hc E _. rewrite E.
      destruct (decide (id = currentChatId s0)) as [->|Hne];
        [by rewrite Hc|by rewrite lookup_insert_ne].
Qed.

Ltac no_request := exists []; split; [by rewrite app_nil_r|simpl; lia].

Lemma requests_next s e c :
  ∃ new, requests (next c s e) = requests s ++ new
         ∧ (length new ≤ if is_submit e then 1 else 0)%nat.
Proof.
  destruct e as [v|[f|]|on| | |k r|k r]; simpl; try no_request.
  - destruct (_ && _); [no_request|].
    eexists [_]. split; [reflexivity|simpl; lia].
  - destruct (calls s !! k) as [[t sig [|]]|]; try no_request.
    destruct (bool_decide _); [no_request|].
    destruct r as [status|x]; [|no_request].
    destruct (ok status); no_request.
  - destruct (calls s !! k) as [[t sig [|]]|]; try no_request.
    destruct (bool_decide _); [no_request|].
    destruct r as [data|x]; [|no_request].
    destruct (response_text data) as [v|]; [|no_request].
    unfold replied. destruct (renderable _); no_request.
Qed.

(** Requests are issued by submits alone, at most one for each, and the
    list of the requests issued only grows. *)
Theorem requests_come_from_submits s es :
  has_current s →
  ∃ new, requests (run s es) = requests s ++ new
         ∧ (length new ≤ length (filter (λ e, is_submit e = true) es))%nat.
Proof.
  revert s. induction es as [|e es IH]; intros s Hs.
  - exists []. split; [by rewrite app_nil_r|simpl; lia].
  - simpl. destruct (IH (step s e) (has_current_step s e Hs)) as (new2 & E2 & Hl2).
    destruct Hs as [c Hc]. rewrite (step_next s e c Hc) in E2.
    destruct (requests_next s e c) as (new1 & E1 & Hl1).
    exists (new1 ++ new2). rewrite (step_next s e c Hc), E2, E1, app_assoc.
    split; [done|]. rewrite length_app.
    destruct (is_submit e) eqn:He.
    + rewrite filter_cons_True by done. simpl. lia.
    + rewrite filter_cons_False by (by rewrite He). lia.
Qed.

(** Two questions after the first launch, the failure of the first request
    in between. *)
Lemma requests_come_from_submits_witness :
  let es := [Typed "What is 2+2?"; Submit; FetchSettled 0 (Fulfilled 500);
             Typed "And 3+3?"; Submit] in
  ∃ new, requests (run first_launch es) = requests first_launch ++ new
         ∧ (length new ≤ length (filter (λ e, is_submit e = true) es))%nat.
Proof.
  apply (requests_come_from_submits first_launch).
  apply (has_current_booted ∅ ticking). apply first_launch_booted.
Defined.

(** ** The prompt of a longer conversation *)

(** The prompt of a conversation continued by more messages is the prompt
    of the conversation, a line feed (the character of code 10) and the lines
    of the new messages: every request repeats the prompt of the request
    before it. *)
Theorem buildPrompt_app l1 l2 :
  l1 ≠ [] → l2 ≠ [] →
  buildPrompt (l1 ++ l2) = buildPrompt l1 +:+ String "010" (buildPrompt l2).
Proof.
  intros H1 H2. rewrite !buildPrompt_spec.
  induction l1 as [|m [|m' r] IH]; [done| |].
  - destruct l2 as [|m2 r2]; [done|]. reflexivity.
  - change (spec_prompt ((m :: m' :: r) ++ l2))
      with (prompt_line m +:+ String "010" (spec_prompt ((m' :: r) ++ l2))).
    rewrite IH by done.
    change (spec_prompt (m :: m' :: r))
      with (prompt_line m +:+ String "010" (spec_prompt (m' :: r))).
    change (String "010" (spec_prompt (m' :: r) +:+ String "010" (spec_prompt l2)))
      with (String "010" (spec_prompt (m' :: r)) +:+ String "010" (spec_prompt l2)).
    first [by rewrite append_assoc | by rewrite <- append_assoc].
Qed.

(** The greeting and a first question, continued by a reply. *)
Lemma buildPrompt_app_witness :
  buildPrompt ([mkMessage "ai" (VJson (JStr "Hello!")) FileAbsent "t0";
                mkMessage "user" (VJson (JStr "What is 2+2?")) FileNull "t1"]
               ++ [mkMessage "ai" (VJson (JStr "4")) FileAbsent "t2"])
  = "ai: Hello!" +:+ String "010" "user: What is 2+2?" +:+ String "010" "ai: 4".
Proof.
  rewrite buildPrompt_app by discriminate. reflexivity.
Defined.

(** ** The text of a message as markup *)

Lemma chars_append s t : chars (s +:+ t) = chars s ++ chars t.
Proof. induction s as [|c s IH]; [done|]. rewrite append_cons. simpl. by rewrite IH. Qed.

Lemma prefix_cons a s1 b s2 :
  String.prefix (String a s1) (String b s2)
  = if Ascii.eqb a b then String.prefix s1 s2 else false.
Proof.
  simpl. destruct (ascii_dec a b) as [->|Hne].
  - by rewrite Ascii.eqb_refl.
  - by rewrite (proj2 (Ascii.eqb_neq a b) Hne).
Qed.

Lemma prefix_head o os c r : c ≠ o → String.prefix (String o os) (String c r) = false.
Proof.
  intros Hne. rewrite prefix_cons.
  by rewrite (proj2 (Ascii.eqb_neq o c)) by congruence.
Qed.

Lemma prefix_append s t : String.prefix s (s +:+ t) = true.
Proof.
  induction s as [|c s IH]; [by destruct t|].
  rewrite append_cons, prefix_cons. by rewrite Ascii.eqb_refl.
Qed.

Lemma skip_chars_append s t : skip_chars (String.length s) (s +:+ t) = t.
Proof. induction s as [|c s IH]; [by destruct t|]. by rewrite append_cons. Qed.

Lemma chars_cons c s : chars (String c s) = c :: chars s.
Proof. reflexivity. Qed.


Section Spans.

Variables (any : bool) (o : ascii) (os closing before after : string).

Abbreviation pass := (replace_spans any (String o os) closing before after).

Lemma replace_spans_cons c r :
  c ≠ o → pass 0%nat (String c r) = String c (pass 0%nat r).
Proof. intros Hne. cbn [replace_spans]. by rewrite prefix_head. Qed.

(** A text without the first character of the opening literal is left as it
    is. *)
Lemma replace_spans_lacks s : Forall (λ c, c ≠ o) (chars s) → pass 0%nat s = s.
Proof.
  induction s as [|c s IH]; [done|]. rewrite chars_cons. intros [Hc Hs]%Forall_cons.
  rewrite replace_spans_cons by done. by rewrite IH.
Qed.



End Spans.



Lemma replace_line_feeds_lacks s :
  Forall (λ c, c ≠ "010"%char) (chars s) → replace_line_feeds s = s.
Proof.
  induction s as [|c s IH]; [done|]. rewrite chars_cons. intros [Hc Hs]%Forall_cons.
  cbn [replace_line_feeds]. rewrite (proj2 (Ascii.eqb_neq c "010") Hc). by rewrite IH.
Qed.

Lemma plain_lacks s :
  plain s → Forall (λ c, c ≠ "*"%char) (chars s) ∧ Forall (λ c, c ≠ "`"%char) (chars s)
            ∧ Forall (λ c, c ≠ "010"%char) (chars s).
Proof.
  unfold plain. intros H. repeat split; eapply Forall_impl; try exact H; simpl; tauto.
Qed.

Lemma plain_append s t : plain s → plain t → plain (s +:+ t).
Proof. unfold plain. rewrite chars_append. apply Forall_app_2. Qed.

(** A text with no asterisk, no backtick and no line feed is given back as
    it is: nothing else is replaced, and markup in the text stays markup. *)
Theorem formatText_plain text : plain text → formatText text = text.
Proof.
  intros (Hstar & Htick & Hlf)%plain_lacks. unfold formatText.
  rewrite (replace_spans_lacks false "*" "*" "**" "<strong>" "</strong>") by done.
  rewrite (replace_spans_lacks false "*" "" "*" "<em>" "</em>") by done.
  rewrite (replace_spans_lacks true "`" "``" "```" code_block_start code_block_end) by done.
  by apply replace_line_feeds_lacks.
Qed.

(** A text holding a script element. *)
Lemma formatText_plain_witness :
  formatText "<script>alert(1)</script>" = "<script>alert(1)</script>".
Proof.
  apply formatText_plain. unfold plain, chars. simpl.
  repeat (apply Forall_cons; split; [repeat split; discriminate|]). by apply Forall_nil.
Defined.










(** ** The body of a request *)



(** ** Starting a new conversation *)

Lemma submit_nothing s :
  trim (promptInput s) = "" → currentFile s = None → step s Submit = s.
Proof.
  intros Ht Hf. unfold step, handler, sendMessage, bind, get. by rewrite Ht, Hf.
Qed.

(** [startNewChat] discards what was typed and what was attached and stops
    the recording; the page shows the greeting of the new conversation alone,
    and a submit right after it is a no-op. *)
Theorem new_chat_resets_input s :
  let s' := step s NewChat in
  promptInput s' = "" ∧ currentFile s' = None ∧ uploadActive s' = false
  ∧ isRecording s' = false
  ∧ (∃ g, chatContainer s' = [NMessage (greeting g)] ∧ current_messages s' = [greeting g])
  ∧ abortController s ∈ aborted s'
  ∧ step s' Submit = s'.
Proof.
  intros s'.
  assert (E : s' = restarted s) by (unfold s', step, handler; by rewrite startNewChat_eq).
  assert (H1 : promptInput s' = "") by (by rewrite E).
  assert (H2 : currentFile s' = None) by (by rewrite E).
  assert (H3 : uploadActive s' = false) by (by rewrite E).
  assert (H4 : isRecording s' = false) by (by rewrite E).
  assert (H5 : ∃ g, chatContainer s' = [NMessage (greeting g)]
                    ∧ current_messages s' = [greeting g]).
  { rewrite E. eexists. split; [reflexivity|].
    unfold current_messages. simpl. by rewrite lookup_insert_eq. }
  assert (H6 : abortController s ∈ aborted s').
  { rewrite E. simpl. apply elem_of_union_l. by apply elem_of_singleton. }
  clearbody s'. clear E.
  repeat (split; [assumption|]). apply submit_nothing; [by rewrite H1|done].
Qed.

(** ** Copying a code block *)

Lemma replace_first_cons pattern replacement c r :
  replace_first pattern replacement (String c r)
  = if String.prefix pattern (String c r)
    then replacement +:+ skip_chars (String.length pattern) (String c r)
    else String c (replace_first pattern replacement r).
Proof. reflexivity. Qed.

Lemma replace_first_found p cs replacement u rest :
  Forall (λ c, c ≠ p) (chars u) →
  replace_first (String p cs) replacement (u +:+ String p cs +:+ rest)
  = u +:+ replacement +:+ rest.
Proof.
  induction u as [|c u IH].
  - intros _. rewrite !append_nil_l, append_cons, replace_first_cons, <- append_cons.
    by rewrite prefix_append, skip_chars_append.
  - rewrite chars_cons. intros [Hc Hu]%Forall_cons.
    rewrite !(append_cons c u), replace_first_cons, prefix_head by done. by rewrite IH.
Qed.

Lemma replace_first_absent p cs replacement u rest :
  Forall (λ c, c ≠ p) (chars u) →
  replace_first (String p cs) replacement rest = rest →
  replace_first (String p cs) replacement (u +:+ rest) = u +:+ rest.
Proof.
  intros Hu Hrest. induction u as [|c u IH]; [done|].
  rewrite chars_cons in Hu. apply Forall_cons in Hu as [Hc Hu].
  rewrite append_cons, replace_first_cons, prefix_head by done. by rewrite IH.
Qed.

(** The text content of a code block is its code followed by the label of
    the button.  When the code has no capital C, what is copied is the code,
    trimmed.  When the code holds the word Copy, it is that word which is
    taken out and the label of the button which stays: what is copied is not
    the code.  While the button shows Copied!, after a first click, a second
    click copies the code followed by that label. *)
Theorem copied_text_of_code_block u v :
  Forall (λ c, c ≠ "C"%char) (chars u) →
  copied_text (u +:+ "Copy") = trim u
  ∧ copied_text (u +:+ "Copy" +:+ v +:+ "Copy") = trim (u +:+ v +:+ "Copy")
  ∧ copied_text (u +:+ "Copied!") = trim (u +:+ "Copied!").
Proof.
  intros Hu. unfold copied_text. split; [|split].
  - pose proof (replace_first_found "C" "opy" "" u "" Hu) as E.
    rewrite (append_nil_r "Copy"), append_nil_l, append_nil_r in E. by rewrite E.
  - rewrite (replace_first_found "C" "opy" "" u (v +:+ "Copy") Hu). by rewrite append_nil_l.
  - by rewrite (replace_first_absent "C" "opy" "" u "Copied!" Hu).
Qed.

(** A block whose code is the line [cp Copy.txt x]. *)
Lemma copied_text_of_code_block_witness :
  copied_text ("cp " +:+ "Copy") = trim "cp "
  ∧ copied_text ("cp " +:+ "Copy" +:+ ".txt x" +:+ "Copy") = trim ("cp " +:+ ".txt x" +:+ "Copy")
  ∧ copied_text ("cp " +:+ "Copied!") = trim ("cp " +:+ "Copied!").
Proof.
  apply copied_text_of_code_block. unfold chars. simpl.
  repeat (apply Forall_cons; split; [discriminate|]). by apply Forall_nil.
Defined.

(** ** Reloading at any time *)

Lemma assoc_wf k l v :
  Forall (λ kv : string * json, json_wf kv.2) l → assoc k l = VJson v → json_wf v.
Proof.
  induction l as [|[k' v'] l IH]; [done|]. intros [Hv Hl]%Forall_cons. simpl.
  destruct (String.eqb k' k); [by intros [= <-]|by apply IH].
Qed.

Lemma get_field_wf v name w :
  value_wf v → name ≠ "length" → get_field v name = Some w → value_wf w.
Proof.
  intros Hv Hname. destruct v as [|[| | | | |l]]; simpl; try (by intros [= <-]).
  - destruct (String.eqb_spec name "length"); [done|]. by intros [= <-].
  - destruct (String.eqb_spec name "length"); [done|]. by intros [= <-].
  - intros [= <-]. apply json_wf_obj in Hv as [_ Hl].
    destruct (assoc name l) as [|j] eqn:E; [done|]. by eapply assoc_wf.
Qed.

Lemma get_first_wf v w : value_wf v → get_first v = Some w → value_wf w.
Proof.
  intros Hv. destruct v as [|[| | | | |l]]; simpl; try (by intros [= <-]).
  - destruct s; by intros [= <-].
  - intros [= <-]. apply json_wf_arr in Hv. destruct l0 as [|x r]; [done|].
    by apply Forall_cons in Hv as [? _].
  - intros [= <-]. apply json_wf_obj in Hv as [_ Hl].
    destruct (assoc "0" l) as [|j] eqn:E; [done|]. by eapply assoc_wf.
Qed.

Lemma response_text_wf data v : json_wf data → response_text data = Some v → value_wf v.
Proof.
  intros Hd. unfold response_text.
  destruct (get_field (VJson data) "candidates") as [c|] eqn:E1; [|done]. simpl.
  destruct (get_first c) as [c0|] eqn:E2; [|done]. simpl.
  destruct (get_field c0 "content") as [ct|] eqn:E3; [|done]. simpl.
  destruct (get_field ct "parts") as [p|] eqn:E4; [|done]. simpl.
  destruct (get_first p) as [p0|] eqn:E5; [|done]. simpl.
  intros E6.
  apply (get_field_wf (VJson data) _ _ Hd) in E1; [|done]. apply (get_first_wf _ _ E1) in E2.
  apply (get_field_wf _ _ _ E2) in E3; [|done]. apply (get_field_wf _ _ _ E3) in E4; [|done].
  apply (get_first_wf _ _ E4) in E5. by apply (get_field_wf _ _ _ E5) in E6.
Qed.

Lemma chats_wf_insert cs id c u msg :
  chats_wf cs → cs !! id = Some c → message_wf msg → chats_wf (<[id := extended c u msg]> cs).
Proof.
  intros Hcs Hc Hm id' c' [[_ <-]|[_ Hc']]%lookup_insert_Some; [|by eapply Hcs].
  unfold chat_wf, extended. simpl. apply Forall_app_2; [by apply (Hcs id c)|].
  by apply Forall_cons.
Qed.

Lemma apology_wf ts : message_wf (apology ts).
Proof. by split. Qed.

Lemma storable_caught t err c s :
  storable s → chats s !! currentChatId s = Some c → storable (caught t err c s).
Proof.
  intros (H1 & H2 & H3) Hc. split; [|by split].
  simpl. apply chats_wf_insert; [done..|apply apology_wf].
Qed.

Lemma storable_next s e c :
  chats s !! currentChatId s = Some c → event_wf e → storable s → storable (next c s e).
Proof.
  intros Hc He Hs. pose proof Hs as (H1 & H2 & H3).
  destruct e as [v|[f|]|on| | |k r|k r]; simpl; try done.
  - destruct (_ && _); [done|]. split; [|by split]. simpl.
    apply chats_wf_insert; [done..|]. split; [done|]. simpl. by destruct (currentFile s).
  - split; [|split; [|done]].
    + simpl. intros id' c' [[_ <-]|[_ Hc']]%lookup_insert_Some; [|by eapply H1].
      unfold chat_wf. simpl. apply Forall_cons. split; [by split|by apply Forall_nil].
    + simpl. by destruct (show_Z _).
  - destruct (calls s !! k) as [[t sig [|]]|]; try done.
    destruct (bool_decide _); [by apply (storable_caught _ _ _ (set_calls _ s))|].
    destruct r as [status|x]; [|by apply (storable_caught _ _ _ (set_calls _ s))].
    destruct (ok status); [done|by apply (storable_caught _ _ _ (set_calls _ s))].
  - destruct (calls s !! k) as [[t sig [|]]|]; try done.
    destruct (bool_decide _); [by apply (storable_caught _ _ _ (set_calls _ s))|].
    destruct r as [data|x]; [|by apply (storable_caught _ _ _ (set_calls _ s))].
    destruct (response_text data) as [v|] eqn:Hd;
      [|by apply (storable_caught _ _ _ (set_calls _ s))].
    assert (Hm : ∀ ts, message_wf (mkMessage "ai" v FileAbsent ts)).
    { intros ts. split; [|done]. simpl. by apply (response_text_wf data). }
    unfold replied. destruct (renderable _).
    + split; [|by split]. simpl. by apply chats_wf_insert.
    + apply storable_caught; [|simpl; apply lookup_insert_eq].
      split; [|by split]. simpl. by apply chats_wf_insert.
Qed.

Lemma storable_run es :
  ∀ s, has_current s → Forall event_wf es → storable s → storable (run s es).
Proof.
  induction es as [|e es IH]; intros s Hc Hes Hs; [done|].
  apply Forall_cons in Hes as [He Hes]. simpl.
  apply IH; [by apply has_current_step|done|].
  destruct Hc as [c Hc]. rewrite (step_next s e c Hc). by apply storable_next.
Qed.

Lemma first_launch_storable clk s : DOMContentLoaded ∅ clk = Booted s → storable s.
Proof.
  unfold DOMContentLoaded. rewrite getCurrentChatId_generated by (by left).
  unfold loadAllChats. simpl. rewrite lookup_insert_ne by done. rewrite lookup_empty. simpl.
  rewrite initializeChat_absent_eq by apply lookup_empty.
  intros [= <-]. split; [|split; [|done]].
  - simpl. rewrite insert_empty. apply chats_wf_singleton.
    unfold chat_wf. simpl. apply Forall_cons. split; [by split|by apply Forall_nil].
  - simpl. by destruct (show_Z _).
Qed.

(** After a first launch and whatever events (the file sizes and the bodies
    of the responses being values of the model), opening the page again finds
    the conversations and the current conversation as they were.  The
    start-up runs to its end and shows the messages of the current
    conversation when each of them can be rendered; otherwise it throws a
    [TypeError] once it has shown the messages before the first that
    cannot. *)
Theorem reload_at_any_time clk s0 es clk' :
  DOMContentLoaded ∅ clk = Booted s0 → Forall event_wf es →
  let s := run s0 es in
  let boot := DOMContentLoaded (localStorage s) clk' in
  chats (state_of boot) = chats s
  ∧ currentChatId (state_of boot) = currentChatId s
  ∧ localStorage (state_of boot) = localStorage s
  ∧ chatContainer (state_of boot) = NMessage <$> rendered (current_messages s)
  ∧ boot = (if forallb renderable (current_messages s) then Booted else BootThrew TypeError)
             (state_of boot).
Proof.
  intros Hb Hes s boot.
  assert (Hcur : has_current s0) by (by eapply has_current_booted).
  assert (Hs : storable s)
    by (apply storable_run; [done..|by eapply first_launch_storable]).
  assert (Hp : persisted s)
    by (apply persisted_run; [done|by eapply first_launch_persisted]).
  assert (Hc : has_current s).
  { unfold s. clear -Hcur. revert s0 Hcur. induction es as [|e es IH]; intros s0 H; [done|].
    simpl. apply IH. by apply has_current_step. }
  destruct Hc as [c Hc]. destruct Hs as (Hwf & Hne & _).
  unfold boot. rewrite (boot_on_persisted s clk' c Hp Hwf Hne Hc).
  rewrite (current_messages_eq s c Hc).
  by destruct (forallb renderable (messages c)).
Qed.

(** A question answered by the number 4 after the first launch, and the
    next start-up. *)
Lemma reload_at_any_time_witness :
  let s := run first_launch [Typed "What is 2+2?"; Submit; FetchSettled 0 (Fulfilled 200);
                             BodySettled 0 (Fulfilled (body_with (JNum 4)))] in
  let boot := DOMContentLoaded (localStorage s) ticking in
  chats (state_of boot) = chats s
  ∧ currentChatId (state_of boot) = currentChatId s
  ∧ localStorage (state_of boot) = localStorage s
  ∧ chatContainer (state_of boot) = NMessage <$> rendered (current_messages s)
  ∧ boot = (if forallb renderable (current_messages s) then Booted else BootThrew TypeError)
             (state_of boot).
Proof.
  apply (reload_at_any_time ticking first_launch); [apply first_launch_booted|].
  repeat (apply Forall_cons; split; [simpl; try exact I|]); [|by apply Forall_nil].
  simpl. repeat split; try apply NoDup_singleton; unfold safe_integer; lia.
Defined.
